(** * ALSA backend of libsoundiomini: device discovery and hot-plug handoff

    A shallow embedding of [src/alsa.cpp]: the capability probe
    ([probe_device] and its channel-map helpers), the enumeration pass
    ([refresh_devices]), one iteration of the watcher loop
    ([device_thread_run]) and the consumer side ([flush_events]).

    Calls into libasound, the kernel and the allocator are not part of
    the program; their answers are supplied by scripts (records and
    lists of answers) that the embedded functions consult in the order
    the C code performs the calls. *)

From Stdlib Require Import ZArith List String Ascii Bool Lia DecimalString.
Import ListNotations.

Local Open Scope string_scope.
Local Open Scope list_scope.
Local Open Scope Z_scope.

(** ** C strings *)

(** [strcmp (a, b) == 0]. *)
Definition strcmp_eq (a b : string) : bool := String.eqb a b.

(** [str_has_prefix]: [strncmp (big_str, prefix, strlen (prefix)) == 0]. *)
Fixpoint str_has_prefix (big_str prefix : string) {struct prefix} : bool :=
  match prefix with
  | EmptyString => true
  | String p prefix' =>
      match big_str with
      | EmptyString => false
      | String b big_str' => Ascii.eqb b p && str_has_prefix big_str' prefix'
      end
  end.

(** [strstr (haystack, needle) != NULL]. *)
Fixpoint strstr (haystack needle : string) : bool :=
  str_has_prefix haystack needle
  || match haystack with
     | EmptyString => false
     | String _ rest => strstr rest needle
     end.

(** [str_partition_on_char]: cuts [str] at the first occurrence of [c];
    the first component is what [str] holds afterwards, the second the
    returned pointer ([None] for [nullptr]). *)
Fixpoint str_partition_on_char (str : string) (c : ascii) : string * option string :=
  match str with
  | EmptyString => (EmptyString, None)
  | String x rest =>
      if Ascii.eqb x c then (EmptyString, Some rest)
      else let '(head, tail) := str_partition_on_char rest c in
           (String x head, tail)
  end.

(** [printf]'s [%d]. *)
Definition sprintf_d (n : Z) : string := NilZero.string_of_int (Z.to_int n).

(** ** Machine integers *)

(** Value of an [unsigned int] expression, reduced modulo 2^32. *)
Definition uint (z : Z) : Z := z mod 4294967296.

Definition MAX_SAMPLE_RATE : Z := 48000.

(** ** Data model *)

Inductive SoundIoError : Type :=
| SoundIoErrorNone
| SoundIoErrorNoMem
| SoundIoErrorSystemResources
| SoundIoErrorOpeningDevice.

Inductive SoundIoDevicePurpose : Type :=
| SoundIoDevicePurposeInput
| SoundIoDevicePurposeOutput.

Inductive snd_pcm_stream_t : Type :=
| SND_PCM_STREAM_PLAYBACK
| SND_PCM_STREAM_CAPTURE.

Definition stream_types : list snd_pcm_stream_t :=
  [SND_PCM_STREAM_PLAYBACK; SND_PCM_STREAM_CAPTURE].

Definition purpose_to_stream (purpose : SoundIoDevicePurpose) : snd_pcm_stream_t :=
  match purpose with
  | SoundIoDevicePurposeOutput => SND_PCM_STREAM_PLAYBACK
  | SoundIoDevicePurposeInput => SND_PCM_STREAM_CAPTURE
  end.

Inductive SoundIoChannelId : Type :=
| SoundIoChannelIdInvalid
| SoundIoChannelIdFrontLeft
| SoundIoChannelIdFrontRight
| SoundIoChannelIdFrontCenter
| SoundIoChannelIdLfe
| SoundIoChannelIdBackLeft
| SoundIoChannelIdBackRight
| SoundIoChannelIdFrontLeftCenter
| SoundIoChannelIdFrontRightCenter
| SoundIoChannelIdBackCenter
| SoundIoChannelIdSideLeft
| SoundIoChannelIdSideRight
| SoundIoChannelIdTopCenter
| SoundIoChannelIdTopFrontLeft
| SoundIoChannelIdTopFrontCenter
| SoundIoChannelIdTopFrontRight
| SoundIoChannelIdTopBackLeft
| SoundIoChannelIdTopBackCenter
| SoundIoChannelIdTopBackRight
| SoundIoChannelIdBackLeftCenter
| SoundIoChannelIdBackRightCenter
| SoundIoChannelIdFrontLeftWide
| SoundIoChannelIdFrontRightWide
| SoundIoChannelIdFrontLeftHigh
| SoundIoChannelIdFrontCenterHigh
| SoundIoChannelIdFrontRightHigh
| SoundIoChannelIdTopFrontLeftCenter
| SoundIoChannelIdTopFrontRightCenter
| SoundIoChannelIdTopSideLeft
| SoundIoChannelIdTopSideRight
| SoundIoChannelIdLeftLfe
| SoundIoChannelIdRightLfe
| SoundIoChannelIdBottomCenter
| SoundIoChannelIdBottomLeftCenter
| SoundIoChannelIdBottomRightCenter.

Record SoundIoChannelLayout : Type := {
  layout_name : option string;
  channel_count : Z;
  channels : list SoundIoChannelId
}.

Record SoundIoDevice : Type := {
  name : string;
  description : string;
  purpose : SoundIoDevicePurpose;
  is_raw : bool;
  ref_count : Z;
  channel_layout : SoundIoChannelLayout;
  sample_rate_min : Z;
  sample_rate_max : Z;
  sample_rate_default : Z
}.

(** [snd_pcm_chmap_t]: a channel count and that many positions. *)
Record snd_pcm_chmap_t : Type := {
  chmap_channels : Z;
  chmap_pos : list Z
}.

(** ** Channel maps *)

(** The switch over [snd_pcm_chmap_position], whose enumerators count up
    from [SND_CHMAP_UNKNOWN = 0] to [SND_CHMAP_BRC = 36]. *)
Definition from_alsa_chmap_pos (pos : Z) : SoundIoChannelId :=
  match pos with
  | 0 => SoundIoChannelIdInvalid
  | 1 => SoundIoChannelIdInvalid
  | 2 => SoundIoChannelIdFrontCenter
  | 3 => SoundIoChannelIdFrontLeft
  | 4 => SoundIoChannelIdFrontRight
  | 5 => SoundIoChannelIdBackLeft
  | 6 => SoundIoChannelIdBackRight
  | 7 => SoundIoChannelIdFrontCenter
  | 8 => SoundIoChannelIdLfe
  | 9 => SoundIoChannelIdSideLeft
  | 10 => SoundIoChannelIdSideRight
  | 11 => SoundIoChannelIdBackCenter
  | 12 => SoundIoChannelIdFrontLeftCenter
  | 13 => SoundIoChannelIdFrontRightCenter
  | 14 => SoundIoChannelIdBackLeftCenter
  | 15 => SoundIoChannelIdBackRightCenter
  | 16 => SoundIoChannelIdFrontLeftWide
  | 17 => SoundIoChannelIdFrontRightWide
  | 18 => SoundIoChannelIdFrontLeftHigh
  | 19 => SoundIoChannelIdFrontCenterHigh
  | 20 => SoundIoChannelIdFrontRightHigh
  | 21 => SoundIoChannelIdTopCenter
  | 22 => SoundIoChannelIdTopFrontLeft
  | 23 => SoundIoChannelIdTopFrontRight
  | 24 => SoundIoChannelIdTopFrontCenter
  | 25 => SoundIoChannelIdTopBackLeft
  | 26 => SoundIoChannelIdTopBackRight
  | 27 => SoundIoChannelIdTopBackCenter
  | 28 => SoundIoChannelIdTopFrontLeftCenter
  | 29 => SoundIoChannelIdTopFrontRightCenter
  | 30 => SoundIoChannelIdTopSideLeft
  | 31 => SoundIoChannelIdTopSideRight
  | 32 => SoundIoChannelIdLeftLfe
  | 33 => SoundIoChannelIdRightLfe
  | 34 => SoundIoChannelIdBottomCenter
  | 35 => SoundIoChannelIdBottomLeftCenter
  | 36 => SoundIoChannelIdBottomRightCenter
  | _ => SoundIoChannelIdInvalid
  end.

(** [array[i] = v] on an array kept as a list. *)
Fixpoint array_set {A : Type} (i : nat) (v : A) (array : list A) : list A :=
  match array, i with
  | [], _ => []
  | _ :: rest, O => v :: rest
  | x :: rest, S i' => x :: array_set i' v rest
  end.

(** The [for] loop of [get_channel_layout], entered at index [i] with
    [todo] iterations left. *)
Fixpoint fill_channels (pos : list Z) (i todo : nat)
    (chans : list SoundIoChannelId) : list SoundIoChannelId :=
  match todo with
  | O => chans
  | S todo' =>
      fill_channels pos (S i) todo'
        (array_set i (from_alsa_chmap_pos (nth i pos 0)) chans)
  end.

(** The loop of [handle_channel_maps]: [best] is replaced only by a
    candidate with strictly more channels. *)
Fixpoint best_chmap_from (best : option snd_pcm_chmap_t)
    (maps : list snd_pcm_chmap_t) : option snd_pcm_chmap_t :=
  match maps with
  | [] => best
  | v :: rest =>
      match best with
      | None => best_chmap_from (Some v) rest
      | Some b =>
          if chmap_channels b <? chmap_channels v
          then best_chmap_from (Some v) rest
          else best_chmap_from best rest
      end
  end.

Definition best_chmap (maps : list snd_pcm_chmap_t) : option snd_pcm_chmap_t :=
  best_chmap_from None maps.

Definition set_channel_layout (device : SoundIoDevice)
    (layout : SoundIoChannelLayout) : SoundIoDevice :=
  {| name := name device; description := description device;
     purpose := purpose device; is_raw := is_raw device;
     ref_count := ref_count device; channel_layout := layout;
     sample_rate_min := sample_rate_min device;
     sample_rate_max := sample_rate_max device;
     sample_rate_default := sample_rate_default device |}.

Definition set_sample_rate_min (device : SoundIoDevice) (v : Z) : SoundIoDevice :=
  {| name := name device; description := description device;
     purpose := purpose device; is_raw := is_raw device;
     ref_count := ref_count device; channel_layout := channel_layout device;
     sample_rate_min := v;
     sample_rate_max := sample_rate_max device;
     sample_rate_default := sample_rate_default device |}.

Definition set_sample_rate_default (device : SoundIoDevice) (v : Z) : SoundIoDevice :=
  {| name := name device; description := description device;
     purpose := purpose device; is_raw := is_raw device;
     ref_count := ref_count device; channel_layout := channel_layout device;
     sample_rate_min := sample_rate_min device;
     sample_rate_max := sample_rate_max device;
     sample_rate_default := v |}.

Record SoundIoDevicesInfo : Type := {
  input_devices : list SoundIoDevice;
  output_devices : list SoundIoDevice;
  default_output_index : Z;
  default_input_index : Z
}.

(** ** Shared state

    The fields of [SoundIoAlsa] and [SoundIo] that the discovery core
    reads or writes, with counters for what it does to the outside:
    condition-variable signals, calls of the application callback,
    [SoundIoDevicesInfo] objects allocated and not yet destroyed,
    allocation requests made so far, and entries into
    [refresh_devices].  [abort_flag] is the [atomic_flag]:
    [soundio_alsa_init] sets it, [destroy_alsa] clears it to make the
    thread leave its loop. *)
Record World : Type := {
  ready_devices_info : option SoundIoDevicesInfo;
  have_devices_flag : bool;
  abort_flag : bool;
  safe_devices_info : option SoundIoDevicesInfo;
  cond_signals : nat;
  on_devices_change_calls : nat;
  live_devices_info : nat;
  allocations : nat;
  refresh_devices_calls : nat
}.

(** How a sequence of statements ends: it runs on, the function
    returns an error code, or the process dies. *)
Inductive Death : Type :=
| soundio_panic (msg : string)
| soundio_panic_refresh (err : SoundIoError)
| assertion_failed
| null_dereference.

Inductive Flow (A : Type) : Type :=
| Go (a : A) (w : World)
| Return (code : SoundIoError) (w : World)
| Dead (cause : Death) (w : World).

Arguments Go {A} a w.
Arguments Return {A} code w.
Arguments Dead {A} cause w.

Definition M (A : Type) : Type := World -> Flow A.

Definition ret {A : Type} (a : A) : M A := fun w => Go a w.

Definition bind {A B : Type} (m : M A) (f : A -> M B) : M B :=
  fun w =>
    match m w with
    | Go a w' => f a w'
    | Return code w' => Return code w'
    | Dead cause w' => Dead cause w'
    end.

Definition return_ {A : Type} (code : SoundIoError) : M A :=
  fun w => Return code w.

Definition die {A : Type} (cause : Death) : M A :=
  fun w => Dead cause w.

Definition modify (f : World -> World) : M unit := fun w => Go tt (f w).

Declare Scope flow_scope.
Delimit Scope flow_scope with flow.
Notation "x <- m ;; k" := (bind m (fun x => k))
  (at level 61, m at next level, right associativity) : flow_scope.
Notation "m ;;; k" := (bind m (fun _ => k))
  (at level 61, right associativity) : flow_scope.

Definition world_of {A : Type} (r : Flow A) : World :=
  match r with
  | Go _ w => w
  | Return _ w => w
  | Dead _ w => w
  end.

(** [for] over the elements of an array, threading the loop state. *)
Fixpoint for_each {A S : Type} (body : A -> S -> M S) (l : list A) (s : S) : M S :=
  match l with
  | [] => ret s
  | x :: rest => bind (body x s) (for_each body rest)
  end.

(** ** The capability probe *)

(** Answers of the PCM calls [probe_device] makes on one device, in call
    order.  A rate answer is the value written through the pointer and
    the rounding direction. *)
Record PcmAnswers : Type := {
  pcm_open_ok : bool;
  hw_params_any_ok : bool;
  set_rate_resample_ok : bool;
  set_access_ok : bool;
  set_channels_last_ok : bool;
  get_rate_max : option (Z * Z);
  get_rate_min : option (Z * Z);
  get_chmap : option snd_pcm_chmap_t;
  query_chmaps : option (list snd_pcm_chmap_t)
}.

(** What a probe leaves behind: the returned code with the device as
    filled so far, or a read through a null [best] pointer. *)
Inductive Probed : Type :=
| ProbeRet (err : SoundIoError) (device : SoundIoDevice)
| ProbeNullDeref.

Section Alsa.

Set Default Proof Using "Type".

(** Declared in headers that are not part of [src/]: the channel array
    bound, the builtin-layout detector, and the conversion that the
    assignment to a [sample_rate_*] field applies to an
    [unsigned int]. *)
Variable SOUNDIO_MAX_CHANNELS : Z.
Variable soundio_channel_layout_detect_builtin :
  SoundIoChannelLayout -> SoundIoChannelLayout.
Variable rate_field : Z -> Z.

Definition get_channel_layout (device : SoundIoDevice)
    (chmap : snd_pcm_chmap_t) : SoundIoDevice :=
  let count := Z.min (uint SOUNDIO_MAX_CHANNELS) (chmap_channels chmap) in
  let layout :=
    {| layout_name := None;
       channel_count := count;
       channels := fill_channels (chmap_pos chmap) 0 (Z.to_nat count)
                     (channels (channel_layout device)) |} in
  set_channel_layout device (soundio_channel_layout_detect_builtin layout).

(** [maps = None] is the null pointer; [Some []] an array holding only
    its terminator, for which [best] stays null. *)
Definition handle_channel_maps (device : SoundIoDevice)
    (maps : option (list snd_pcm_chmap_t)) : option SoundIoDevice :=
  match maps with
  | None => Some device
  | Some candidates =>
      match best_chmap candidates with
      | Some best => Some (get_channel_layout device best)
      | None => None
      end
  end.

Definition probe_device (pcm : PcmAnswers) (device : SoundIoDevice)
    (maps : option (list snd_pcm_chmap_t)) : Probed :=
  if negb (pcm_open_ok pcm) then
    match handle_channel_maps device maps with
    | Some device' => ProbeRet SoundIoErrorOpeningDevice device'
    | None => ProbeNullDeref
    end
  else if negb (hw_params_any_ok pcm) then
    ProbeRet SoundIoErrorOpeningDevice device
  else if negb (set_rate_resample_ok pcm) then
    ProbeRet SoundIoErrorOpeningDevice device
  else if negb (set_access_ok pcm) then
    ProbeRet SoundIoErrorOpeningDevice device
  else if negb (set_channels_last_ok pcm) then
    ProbeRet SoundIoErrorOpeningDevice device
  else
    match get_rate_max pcm with
    | None => ProbeRet SoundIoErrorOpeningDevice device
    | Some (queried_max, max_dir) =>
        let max_sample_rate :=
          if max_dir <? 0 then uint (uint queried_max - 1)
          else uint queried_max in
        match get_rate_min pcm with
        | None => ProbeRet SoundIoErrorOpeningDevice device
        | Some (queried_min, min_dir) =>
            let min_sample_rate :=
              if 0 <? min_dir then uint (uint queried_min + 1)
              else uint queried_min in
            let device1 :=
              match get_chmap pcm with
              | Some chmap => get_channel_layout device chmap
              | None => device
              end in
            let maps1 :=
              match get_chmap pcm, maps with
              | None, None => query_chmaps pcm
              | _, _ => maps
              end in
            match handle_channel_maps device1 maps1 with
            | None => ProbeNullDeref
            | Some device2 =>
                let device3 :=
                  set_sample_rate_min device2 (rate_field min_sample_rate) in
                let device4 :=
                  set_sample_rate_min device3 (rate_field max_sample_rate) in
                let device5 :=
                  set_sample_rate_default device4
                    (rate_field
                       (if (min_sample_rate <=? MAX_SAMPLE_RATE)
                           && (MAX_SAMPLE_RATE <=? max_sample_rate)
                        then MAX_SAMPLE_RATE else max_sample_rate)) in
                ProbeRet SoundIoErrorNone device5
            end
        end
    end.


(** ** The enumeration pass *)

(** One entry of the array returned by [snd_device_name_hint], as
    read by [snd_device_name_get_hint]: the NAME string, and the DESC
    and IOID strings, each [None] when [snd_device_name_get_hint]
    returns NULL for it.  The pass tests the IOID against NULL; the
    DESC it hands to [str_partition_on_char] as it is.  An entry is
    taken to have a NAME. *)
Record Hint : Type := {
  hint_NAME : string;
  hint_DESC : option string;
  hint_IOID : option string
}.

(** Result of [snd_ctl_pcm_info] for one stream direction. *)
Inductive PcmInfo : Type :=
| PcmInfoOk (device_name : string)
| PcmInfoENOENT
| PcmInfoFails.

Record PcmStreamAnswers : Type := {
  pcm_info : PcmInfo;
  chmaps_from_hw : option (list snd_pcm_chmap_t)
}.

(** Successive answers of [snd_ctl_pcm_next_device] on one card. *)
Inductive PcmNext : Type :=
| PcmNextFails
| PcmNextEnd
| PcmNextDevice (device_index : Z)
    (streams : snd_pcm_stream_t -> PcmStreamAnswers) (rest : PcmNext).

Inductive CtlOpen : Type :=
| CtlOpenOk
| CtlOpenENOENT
| CtlOpenFails.

(** Successive answers of [snd_card_next]: failure, no further card,
    or a card index together with the answers of the calls made on
    that card. *)
Inductive CardNext : Type :=
| CardNextFails
| CardNextEnd
| CardNextCard (card_index : Z) (ctl_open : CtlOpen) (card_info : option string)
    (pcms : PcmNext) (rest : CardNext).

(** Everything one pass is told by the outside. [alloc_ok n] says
    whether the [n]-th allocation request succeeds. *)
Record PassAnswers : Type := {
  alloc_ok : nat -> bool;
  name_hints : option (list Hint);
  pcm_answers : string -> SoundIoDevicePurpose -> PcmAnswers;
  cards : CardNext
}.

(** State of objects fresh from [create<T>] ([util.hpp], not part of
    [src/]), as far as the pass does not overwrite it. *)
Variable created_device : SoundIoDevice.
Variable created_default_output_index : Z.
Variable created_default_input_index : Z.

Definition created_devices_info : SoundIoDevicesInfo :=
  {| input_devices := []; output_devices := [];
     default_output_index := created_default_output_index;
     default_input_index := created_default_input_index |}.

Definition with_allocations (w : World) (n : nat) : World :=
  {| ready_devices_info := ready_devices_info w;
     have_devices_flag := have_devices_flag w;
     abort_flag := abort_flag w;
     safe_devices_info := safe_devices_info w;
     cond_signals := cond_signals w;
     on_devices_change_calls := on_devices_change_calls w;
     live_devices_info := live_devices_info w;
     allocations := n;
     refresh_devices_calls := refresh_devices_calls w |}.

Definition with_live_devices_info (w : World) (n : nat) : World :=
  {| ready_devices_info := ready_devices_info w;
     have_devices_flag := have_devices_flag w;
     abort_flag := abort_flag w;
     safe_devices_info := safe_devices_info w;
     cond_signals := cond_signals w;
     on_devices_change_calls := on_devices_change_calls w;
     live_devices_info := n;
     allocations := allocations w;
     refresh_devices_calls := refresh_devices_calls w |}.

Definition with_refresh_devices_calls (w : World) (n : nat) : World :=
  {| ready_devices_info := ready_devices_info w;
     have_devices_flag := have_devices_flag w;
     abort_flag := abort_flag w;
     safe_devices_info := safe_devices_info w;
     cond_signals := cond_signals w;
     on_devices_change_calls := on_devices_change_calls w;
     live_devices_info := live_devices_info w;
     allocations := allocations w;
     refresh_devices_calls := n |}.

(** An allocation request: [create<T>], [strdup],
    [soundio_alloc_sprintf] or a list [append]. *)
Definition allocate (env : PassAnswers) : M bool :=
  fun w => Go (alloc_ok env (allocations w))
              (with_allocations w (S (allocations w))).

(** [destroy (devices_info)] on the pass's own snapshot. *)
Definition destroy_devices_info : M unit :=
  modify (fun w => with_live_devices_info w (Nat.pred (live_devices_info w))).

(** [soundio_destroy_devices_info (p)]: nothing for a null [p]. *)
Definition soundio_destroy_devices_info (p : option SoundIoDevicesInfo) : M unit :=
  match p with
  | Some _ => destroy_devices_info
  | None => ret tt
  end.

Definition new_device (nm descr : string) (raw : bool)
    (p : SoundIoDevicePurpose) : SoundIoDevice :=
  {| name := nm; description := descr; purpose := p; is_raw := raw;
     ref_count := 1;
     channel_layout := channel_layout created_device;
     sample_rate_min := sample_rate_min created_device;
     sample_rate_max := sample_rate_max created_device;
     sample_rate_default := sample_rate_default created_device |}.

Definition append_output (info : SoundIoDevicesInfo) (device : SoundIoDevice)
    : SoundIoDevicesInfo :=
  {| input_devices := input_devices info;
     output_devices := output_devices info ++ [device];
     default_output_index := default_output_index info;
     default_input_index := default_input_index info |}.

Definition append_input (info : SoundIoDevicesInfo) (device : SoundIoDevice)
    : SoundIoDevicesInfo :=
  {| input_devices := input_devices info ++ [device];
     output_devices := output_devices info;
     default_output_index := default_output_index info;
     default_input_index := default_input_index info |}.

Definition set_default_output_index (info : SoundIoDevicesInfo) (i : Z)
    : SoundIoDevicesInfo :=
  {| input_devices := input_devices info;
     output_devices := output_devices info;
     default_output_index := i;
     default_input_index := default_input_index info |}.

Definition set_default_input_index (info : SoundIoDevicesInfo) (i : Z)
    : SoundIoDevicesInfo :=
  {| input_devices := input_devices info;
     output_devices := output_devices info;
     default_output_index := default_output_index info;
     default_input_index := i |}.

(** [device_list->append (device)] on the list chosen by [stream]. *)
Definition append_device (stream : snd_pcm_stream_t) (info : SoundIoDevicesInfo)
    (device : SoundIoDevice) : SoundIoDevicesInfo :=
  match stream with
  | SND_PCM_STREAM_PLAYBACK => append_output info device
  | SND_PCM_STREAM_CAPTURE => append_input info device
  end.

Definition stream_purpose (stream : snd_pcm_stream_t) : SoundIoDevicePurpose :=
  match stream with
  | SND_PCM_STREAM_PLAYBACK => SoundIoDevicePurposeOutput
  | SND_PCM_STREAM_CAPTURE => SoundIoDevicePurposeInput
  end.

Definition is_capture_stream (stream : snd_pcm_stream_t) : bool :=
  match stream with
  | SND_PCM_STREAM_CAPTURE => true
  | SND_PCM_STREAM_PLAYBACK => false
  end.

(** The names the hint loop skips. *)
Definition excluded_name (nm : string) : bool :=
  strcmp_eq nm "null"
  || str_has_prefix nm "sysdefault:"
  || str_has_prefix nm "front:"
  || str_has_prefix nm "surround21:"
  || str_has_prefix nm "surround40:"
  || str_has_prefix nm "surround41:"
  || str_has_prefix nm "surround50:"
  || str_has_prefix nm "surround51:"
  || str_has_prefix nm "surround71:".

(** The test that suppresses a capture descriptor. *)
Definition mentions_output (descr1 : option string) : bool :=
  match descr1 with
  | Some d => strstr d "Output" || strstr d "output"
  | None => false
  end.

(** [probe_device] as the pass calls it: the return code is dropped,
    the device keeps what the probe wrote. *)
Definition probe (env : PassAnswers) (device : SoundIoDevice)
    (maps : option (list snd_pcm_chmap_t)) : M SoundIoDevice :=
  match probe_device (pcm_answers env (name device) (purpose device)) device maps with
  | ProbeRet _ device' => ret device'
  | ProbeNullDeref => die null_dereference
  end.

Definition fail_pass {A : Type} (code : SoundIoError) : M A :=
  (destroy_devices_info ;;; return_ code)%flow.

(** The branch on [stream] that picks the list and, for a name that
    starts with "default:", records the list's current length as its
    default index. *)
Definition mark_default (nm : string) (stream : snd_pcm_stream_t)
    (info : SoundIoDevicesInfo) : SoundIoDevicesInfo :=
  match stream with
  | SND_PCM_STREAM_PLAYBACK =>
      if str_has_prefix nm "default:"
      then set_default_output_index info
             (Z.of_nat (List.length (output_devices info)))
      else info
  | SND_PCM_STREAM_CAPTURE =>
      if str_has_prefix nm "default:"
      then set_default_input_index info
             (Z.of_nat (List.length (input_devices info)))
      else info
  end.

(** Body of the inner loop over [stream_types] for one hint. *)
Definition hint_stream (env : PassAnswers) (nm descr : string)
    (descr1 : option string) (is_playback is_capture : bool)
    (stream : snd_pcm_stream_t) (info : SoundIoDevicesInfo)
    : M SoundIoDevicesInfo :=
  (if negb (is_capture_stream stream) && negb is_playback then ret info
   else if is_capture_stream stream && negb is_capture then ret info
   else if is_capture_stream stream && mentions_output descr1 then ret info
   else
     device_ok <- allocate env ;;
     if negb device_ok then fail_pass SoundIoErrorNoMem
     else
       name_ok <- allocate env ;;
       descr_ok <- allocate env ;;
       if negb name_ok || negb descr_ok then fail_pass SoundIoErrorNoMem
       else
         let device :=
           new_device nm
             (match descr1 with
              | Some d => (descr ++ ": " ++ d)%string
              | None => descr
              end)
             false (stream_purpose stream) in
         let info1 := mark_default nm stream info in
         device' <- probe env device None ;;
         append_ok <- allocate env ;;
         if negb append_ok then fail_pass SoundIoErrorNoMem
         else ret (append_device stream info1 device'))%flow.

(** Body of the loop over the hints. *)
Definition hint_body (env : PassAnswers) (hint : Hint)
    (info : SoundIoDevicesInfo) : M SoundIoDevicesInfo :=
  let nm := hint_NAME hint in
  if excluded_name nm then ret info
  else
    match hint_DESC hint with
    | None => die null_dereference
    | Some desc =>
        let '(descr, descr1) := str_partition_on_char desc "010"%char in
        match hint_IOID hint with
        | Some io =>
            if strcmp_eq io "Input" then
              for_each (hint_stream env nm descr descr1 false true) stream_types info
            else if strcmp_eq io "Output" then
              for_each (hint_stream env nm descr descr1 true false) stream_types info
            else die (soundio_panic "invalid io hint value")
        | None =>
            for_each (hint_stream env nm descr descr1 true true) stream_types info
        end
    end.

(** Body of the loop over [stream_types] for one raw device. *)
Definition raw_stream (env : PassAnswers) (card_index : Z) (card_name : string)
    (device_index : Z) (streams : snd_pcm_stream_t -> PcmStreamAnswers)
    (stream : snd_pcm_stream_t) (info : SoundIoDevicesInfo)
    : M SoundIoDevicesInfo :=
  (match pcm_info (streams stream) with
   | PcmInfoENOENT => ret info
   | PcmInfoFails => fail_pass SoundIoErrorSystemResources
   | PcmInfoOk device_name =>
       device_ok <- allocate env ;;
       if negb device_ok then fail_pass SoundIoErrorNoMem
       else
         name_ok <- allocate env ;;
         descr_ok <- allocate env ;;
         if negb name_ok || negb descr_ok then fail_pass SoundIoErrorNoMem
         else
           let device :=
             new_device
               ("hw:" ++ sprintf_d card_index ++ "," ++ sprintf_d device_index)%string
               (card_name ++ " " ++ device_name)%string
               true (stream_purpose stream) in
           device' <- probe env device (chmaps_from_hw (streams stream)) ;;
           append_ok <- allocate env ;;
           if negb append_ok then fail_pass SoundIoErrorNoMem
           else ret (append_device stream info device')
   end)%flow.

(** The [for (;;)] over the PCM devices of one card. *)
Fixpoint pcm_loop (env : PassAnswers) (card_index : Z) (card_name : string)
    (script : PcmNext) (info : SoundIoDevicesInfo) : M SoundIoDevicesInfo :=
  match script with
  | PcmNextFails => fail_pass SoundIoErrorSystemResources
  | PcmNextEnd => ret info
  | PcmNextDevice device_index streams rest =>
      if device_index <? 0 then ret info
      else
        bind (for_each (raw_stream env card_index card_name device_index streams)
                stream_types info)
             (pcm_loop env card_index card_name rest)
  end.

(** The [while (card_index >= 0)] loop, entered with the answer of
    the latest [snd_card_next]; [CardNextFails] here is the failing
    call at the end of the loop body. *)
Fixpoint card_loop (env : PassAnswers) (script : CardNext)
    (info : SoundIoDevicesInfo) : M SoundIoDevicesInfo :=
  match script with
  | CardNextFails => fail_pass SoundIoErrorSystemResources
  | CardNextEnd => ret info
  | CardNextCard card_index ctl_open card_info pcms rest =>
      if card_index <? 0 then ret info
      else
        match ctl_open with
        | CtlOpenENOENT => ret info
        | CtlOpenFails => fail_pass SoundIoErrorOpeningDevice
        | CtlOpenOk =>
            match card_info with
            | None => fail_pass SoundIoErrorSystemResources
            | Some card_name =>
                bind (pcm_loop env card_index card_name pcms info)
                     (card_loop env rest)
            end
        end
  end.

(** The locked block at the end of [refresh_devices]. *)
Definition publish (info : SoundIoDevicesInfo) : M unit :=
  (slot <- (fun w => Go (ready_devices_info w) w) ;;
   soundio_destroy_devices_info slot ;;;
   modify (fun w =>
     {| ready_devices_info := Some info;
        have_devices_flag := true;
        abort_flag := abort_flag w;
        safe_devices_info := safe_devices_info w;
        cond_signals := S (cond_signals w);
        on_devices_change_calls := on_devices_change_calls w;
        live_devices_info := live_devices_info w;
        allocations := allocations w;
        refresh_devices_calls := refresh_devices_calls w |}))%flow.

(** The loop over the hints. *)
Definition hint_loop (env : PassAnswers) (hints : list Hint)
    (info : SoundIoDevicesInfo) : M SoundIoDevicesInfo :=
  for_each (hint_body env) hints info.

(** Entry of [refresh_devices] up to the creation of the snapshot
    under construction. *)
Definition begin_pass (env : PassAnswers) : M SoundIoDevicesInfo :=
  (modify (fun w => with_refresh_devices_calls w (S (refresh_devices_calls w))) ;;;
   info_ok <- allocate env ;;
   if negb info_ok then return_ SoundIoErrorNoMem
   else
     modify (fun w => with_live_devices_info w (S (live_devices_info w))) ;;;
     ret created_devices_info)%flow.

(** [refresh_devices]; [Go tt w] stands for [return 0]. *)
Definition refresh_devices (env : PassAnswers) : M unit :=
  (info0 <- begin_pass env ;;
   match name_hints env with
   | None => fail_pass SoundIoErrorNoMem
   | Some hints =>
       info <- hint_loop env hints info0 ;;
       match cards env with
       | CardNextFails => return_ SoundIoErrorSystemResources
       | script =>
           info' <- card_loop env script info ;;
           publish info'
       end
   end)%flow.

(** ** The watcher thread *)

Definition IN_CREATE : Z := 256.
Definition IN_DELETE : Z := 512.
Definition IN_ISDIR : Z := 1073741824.
Definition POLLIN : Z := 1.

(** [struct inotify_event] as far as the loop reads it: [len] is the
    size of the name buffer that follows the header, [event_name] the
    string that buffer holds before its null padding. *)
Record inotify_event : Type := {
  mask : Z;
  len : Z;
  event_name : string
}.

(** [event->name[i]] for an index inside the name buffer. *)
Definition name_at (event : inotify_event) (i : nat) : ascii :=
  match String.get i (event_name event) with
  | Some c => c
  | None => Ascii.zero
  end.

(** The four [continue] tests of the loop over the events of one
    buffer; [true] when none of them fires. *)
Definition rescan_event (event : inotify_event) : bool :=
  if negb ((negb (Z.land (mask event) IN_CREATE =? 0))
           || (negb (Z.land (mask event) IN_DELETE =? 0))) then false
  else if negb (Z.land (mask event) IN_ISDIR =? 0) then false
  else if (len event =? 0) || (len event <? 8) then false
  else if negb (Ascii.eqb (name_at event 0) "p")
          || negb (Ascii.eqb (name_at event 1) "c")
          || negb (Ascii.eqb (name_at event 2) "m") then false
  else true.

(** The loop over the events of one buffer: the first event that
    passes the tests sets the flag and leaves the loop. *)
Fixpoint scan_buffer (events : list inotify_event) (got_rescan_event : bool) : bool :=
  match events with
  | [] => got_rescan_event
  | event :: rest =>
      if rescan_event event then true
      else scan_buffer rest got_rescan_event
  end.

(** The loop that reads [notify_fd] until [read] returns no data. *)
Fixpoint drain_notify (reads : list (list inotify_event)) (got_rescan_event : bool) : bool :=
  match reads with
  | [] => got_rescan_event
  | buf :: rest => drain_notify rest (scan_buffer buf got_rescan_event)
  end.

Inductive PollErrno : Type :=
| EINTR
| ENOMEM
| EFAULT
| EINVAL.

(** What one return of [poll] brings: its result and [errno], the
    [revents] of the two descriptors, the buffers the non-blocking
    reads of [notify_fd] deliver before one returns no data, and the
    answers for a pass run in this iteration. *)
Record Wake : Type := {
  poll_num : Z;
  poll_errno : PollErrno;
  notify_revents : Z;
  pipe_revents : Z;
  notify_reads : list (list inotify_event);
  pass_answers : PassAnswers
}.

Inductive Loop : Type :=
| Continue (w : World)
| Break (w : World)
| Died (cause : Death) (w : World).

Definition loop_world (r : Loop) : World :=
  match r with
  | Continue w => w
  | Break w => w
  | Died _ w => w
  end.

Definition with_abort_flag (w : World) (b : bool) : World :=
  {| ready_devices_info := ready_devices_info w;
     have_devices_flag := have_devices_flag w;
     abort_flag := b;
     safe_devices_info := safe_devices_info w;
     cond_signals := cond_signals w;
     on_devices_change_calls := on_devices_change_calls w;
     live_devices_info := live_devices_info w;
     allocations := allocations w;
     refresh_devices_calls := refresh_devices_calls w |}.

(** [got_rescan_event] at the end of the draining part of one
    iteration. *)
Definition got_rescan_event (wake : Wake) : bool :=
  let got0 := false in
  let got1 :=
    if negb (Z.land (notify_revents wake) POLLIN =? 0)
    then drain_notify (notify_reads wake) got0
    else got0 in
  if negb (Z.land (pipe_revents wake) POLLIN =? 0) then true else got1.

(** One iteration of the [for (;;)] of [device_thread_run], from the
    return of [poll] on.  [test_and_set] returns the former value of
    the flag and leaves it set; the loop is left when it was clear. *)
Definition device_thread_iteration (wake : Wake) (w : World) : Loop :=
  let was_set := abort_flag w in
  let w1 := with_abort_flag w true in
  if negb was_set then Break w1
  else if poll_num wake =? -1 then
    match poll_errno wake with
    | EINTR => Continue w1
    | ENOMEM => Died (soundio_panic "kernel ran out of polling memory") w1
    | EFAULT | EINVAL => Died assertion_failed w1
    end
  else if poll_num wake <=? 0 then Continue w1
  else if got_rescan_event wake then
    match refresh_devices (pass_answers wake) w1 with
    | Go _ w2 => Continue w2
    | Return err w2 => Died (soundio_panic_refresh err) w2
    | Dead cause w2 => Died cause w2
    end
  else Continue w1.

(** The thread over the successive returns of [poll]; it is back in
    [poll] when they are used up. *)
Fixpoint device_thread_run (wakes : list Wake) (w : World) : Loop :=
  match wakes with
  | [] => Continue w
  | wake :: rest =>
      match device_thread_iteration wake w with
      | Continue w' => device_thread_run rest w'
      | stop => stop
      end
  end.

(** ** The consumer side *)

(** A call either returns or stays in [soundio_os_cond_wait] because
    nothing else runs. *)
Inductive Call : Type :=
| Returns (w : World)
| Waits (w : World).

Definition call_world (r : Call) : World :=
  match r with
  | Returns w => w
  | Waits w => w
  end.

Definition block_until_have_devices (w : World) : Call :=
  if have_devices_flag w then Returns w else Waits w.

Definition flush_events (w : World) : Call :=
  match block_until_have_devices w with
  | Waits w' => Waits w'
  | Returns w0 =>
      match ready_devices_info w0 with
      | Some ready =>
          let old_devices_info := safe_devices_info w0 in
          let w1 :=
            {| ready_devices_info := None;
               have_devices_flag := have_devices_flag w0;
               abort_flag := abort_flag w0;
               safe_devices_info := Some ready;
               cond_signals := cond_signals w0;
               on_devices_change_calls := S (on_devices_change_calls w0);
               live_devices_info := live_devices_info w0;
               allocations := allocations w0;
               refresh_devices_calls := refresh_devices_calls w0 |} in
          Returns (world_of (soundio_destroy_devices_info old_devices_info w1))
      | None =>
          Returns (world_of (soundio_destroy_devices_info None w0))
      end
  end.

(** ** Set-up and tear-down *)

(** The fields of [struct SoundIoAlsa] that [World] does not hold; a
    pointer field is [true] when it is not null. *)
Record SoundIoAlsa : Type := {
  mutex : bool;
  cond : bool;
  thread : bool;
  notify_fd : Z;
  notify_wd : Z;
  notify_pipe_fd : Z * Z
}.

(** [soundio->backend_data] and the function pointers, the shared
    state, and what the backend holds of the operating system: mutexes,
    condition variables and threads alive, descriptors it has closed and
    bytes it has written into the wake pipe. *)
Record Backend : Type := {
  backend_data : option SoundIoAlsa;
  dispatch_installed : bool;
  world : World;
  os_mutexes : nat;
  os_conds : nat;
  os_threads : nat;
  closed_fds : list Z;
  pipe_written : Z
}.

(** The values of [errno] the set-up code distinguishes. *)
Inductive Errno : Type :=
| Errno_EACCES
| Errno_EAGAIN
| Errno_EBADF
| Errno_EFAULT
| Errno_EINVAL
| Errno_EIO
| Errno_EMFILE
| Errno_ENAMETOOLONG
| Errno_ENFILE
| Errno_ENOENT
| Errno_ENOMEM
| Errno_ENOSPC
| Errno_EPERM
| Errno_EPIPE.

(** Result of the [write] of one byte into the wake pipe. *)
Inductive WriteResult : Type :=
| Written (amt : Z)
| WriteFails (errno : Errno).

(** Answers of the calls [soundio_alsa_init] makes, in call order; an
    [errno] counts only when the call before it fails. *)
Record InitAnswers : Type := {
  create_ok : bool;
  mutex_ok : bool;
  cond_ok : bool;
  inotify_init1_fd : Z;
  inotify_init1_errno : Errno;
  inotify_add_watch_wd : Z;
  inotify_add_watch_errno : Errno;
  pipe2_result : Z;
  pipe2_errno : Errno;
  pipe2_fds : Z * Z;
  wakeup_write : WriteResult;
  thread_create_err : SoundIoError;
  teardown_write : WriteResult
}.

Inductive Initialised : Type :=
| InitRet (err : SoundIoError) (b : Backend)
| InitDead (cause : Death) (b : Backend).

(** Fields of an object fresh from [create<SoundIoAlsa>] that the
    set-up reads before it writes them. *)
Variable created_alsa : SoundIoAlsa.

Definition with_backend_data (b : Backend) (data : option SoundIoAlsa) : Backend :=
  {| backend_data := data; dispatch_installed := dispatch_installed b;
     world := world b; os_mutexes := os_mutexes b; os_conds := os_conds b;
     os_threads := os_threads b; closed_fds := closed_fds b;
     pipe_written := pipe_written b |}.

Definition with_world (b : Backend) (w : World) : Backend :=
  {| backend_data := backend_data b; dispatch_installed := dispatch_installed b;
     world := w; os_mutexes := os_mutexes b; os_conds := os_conds b;
     os_threads := os_threads b; closed_fds := closed_fds b;
     pipe_written := pipe_written b |}.

Definition with_have_devices_flag (w : World) (flag : bool) : World :=
  {| ready_devices_info := ready_devices_info w;
     have_devices_flag := flag;
     abort_flag := abort_flag w;
     safe_devices_info := safe_devices_info w;
     cond_signals := cond_signals w;
     on_devices_change_calls := on_devices_change_calls w;
     live_devices_info := live_devices_info w;
     allocations := allocations w;
     refresh_devices_calls := refresh_devices_calls w |}.

(** [wakeup_device_poll]: [None] when one of its assertions fails. *)
Definition wakeup_device_poll (result : WriteResult) (b : Backend) : option Backend :=
  match result with
  | Written amt =>
      Some {| backend_data := backend_data b;
              dispatch_installed := dispatch_installed b;
              world := world b; os_mutexes := os_mutexes b;
              os_conds := os_conds b; os_threads := os_threads b;
              closed_fds := closed_fds b;
              pipe_written := pipe_written b + amt |}
  | WriteFails (Errno_EBADF | Errno_EIO | Errno_ENOSPC | Errno_EPERM | Errno_EPIPE) =>
      None
  | WriteFails _ => Some b
  end.

(** [destroy_alsa]; [write] answers the wake-up it sends to a running
    thread.  [None] when an assertion of that wake-up fails.  These are
    the writes of [destroy_alsa] itself: what the watcher thread still
    does to the shared state before [soundio_os_thread_destroy] has
    joined it is [device_thread_run]'s. *)
Definition destroy_alsa (write : WriteResult) (b : Backend) : option Backend :=
  match backend_data b with
  | None => Some b
  | Some sia =>
      let stopped :=
        if thread sia then
          match wakeup_device_poll write
                  (with_world b (with_abort_flag (world b) false)) with
          | Some b1 =>
              Some {| backend_data := backend_data b1;
                      dispatch_installed := dispatch_installed b1;
                      world := world b1; os_mutexes := os_mutexes b1;
                      os_conds := os_conds b1;
                      os_threads := Nat.pred (os_threads b1);
                      closed_fds := closed_fds b1;
                      pipe_written := pipe_written b1 |}
          | None => None
          end
        else Some b in
      match stopped with
      | None => None
      | Some b2 =>
          Some {| backend_data := None;
                  dispatch_installed := dispatch_installed b2;
                  world :=
                    world_of (soundio_destroy_devices_info
                                (ready_devices_info (world b2)) (world b2));
                  os_mutexes :=
                    if mutex sia then Nat.pred (os_mutexes b2) else os_mutexes b2;
                  os_conds :=
                    if cond sia then Nat.pred (os_conds b2) else os_conds b2;
                  os_threads := os_threads b2;
                  closed_fds :=
                    closed_fds b2
                    ++ [fst (notify_pipe_fd sia); snd (notify_pipe_fd sia);
                        notify_fd sia];
                  pipe_written := pipe_written b2 |}
      end
  end.

Definition with_alsa (b : Backend) (sia : SoundIoAlsa) : Backend :=
  with_backend_data b (Some sia).

(** [destroy_alsa] followed by [return err]. *)
Definition teardown_and_return (answers : InitAnswers) (err : SoundIoError)
    (b : Backend) : Initialised :=
  match destroy_alsa (teardown_write answers) b with
  | Some b' => InitRet err b'
  | None => InitDead assertion_failed b
  end.

Definition soundio_alsa_init (answers : InitAnswers) (b : Backend) : Initialised :=
  match backend_data b with
  | Some _ => InitDead assertion_failed b
  | None =>
      if negb (create_ok answers) then
        teardown_and_return answers SoundIoErrorNoMem b
      else
        let sia0 :=
          {| mutex := mutex created_alsa; cond := cond created_alsa;
             thread := thread created_alsa;
             notify_fd := -1; notify_wd := -1;
             notify_pipe_fd := notify_pipe_fd created_alsa |} in
        let b0 :=
          with_world (with_alsa b sia0)
            (with_abort_flag (with_have_devices_flag (world b) false) true) in
        if negb (mutex_ok answers) then
          teardown_and_return answers SoundIoErrorNoMem
            (with_alsa b0 {| mutex := false; cond := cond sia0;
                             thread := thread sia0; notify_fd := notify_fd sia0;
                             notify_wd := notify_wd sia0;
                             notify_pipe_fd := notify_pipe_fd sia0 |})
        else
          let sia1 :=
            {| mutex := true; cond := cond sia0; thread := thread sia0;
               notify_fd := notify_fd sia0; notify_wd := notify_wd sia0;
               notify_pipe_fd := notify_pipe_fd sia0 |} in
          let b1 :=
            {| backend_data := Some sia1;
               dispatch_installed := dispatch_installed b0;
               world := world b0; os_mutexes := S (os_mutexes b0);
               os_conds := os_conds b0; os_threads := os_threads b0;
               closed_fds := closed_fds b0; pipe_written := pipe_written b0 |} in
          if negb (cond_ok answers) then
            teardown_and_return answers SoundIoErrorNoMem
              (with_alsa b1 {| mutex := true; cond := false;
                               thread := thread sia1; notify_fd := notify_fd sia1;
                               notify_wd := notify_wd sia1;
                               notify_pipe_fd := notify_pipe_fd sia1 |})
          else
            let sia2 :=
              {| mutex := true; cond := true; thread := thread sia1;
                 notify_fd := inotify_init1_fd answers;
                 notify_wd := notify_wd sia1;
                 notify_pipe_fd := notify_pipe_fd sia1 |} in
            let b2 :=
              {| backend_data := Some sia2;
                 dispatch_installed := dispatch_installed b1;
                 world := world b1; os_mutexes := os_mutexes b1;
                 os_conds := S (os_conds b1); os_threads := os_threads b1;
                 closed_fds := closed_fds b1; pipe_written := pipe_written b1 |} in
            if inotify_init1_fd answers =? -1 then
              match inotify_init1_errno answers with
              | Errno_EINVAL => InitDead assertion_failed b2
              | Errno_EMFILE | Errno_ENFILE =>
                  teardown_and_return answers SoundIoErrorSystemResources b2
              | Errno_ENOMEM =>
                  teardown_and_return answers SoundIoErrorNoMem b2
              | _ =>
                  match destroy_alsa (teardown_write answers) b2 with
                  | Some b' => InitDead assertion_failed b'
                  | None => InitDead assertion_failed b2
                  end
              end
            else
              let sia3 :=
                {| mutex := true; cond := true; thread := thread sia2;
                   notify_fd := notify_fd sia2;
                   notify_wd := inotify_add_watch_wd answers;
                   notify_pipe_fd := notify_pipe_fd sia2 |} in
              let b3 := with_alsa b2 sia3 in
              if inotify_add_watch_wd answers =? -1 then
                match inotify_add_watch_errno answers with
                | Errno_EACCES | Errno_EBADF | Errno_EFAULT | Errno_EINVAL
                | Errno_ENAMETOOLONG | Errno_ENOENT =>
                    InitDead assertion_failed b3
                | Errno_ENOSPC =>
                    teardown_and_return answers SoundIoErrorSystemResources b3
                | Errno_ENOMEM =>
                    teardown_and_return answers SoundIoErrorNoMem b3
                | _ =>
                    match destroy_alsa (teardown_write answers) b3 with
                    | Some b' => InitDead assertion_failed b'
                    | None => InitDead assertion_failed b3
                    end
                end
              else if negb (pipe2_result answers =? 0) then
                match pipe2_errno answers with
                | Errno_EMFILE | Errno_ENFILE =>
                    InitRet SoundIoErrorSystemResources b3
                | _ => InitDead assertion_failed b3
                end
              else
                let sia4 :=
                  {| mutex := true; cond := true; thread := thread sia3;
                     notify_fd := notify_fd sia3; notify_wd := notify_wd sia3;
                     notify_pipe_fd := pipe2_fds answers |} in
                match wakeup_device_poll (wakeup_write answers) (with_alsa b3 sia4) with
                | None => InitDead assertion_failed (with_alsa b3 sia4)
                | Some b4 =>
                    match thread_create_err answers with
                    | SoundIoErrorNone =>
                        InitRet SoundIoErrorNone
                          {| backend_data :=
                               Some {| mutex := true; cond := true; thread := true;
                                       notify_fd := notify_fd sia4;
                                       notify_wd := notify_wd sia4;
                                       notify_pipe_fd := notify_pipe_fd sia4 |};
                             dispatch_installed := true;
                             world := world b4; os_mutexes := os_mutexes b4;
                             os_conds := os_conds b4;
                             os_threads := S (os_threads b4);
                             closed_fds := closed_fds b4;
                             pipe_written := pipe_written b4 |}
                    | err => teardown_and_return answers err b4
                    end
                end
  end.



(** ** Vocabulary of the statements *)

(** Worlds that agree on everything but the allocation bookkeeping. *)
Definition same_shared (w w' : World) : Prop :=
  ready_devices_info w' = ready_devices_info w
  /\ have_devices_flag w' = have_devices_flag w
  /\ abort_flag w' = abort_flag w
  /\ safe_devices_info w' = safe_devices_info w
  /\ cond_signals w' = cond_signals w
  /\ on_devices_change_calls w' = on_devices_change_calls w
  /\ refresh_devices_calls w' = refresh_devices_calls w.

(** A piece of the pass that runs while the snapshot under
    construction is alive: it leaves the shared fields alone, keeps the
    snapshot when it runs on (with a result in [Q]) and has destroyed
    it when it returns an error code. *)
Definition pass_step {A : Type} (Q : A -> Prop) (m : M A) : Prop :=
  forall w,
    match m w with
    | Go a w' =>
        same_shared w w' /\ live_devices_info w' = live_devices_info w /\ Q a
    | Return _ w' =>
        same_shared w w'
        /\ live_devices_info w' = Nat.pred (live_devices_info w)
    | Dead _ w' => same_shared w w'
    end.

(** The three [continue] tests at the head of the stream loop of a
    hint. *)
Definition hint_stream_skips (is_playback is_capture : bool)
    (descr1 : option string) (stream : snd_pcm_stream_t) : bool :=
  (negb (is_capture_stream stream) && negb is_playback)
  || (is_capture_stream stream && negb is_capture)
  || (is_capture_stream stream && mentions_output descr1).

(** The alias prefixes the hint loop skips. *)
Definition excluded_aliases : list string :=
  ["sysdefault:"; "front:"; "surround21:"; "surround40:"; "surround41:";
   "surround50:"; "surround51:"; "surround71:"].

(** A name that is neither "null" nor starts with an excluded alias. *)
Definition admissible_name (nm : string) : Prop :=
  nm <> "null"
  /\ forall alias rest, In alias excluded_aliases -> nm <> (alias ++ rest)%string.

(** Every descriptor of both lists satisfies [D]. *)
Definition devices_all (D : SoundIoDevice -> Prop) (info : SoundIoDevicesInfo) : Prop :=
  Forall D (output_devices info) /\ Forall D (input_devices info).

(** [info'] is [info] with raw descriptors appended. *)
Definition raw_extension (info info' : SoundIoDevicesInfo) : Prop :=
  default_output_index info' = default_output_index info
  /\ default_input_index info' = default_input_index info
  /\ (exists outs, output_devices info' = output_devices info ++ outs
                   /\ Forall (fun d => is_raw d = true) outs)
  /\ (exists ins, input_devices info' = input_devices info ++ ins
                  /\ Forall (fun d => is_raw d = true) ins).

(** The descriptors of a list that come from hints. *)
Definition logical (devices : list SoundIoDevice) : list SoundIoDevice :=
  filter (fun d => negb (is_raw d)) devices.

(** The secondary description text of a hint: what follows the first
    newline of its DESC string. *)
Definition secondary_text (hint : Hint) : option string :=
  match hint_DESC hint with
  | Some desc => snd (str_partition_on_char desc "010"%char)
  | None => None
  end.

(** [detail] contains "Output" or "output". *)
Definition names_output (detail : string) : Prop :=
  (exists before rest, detail = (before ++ "Output" ++ rest)%string)
  \/ (exists before rest, detail = (before ++ "output" ++ rest)%string).

(** The list and the default index a stream direction selects. *)
Definition device_list (stream : snd_pcm_stream_t) (info : SoundIoDevicesInfo)
    : list SoundIoDevice :=
  match stream with
  | SND_PCM_STREAM_PLAYBACK => output_devices info
  | SND_PCM_STREAM_CAPTURE => input_devices info
  end.

Definition default_index (stream : snd_pcm_stream_t) (info : SoundIoDevicesInfo) : Z :=
  match stream with
  | SND_PCM_STREAM_PLAYBACK => default_output_index info
  | SND_PCM_STREAM_CAPTURE => default_input_index info
  end.

(** A record of a creation or of a deletion: bit 8 ([IN_CREATE]) or
    bit 9 ([IN_DELETE]) of the mask is set. *)
Definition creation_or_deletion (event : inotify_event) : Prop :=
  Z.testbit (mask event) 8 = true \/ Z.testbit (mask event) 9 = true.

(** The is-directory flag: bit 30 ([IN_ISDIR]) of the mask. *)
Definition directory_entry (event : inotify_event) : Prop :=
  Z.testbit (mask event) 30 = true.

(** A qualifying hardware-topology change. *)
Definition qualifying_change (event : inotify_event) : Prop :=
  creation_or_deletion event
  /\ ~ directory_entry event
  /\ 8 <= len event
  /\ exists rest, event_name event = ("pcm" ++ rest)%string.

(** The records drained in one iteration that pass the filter. *)
Definition pending_rescan_events (wake : Wake) : list inotify_event :=
  filter rescan_event (List.concat (notify_reads wake)).

(** A second call of [flush_events] after a first one, with nothing
    else running in between; there is none if the first never returns. *)
Definition flush_events_twice (w : World) : Call :=
  match flush_events w with
  | Returns w1 => flush_events w1
  | Waits w1 => Waits w1
  end.

(** A computation that runs on from every world. *)
Definition runs_on {A : Type} (m : M A) : Prop :=
  forall w, exists a w', m w = Go a w'.

(** The name given to a raw device. *)
Definition hw_name (card_index device_index : Z) : string :=
  ("hw:" ++ sprintf_d card_index ++ "," ++ sprintf_d device_index)%string.

(** Probing the device of this name and purpose meets no channel-map
    array that holds only its terminator. *)
Definition probe_safe (env : PassAnswers) (nm : string)
    (p : SoundIoDevicePurpose) : Prop :=
  query_chmaps (pcm_answers env nm p) <> Some [].

(** A script of the raw scan without failing calls and without empty
    channel-map arrays. *)
Fixpoint pcms_clean (env : PassAnswers) (card_index : Z) (script : PcmNext) : Prop :=
  match script with
  | PcmNextFails => False
  | PcmNextEnd => True
  | PcmNextDevice device_index streams rest =>
      device_index < 0
      \/ ((forall stream,
             match pcm_info (streams stream) with
             | PcmInfoFails => False
             | PcmInfoENOENT => True
             | PcmInfoOk _ =>
                 chmaps_from_hw (streams stream) <> Some []
                 /\ probe_safe env (hw_name card_index device_index)
                      (stream_purpose stream)
             end)
          /\ pcms_clean env card_index rest)
  end.

Fixpoint cards_clean (env : PassAnswers) (script : CardNext) : Prop :=
  match script with
  | CardNextFails => False
  | CardNextEnd => True
  | CardNextCard card_index ctl_open card_info pcms rest =>
      card_index < 0
      \/ ctl_open = CtlOpenENOENT
      \/ (ctl_open = CtlOpenOk /\ card_info <> None
          /\ pcms_clean env card_index pcms /\ cards_clean env rest)
  end.

(** Every PCM call of [probe_device] succeeds. *)
Definition all_pcm_calls_succeed (pcm : PcmAnswers) : Prop :=
  pcm_open_ok pcm = true
  /\ hw_params_any_ok pcm = true
  /\ set_rate_resample_ok pcm = true
  /\ set_access_ok pcm = true
  /\ set_channels_last_ok pcm = true
  /\ get_rate_max pcm <> None
  /\ get_rate_min pcm <> None.

(** Two devices that differ at most in channel layout and rate fields. *)
Definition same_identity (device device' : SoundIoDevice) : Prop :=
  name device' = name device
  /\ description device' = description device
  /\ purpose device' = purpose device
  /\ is_raw device' = is_raw device
  /\ ref_count device' = ref_count device.

(** A raw descriptor bears a name of the form "hw:<card>,<device>". *)
Definition raw_named (device : SoundIoDevice) : Prop :=
  is_raw device = true ->
  exists card_index device_index, name device = hw_name card_index device_index.

(** A logical descriptor that bears the NAME of a hint of the list that
    the hint loop does not skip. *)
Definition from_hint (hints : list Hint) (device : SoundIoDevice) : Prop :=
  is_raw device = false
  /\ exists hint, In hint hints /\ excluded_name (hint_NAME hint) = false
                  /\ name device = hint_NAME hint.

(** The default index of a list is the given initial value, or the
    position of a descriptor of the list whose name starts with
    "default:". *)
Definition default_index_sound (initial : Z) (index : Z)
    (devices : list SoundIoDevice) : Prop :=
  index = initial
  \/ (0 <= index
      /\ exists device rest,
           nth_error devices (Z.to_nat index) = Some device
           /\ name device = ("default:" ++ rest)%string).

(** A computation that returns only error codes in [P]. *)
Definition returns_only {A : Type} (P : SoundIoError -> Prop) (m : M A) : Prop :=
  forall w, match m w with Return code _ => P code | _ => True end.

(** The slot is filled only once the flag is set. *)
Definition slot_implies_flag (w : World) : Prop :=
  ready_devices_info w <> None -> have_devices_flag w = true.

(** Each list holds descriptors of its own purpose only, and the raw
    ones among them are named like raw devices. *)
Definition lists_match_purpose (info : SoundIoDevicesInfo) : Prop :=
  Forall (fun device => purpose device = SoundIoDevicePurposeOutput
                        /\ raw_named device) (output_devices info)
  /\ Forall (fun device => purpose device = SoundIoDevicePurposeInput
                           /\ raw_named device) (input_devices info).

(** [snd_ctl_open] fails, with an error other than [ENOENT], on a card
    of the script. *)
Fixpoint some_ctl_open_fails (script : CardNext) : Prop :=
  match script with
  | CardNextFails => False
  | CardNextEnd => False
  | CardNextCard _ ctl_open _ _ rest =>
      ctl_open = CtlOpenFails \/ some_ctl_open_fails rest
  end.

(** [snd_ctl_pcm_next_device] fails on the card, or [snd_ctl_pcm_info]
    fails, with an error other than [ENOENT], for a stream direction of
    a device of the card that the loop over the devices reaches. *)
Fixpoint some_pcm_call_fails (script : PcmNext) : Prop :=
  match script with
  | PcmNextFails => True
  | PcmNextEnd => False
  | PcmNextDevice device_index streams rest =>
      0 <= device_index
      /\ ((exists stream, pcm_info (streams stream) = PcmInfoFails)
          \/ some_pcm_call_fails rest)
  end.

(** A call of the raw scan other than [snd_ctl_open] fails on a card
    the scan reaches: [snd_card_next], [snd_ctl_card_info],
    [snd_ctl_pcm_next_device] or [snd_ctl_pcm_info]. *)
Fixpoint some_card_call_fails (script : CardNext) : Prop :=
  match script with
  | CardNextFails => True
  | CardNextEnd => False
  | CardNextCard card_index ctl_open card_info pcms rest =>
      0 <= card_index /\ ctl_open = CtlOpenOk
      /\ (card_info = None \/ some_pcm_call_fails pcms
          \/ some_card_call_fails rest)
  end.

(** The error codes of a pass and what must have happened for each;
    no cause lies in the answers of a probe. *)
Definition pass_error_cause (env : PassAnswers) (code : SoundIoError) : Prop :=
  (code = SoundIoErrorNoMem
   /\ ((exists n, alloc_ok env n = false) \/ name_hints env = None))
  \/ (code = SoundIoErrorSystemResources /\ some_card_call_fails (cards env))
  \/ (code = SoundIoErrorOpeningDevice /\ some_ctl_open_fails (cards env)).

(** Every call of the set-up succeeds. *)
Definition all_init_calls_succeed (answers : InitAnswers) : Prop :=
  create_ok answers = true
  /\ mutex_ok answers = true
  /\ cond_ok answers = true
  /\ inotify_init1_fd answers <> -1
  /\ inotify_add_watch_wd answers <> -1
  /\ pipe2_result answers = 0
  /\ thread_create_err answers = SoundIoErrorNone.

(** Every call of the set-up up to the wake-up write succeeds. *)
Definition calls_before_wakeup_succeed (answers : InitAnswers) : Prop :=
  create_ok answers = true
  /\ mutex_ok answers = true
  /\ cond_ok answers = true
  /\ inotify_init1_fd answers <> -1
  /\ inotify_add_watch_wd answers <> -1
  /\ pipe2_result answers = 0.

(** The [write] into the wake pipe trips none of the assertions of
    [wakeup_device_poll]. *)
Definition write_accepted (result : WriteResult) : Prop :=
  match result with
  | WriteFails (Errno_EBADF | Errno_EIO | Errno_ENOSPC | Errno_EPERM | Errno_EPIPE) =>
      False
  | _ => True
  end.

(** Bytes a [write] adds to the wake pipe. *)
Definition bytes_written (result : WriteResult) : Z :=
  match result with
  | Written amt => amt
  | WriteFails _ => 0
  end.

(** [create<SoundIoAlsa>] leaves the three pointers null. *)
Definition created_alsa_is_blank : Prop :=
  mutex created_alsa = false /\ cond created_alsa = false
  /\ thread created_alsa = false.

(** [text] is the DESC string of the hint with its first newline
    replaced by ": ", or the DESC string itself when it holds no
    newline. *)
Definition joined_description (hint : Hint) (text : string) : Prop :=
  exists desc,
    hint_DESC hint = Some desc
    /\ ((~ In "010"%char (list_ascii_of_string desc) /\ text = desc)
        \/ exists head tail,
             desc = (head ++ String "010"%char tail)%string
             /\ ~ In "010"%char (list_ascii_of_string head)
             /\ text = (head ++ ": " ++ tail)%string).

(** The IOID of the hint allows a descriptor of purpose [p]: it is
    absent or names that direction, and for the capture direction the
    secondary description text does not mention an output. *)
Definition direction_of_hint (hint : Hint) (p : SoundIoDevicePurpose) : Prop :=
  match p with
  | SoundIoDevicePurposeOutput =>
      hint_IOID hint = None \/ hint_IOID hint = Some "Output"
  | SoundIoDevicePurposeInput =>
      (hint_IOID hint = None \/ hint_IOID hint = Some "Input")
      /\ mentions_output (secondary_text hint) = false
  end.

(** A logical descriptor as the hint loop writes it for [hint]. *)
Definition written_for_hint (hint : Hint) (device : SoundIoDevice) : Prop :=
  name device = hint_NAME hint
  /\ is_raw device = false
  /\ ref_count device = 1
  /\ joined_description hint (description device)
  /\ direction_of_hint hint (purpose device).

(** A logical descriptor written for a hint of the list that the hint
    loop does not skip. *)
Definition described_by_hint (hints : list Hint) (device : SoundIoDevice) : Prop :=
  exists hint,
    In hint hints /\ excluded_name (hint_NAME hint) = false
    /\ written_for_hint hint device.

(** ** Sample answers *)

(** A PCM device on which every call succeeds and which reports rates
    from 44100 to 96000 and no channel map. *)
Definition sample_pcm : PcmAnswers :=
  {| pcm_open_ok := true; hw_params_any_ok := true;
     set_rate_resample_ok := true; set_access_ok := true;
     set_channels_last_ok := true;
     get_rate_max := Some (96000, 0); get_rate_min := Some (44100, 0);
     get_chmap := None; query_chmaps := None |}.

(** Answers of a pass in which no allocation fails and every device
    probes like [sample_pcm]. *)
Definition sample_answers (hints : option (list Hint)) (script : CardNext)
    : PassAnswers :=
  {| alloc_ok := fun _ => true;
     name_hints := hints;
     pcm_answers := fun _ _ => sample_pcm;
     cards := script |}.

(** The state right after [soundio_alsa_init]. *)
Definition sample_world : World :=
  {| ready_devices_info := None; have_devices_flag := false;
     abort_flag := true; safe_devices_info := None;
     cond_signals := 0; on_devices_change_calls := 0;
     live_devices_info := 0; allocations := 0;
     refresh_devices_calls := 0 |}.

Definition sample_blank_device : SoundIoDevice :=
  {| name := ""; description := ""; purpose := SoundIoDevicePurposeInput;
     is_raw := false; ref_count := 0;
     channel_layout := {| layout_name := None; channel_count := 0; channels := [] |};
     sample_rate_min := 0; sample_rate_max := 0; sample_rate_default := 0 |}.

(** Three channel-map candidates: stereo, then two with four
    channels. *)
Definition sample_maps : list snd_pcm_chmap_t :=
  [ {| chmap_channels := 2; chmap_pos := [3; 4] |};
    {| chmap_channels := 4; chmap_pos := [3; 4; 5; 6] |};
    {| chmap_channels := 4; chmap_pos := [3; 4; 9; 10] |} ].

(** The hints of the "default:CARD" scenario, the first once without
    and once with a secondary description line that names an output. *)
Definition default_card_hint : Hint :=
  {| hint_NAME := "default:CARD"; hint_DESC := Some "Default Audio Device";
     hint_IOID := None |}.

Definition default_card_output_hint : Hint :=
  {| hint_NAME := "default:CARD";
     hint_DESC := Some (String.append "Default Audio Device"
                          (String "010" "Default Output Device"));
     hint_IOID := None |}.

Definition null_hint : Hint :=
  {| hint_NAME := "null";
     hint_DESC :=
       Some "Discard all samples (playback) or generate zero samples (capture)";
     hint_IOID := None |}.

Definition sysdefault_card_hint : Hint :=
  {| hint_NAME := "sysdefault:CARD"; hint_DESC := Some "Default Audio Device";
     hint_IOID := None |}.

(** Hints whose secondary description line names an output, in the
    spelling the pass looks for and in capitals. *)
Definition digital_output_hint : Hint :=
  {| hint_NAME := "iec958:CARD";
     hint_DESC :=
       Some (String.append "HDA Intel PCH" (String "010" "Digital Output"));
     hint_IOID := None |}.

Definition capitals_output_hint : Hint :=
  {| hint_NAME := "iec958:CARD";
     hint_DESC :=
       Some (String.append "HDA Intel PCH" (String "010" "DIGITAL OUTPUT"));
     hint_IOID := None |}.

(** Hints with an IOID that is neither "Input" nor "Output". *)
Definition duplex_hint : Hint :=
  {| hint_NAME := "plughw:CARD"; hint_DESC := Some "HDA Intel PCH";
     hint_IOID := Some "Duplex" |}.

Definition duplex_null_hint : Hint :=
  {| hint_NAME := "null"; hint_DESC := Some "Discard all samples";
     hint_IOID := Some "Duplex" |}.

(** The same on a hint for which the registry holds no DESC. *)
Definition duplex_bare_hint : Hint :=
  {| hint_NAME := "plughw:CARD"; hint_DESC := None;
     hint_IOID := Some "Duplex" |}.

(** One card with one PCM device that supports playback only. *)
Definition playback_only_card : CardNext :=
  CardNextCard 0 CtlOpenOk (Some "HDA Intel PCH")
    (PcmNextDevice 0
       (fun stream =>
          match stream with
          | SND_PCM_STREAM_PLAYBACK =>
              {| pcm_info := PcmInfoOk "ALC892 Analog"; chmaps_from_hw := None |}
          | SND_PCM_STREAM_CAPTURE =>
              {| pcm_info := PcmInfoENOENT; chmaps_from_hw := None |}
          end)
       PcmNextEnd)
    CardNextEnd.

(** Notification records: two device nodes appearing, and a control
    node and a directory that do not count. *)
Definition pcm_created (nm : string) : inotify_event :=
  {| mask := IN_CREATE; len := 16; event_name := nm |}.

Definition control_created : inotify_event :=
  {| mask := IN_CREATE; len := 16; event_name := "controlC1" |}.

Definition directory_created : inotify_event :=
  {| mask := Z.lor IN_CREATE IN_ISDIR; len := 16; event_name := "pcmdir" |}.

(** A return of [poll] with the notification descriptor readable, the
    wake pipe silent and the given buffers to read. *)
Definition notify_wake (reads : list (list inotify_event)) : Wake :=
  {| poll_num := 1; poll_errno := EINTR;
     notify_revents := POLLIN; pipe_revents := 0;
     notify_reads := reads;
     pass_answers := sample_answers (Some []) CardNextEnd |}.

(** A device with a channel array of four entries. *)
Definition sample_array_device : SoundIoDevice :=
  {| name := "hw:0,0"; description := "HDA Intel PCH ALC892 Analog";
     purpose := SoundIoDevicePurposeOutput; is_raw := true; ref_count := 1;
     channel_layout :=
       {| layout_name := None; channel_count := 0;
          channels := [SoundIoChannelIdInvalid; SoundIoChannelIdInvalid;
                       SoundIoChannelIdInvalid; SoundIoChannelIdInvalid] |};
     sample_rate_min := 0; sample_rate_max := 0; sample_rate_default := 0 |}.

(** A context before [soundio_alsa_init], what [create<SoundIoAlsa>]
    gives when it fills with zeros, and answers of a set-up in which
    every call succeeds, or all but the creation of the condition
    variable. *)
Definition sample_backend : Backend :=
  {| backend_data := None; dispatch_installed := false;
     world := sample_world; os_mutexes := 0; os_conds := 0; os_threads := 0;
     closed_fds := []; pipe_written := 0 |}.

Definition blank_alsa : SoundIoAlsa :=
  {| mutex := false; cond := false; thread := false;
     notify_fd := 0; notify_wd := 0; notify_pipe_fd := (0, 0) |}.

Definition sample_init_answers (cond_created : bool) : InitAnswers :=
  {| create_ok := true; mutex_ok := true; cond_ok := cond_created;
     inotify_init1_fd := 3; inotify_init1_errno := Errno_ENOMEM;
     inotify_add_watch_wd := 1; inotify_add_watch_errno := Errno_ENOMEM;
     pipe2_result := 0; pipe2_errno := Errno_EMFILE; pipe2_fds := (4, 5);
     wakeup_write := Written 1;
     thread_create_err := SoundIoErrorNone;
     teardown_write := Written 1 |}.

(** ** Case-insensitive containment

    Follows the spec's words ("contains the word output,
    case-insensitive") rather than the source, for comparison with
    [mentions_output]. *)
Definition spec_lower_ascii (c : ascii) : ascii :=
  let n := N_of_ascii c in
  if ((65 <=? n) && (n <=? 90))%N then ascii_of_N (n + 32) else c.

Fixpoint spec_lower (s : string) : string :=
  match s with
  | EmptyString => EmptyString
  | String c rest => String (spec_lower_ascii c) (spec_lower rest)
  end.

Definition spec_contains_any_case (detail word : string) : bool :=
  strstr (spec_lower detail) (spec_lower word).

(** ** Properties of the string helpers *)

(** Forgets the parameters of the section that the goal does not
    mention, so that decision procedures do not pick them up. *)
Ltac forget_parameters :=
  try clear created_default_input_index;
  try clear created_default_output_index;
  try clear created_device;
  try clear rate_field;
  try clear soundio_channel_layout_detect_builtin;
  try clear SOUNDIO_MAX_CHANNELS.

Lemma str_has_prefix_iff (s p : string) :
  str_has_prefix s p = true <-> exists rest, s = (p ++ rest)%string.
Proof.
  revert s; induction p as [|c p IH]; intros s; simpl.
  - split; [intros _; now exists s | reflexivity].
  - destruct s as [|d s].
    + split; [discriminate | intros [rest H]; discriminate].
    + rewrite andb_true_iff, Ascii.eqb_eq, IH. split.
      * intros [-> [rest ->]]. now exists rest.
      * intros [rest H]. inversion H. split; [reflexivity | now exists rest].
Qed.

Lemma strstr_iff (haystack needle : string) :
  strstr haystack needle = true
  <-> exists before rest, haystack = (before ++ needle ++ rest)%string.
Proof.
  induction haystack as [|c h IH]; simpl strstr; rewrite orb_true_iff, str_has_prefix_iff.
  - split.
    + intros [[rest H]|H]; [|discriminate]. now exists EmptyString, rest.
    + intros [before [rest H]]. left. destruct before; [now exists rest|discriminate].
  - rewrite IH. split.
    + intros [[rest H]|[before [rest H]]].
      * now exists EmptyString, rest.
      * exists (String c before), rest. simpl. now rewrite H.
    + intros [before [rest H]]. destruct before as [|b before]; simpl in H.
      * left. now exists rest.
      * right. inversion H. now exists before, rest.
Qed.

(** ** Channel maps *)

Lemma best_chmap_from_some (maps : list snd_pcm_chmap_t) :
  forall b, exists best,
    best_chmap_from (Some b) maps = Some best
    /\ chmap_channels b <= chmap_channels best
    /\ (forall v, In v maps -> chmap_channels v <= chmap_channels best)
    /\ (best = b
        \/ exists i, nth_error maps i = Some best
             /\ chmap_channels b < chmap_channels best
             /\ forall j v, (j < i)%nat -> nth_error maps j = Some v ->
                  chmap_channels v < chmap_channels best).
Proof.
  induction maps as [|v rest IH]; intros b; simpl.
  - exists b. repeat split; [lia | contradiction | now left].
  - destruct (Z.ltb_spec (chmap_channels b) (chmap_channels v)) as [Hlt|Hge].
    + destruct (IH v) as (best & Hbest & Hle & Hall & Hfirst).
      exists best. split; [exact Hbest|]. split; [lia|]. split.
      * intros u [<-|Hu]; [exact Hle | now apply Hall].
      * right. destruct Hfirst as [->|(i & Hi & Hlt' & Hbefore)].
        -- exists 0%nat. repeat split; [exact Hlt | intros j u Hj; lia].
        -- exists (S i). split; [exact Hi|]. split; [lia|].
           intros [|j] u Hj Hu; simpl in Hu.
           ++ inversion Hu; subst. exact Hlt'.
           ++ apply (Hbefore j); [lia | exact Hu].
    + destruct (IH b) as (best & Hbest & Hle & Hall & Hfirst).
      exists best. split; [exact Hbest|]. split; [exact Hle|]. split.
      * intros u [<-|Hu]; [lia | now apply Hall].
      * destruct Hfirst as [->|(i & Hi & Hlt' & Hbefore)]; [now left|].
        right. exists (S i). split; [exact Hi|]. split; [exact Hlt'|].
        intros [|j] u Hj Hu; simpl in Hu.
        -- inversion Hu; subst. lia.
        -- apply (Hbefore j); [lia | exact Hu].
Qed.

(** C9.  A channel layout derived from a non-empty list of channel-map
    candidates is the layout of the candidate with the greatest channel
    count; among several candidates with that count the one seen first
    is taken. *)
Theorem handle_channel_maps_richest_first_seen
    (device : SoundIoDevice) (maps : list snd_pcm_chmap_t)
    (Hmaps : maps <> []) :
  exists i best,
    nth_error maps i = Some best
    /\ handle_channel_maps device (Some maps)
       = Some (get_channel_layout device best)
    /\ (forall v, In v maps -> chmap_channels v <= chmap_channels best)
    /\ (forall j v, (j < i)%nat -> nth_error maps j = Some v ->
          chmap_channels v < chmap_channels best).
Proof.
  destruct maps as [|v rest]; [contradiction|].
  unfold handle_channel_maps, best_chmap. simpl.
  destruct (best_chmap_from_some rest v) as (best & Hbest & Hle & Hall & Hfirst).
  rewrite Hbest.
  destruct Hfirst as [->|(i & Hi & Hlt & Hbefore)].
  - exists 0%nat, v. repeat split.
    + intros u [<-|Hu]; [lia | now apply Hall].
    + intros j u Hj; lia.
  - exists (S i), best. split; [exact Hi|]. split; [reflexivity|]. split.
    + intros u [<-|Hu]; [lia | now apply Hall].
    + intros [|j] u Hj Hu; simpl in Hu.
      * inversion Hu; subst. exact Hlt.
      * apply (Hbefore j); [lia | exact Hu].
Qed.

(** ** The capability probe *)

(** The channel-map helpers write the channel layout only. *)
Lemma handle_channel_maps_keeps (device device' : SoundIoDevice)
    (maps : option (list snd_pcm_chmap_t))
    (H : handle_channel_maps device maps = Some device') :
  name device' = name device /\ is_raw device' = is_raw device
  /\ purpose device' = purpose device
  /\ sample_rate_max device' = sample_rate_max device.
Proof.
  unfold handle_channel_maps in H. destruct maps as [candidates|].
  - destruct (best_chmap candidates); inversion H; subst. now cbn.
  - inversion H; subst. now repeat split.
Qed.

(** What a probe that returns 0 has written into the rate fields:
    [sample_rate_min] holds the adjusted maximum, [sample_rate_max]
    is as it was before the call. *)
Lemma probe_device_success_rates
    (pcm : PcmAnswers) (device device' : SoundIoDevice)
    (maps : option (list snd_pcm_chmap_t))
    (Hok : probe_device pcm device maps = ProbeRet SoundIoErrorNone device') :
  exists queried_max max_dir queried_min min_dir,
    get_rate_max pcm = Some (queried_max, max_dir)
    /\ get_rate_min pcm = Some (queried_min, min_dir)
    /\ let max_sample_rate :=
         if max_dir <? 0 then uint (uint queried_max - 1) else uint queried_max in
       let min_sample_rate :=
         if 0 <? min_dir then uint (uint queried_min + 1) else uint queried_min in
       sample_rate_min device' = rate_field max_sample_rate
       /\ sample_rate_max device' = sample_rate_max device
       /\ sample_rate_default device'
          = rate_field
              (if (min_sample_rate <=? MAX_SAMPLE_RATE)
                  && (MAX_SAMPLE_RATE <=? max_sample_rate)
               then MAX_SAMPLE_RATE else max_sample_rate).
Proof.
  unfold probe_device in Hok.
  destruct (pcm_open_ok pcm); simpl in Hok;
    [|destruct (handle_channel_maps device maps); discriminate].
  destruct (hw_params_any_ok pcm); simpl in Hok; [|discriminate].
  destruct (set_rate_resample_ok pcm); simpl in Hok; [|discriminate].
  destruct (set_access_ok pcm); simpl in Hok; [|discriminate].
  destruct (set_channels_last_ok pcm); simpl in Hok; [|discriminate].
  destruct (get_rate_max pcm) as [[queried_max max_dir]|]; [|discriminate].
  destruct (get_rate_min pcm) as [[queried_min min_dir]|]; [|discriminate].
  exists queried_max, max_dir, queried_min, min_dir.
  split; [reflexivity|]. split; [reflexivity|].
  destruct (handle_channel_maps _ _) as [device2|] eqn:Hmaps; [|discriminate].
  inversion Hok; subst device'. simpl.
  repeat split.
  apply handle_channel_maps_keeps in Hmaps. destruct Hmaps as (_ & _ & _ & ->).
  destruct (get_chmap pcm); reflexivity.
Qed.

(** ** The enumeration pass: what each piece preserves *)

Lemma same_shared_refl (w : World) : same_shared w w.
Proof. unfold same_shared; repeat split. Qed.

Lemma same_shared_trans (w1 w2 w3 : World) :
  same_shared w1 w2 -> same_shared w2 w3 -> same_shared w1 w3.
Proof.
  unfold same_shared. intros (a1 & a2 & a3 & a4 & a5 & a6 & a7)
    (b1 & b2 & b3 & b4 & b5 & b6 & b7).
  repeat split; congruence.
Qed.

Lemma pass_step_ret {A : Type} (Q : A -> Prop) (a : A) :
  Q a -> pass_step Q (ret a).
Proof.
  intros Ha w. cbn. split; [apply same_shared_refl|]. split; [reflexivity|exact Ha].
Qed.

Lemma pass_step_bind {A B : Type} (P : A -> Prop) (Q : B -> Prop)
    (m : M A) (f : A -> M B) :
  pass_step P m -> (forall a, P a -> pass_step Q (f a)) -> pass_step Q (bind m f).
Proof.
  intros Hm Hf w. unfold bind. specialize (Hm w).
  destruct (m w) as [a w1|code w1|cause w1]; [|exact Hm|exact Hm].
  destruct Hm as (Hs & Hl & Ha). specialize (Hf a Ha w1).
  destruct (f a w1) as [b w2|code w2|cause w2].
  - destruct Hf as (Hs2 & Hl2 & Hb).
    split; [eapply same_shared_trans; eassumption|]. split; [congruence|exact Hb].
  - destruct Hf as (Hs2 & Hl2).
    split; [eapply same_shared_trans; eassumption|congruence].
  - eapply same_shared_trans; eassumption.
Qed.

Lemma pass_step_allocate (env : PassAnswers) :
  pass_step (fun _ => True) (allocate env).
Proof.
  intros w. cbn. split; [unfold same_shared; cbn; repeat split|]. now split.
Qed.

Lemma pass_step_fail_pass {A : Type} (Q : A -> Prop) (code : SoundIoError) :
  pass_step Q (@fail_pass A code).
Proof.
  intros w. cbn. split; [unfold same_shared; cbn; repeat split|reflexivity].
Qed.

Lemma pass_step_die {A : Type} (Q : A -> Prop) (cause : Death) :
  pass_step Q (@die A cause).
Proof. intros w. cbn. apply same_shared_refl. Qed.

Lemma pass_step_for_each {A S : Type} (I : S -> Prop) (body : A -> S -> M S)
    (l : list A) :
  (forall x s, In x l -> I s -> pass_step I (body x s)) ->
  forall s, I s -> pass_step I (for_each body l s).
Proof.
  induction l as [|x rest IH]; intros Hbody s Hs; simpl.
  - now apply pass_step_ret.
  - apply pass_step_bind with (P := I).
    + apply Hbody; [now left|exact Hs].
    + intros s' Hs'. apply IH; [|exact Hs'].
      intros y t Hy. apply Hbody. now right.
Qed.

Lemma get_channel_layout_keeps (device : SoundIoDevice) (chmap : snd_pcm_chmap_t) :
  name (get_channel_layout device chmap) = name device
  /\ is_raw (get_channel_layout device chmap) = is_raw device
  /\ purpose (get_channel_layout device chmap) = purpose device
  /\ sample_rate_max (get_channel_layout device chmap) = sample_rate_max device.
Proof. now cbn. Qed.

Lemma probe_device_keeps (pcm : PcmAnswers) (device device' : SoundIoDevice)
    (maps : option (list snd_pcm_chmap_t)) (err : SoundIoError)
    (H : probe_device pcm device maps = ProbeRet err device') :
  name device' = name device /\ is_raw device' = is_raw device
  /\ purpose device' = purpose device.
Proof.
  unfold probe_device in H.
  destruct (pcm_open_ok pcm); simpl in H.
  2:{ destruct (handle_channel_maps device maps) eqn:Hm; inversion H; subst.
      apply handle_channel_maps_keeps in Hm. tauto. }
  destruct (hw_params_any_ok pcm); simpl in H; [|inversion H; subst; tauto].
  destruct (set_rate_resample_ok pcm); simpl in H; [|inversion H; subst; tauto].
  destruct (set_access_ok pcm); simpl in H; [|inversion H; subst; tauto].
  destruct (set_channels_last_ok pcm); simpl in H; [|inversion H; subst; tauto].
  destruct (get_rate_max pcm) as [[queried_max max_dir]|]; [|inversion H; subst; tauto].
  destruct (get_rate_min pcm) as [[queried_min min_dir]|]; [|inversion H; subst; tauto].
  destruct (handle_channel_maps _ _) as [device2|] eqn:Hm; [|discriminate].
  inversion H; subst device'. cbn.
  apply handle_channel_maps_keeps in Hm. destruct Hm as (-> & -> & -> & _).
  destruct (get_chmap pcm); now cbn.
Qed.

Lemma pass_step_probe (env : PassAnswers) (device : SoundIoDevice)
    (maps : option (list snd_pcm_chmap_t)) :
  pass_step (fun device' => name device' = name device
                            /\ is_raw device' = is_raw device
                            /\ purpose device' = purpose device)
    (probe env device maps).
Proof.
  unfold probe.
  destruct (probe_device _ device maps) as [err device'|] eqn:H.
  - apply pass_step_ret. eapply probe_device_keeps; eassumption.
  - apply pass_step_die.
Qed.

Lemma pass_step_weaken {A : Type} (P Q : A -> Prop) (m : M A) :
  (forall a, P a -> Q a) -> pass_step P m -> pass_step Q m.
Proof.
  intros HPQ Hm w. specialize (Hm w).
  destruct (m w); [|exact Hm|exact Hm]. destruct Hm as (Hs & Hl & Ha).
  split; [exact Hs|]. split; [exact Hl|]. now apply HPQ.
Qed.

(** What one turn of the stream loop of a hint does to the snapshot
    when it runs on: nothing if one of the three tests skips the
    stream, else one logical descriptor of the hint's name is appended
    to the list of the stream, after the default index was marked. *)
Lemma hint_stream_result (env : PassAnswers) (nm descr : string)
    (descr1 : option string) (is_playback is_capture : bool)
    (stream : snd_pcm_stream_t) (info : SoundIoDevicesInfo) :
  pass_step
    (fun info' =>
       if hint_stream_skips is_playback is_capture descr1 stream
       then info' = info
       else exists device,
              info' = append_device stream (mark_default nm stream info) device
              /\ name device = nm /\ is_raw device = false
              /\ purpose device = stream_purpose stream)
    (hint_stream env nm descr descr1 is_playback is_capture stream info).
Proof.
  unfold hint_stream, hint_stream_skips.
  destruct (negb (is_capture_stream stream) && negb is_playback);
    [now apply pass_step_ret|].
  destruct (is_capture_stream stream && negb is_capture);
    [now apply pass_step_ret|].
  destruct (is_capture_stream stream && mentions_output descr1);
    [now apply pass_step_ret|].
  cbn [orb].
  eapply pass_step_bind; [apply pass_step_allocate|]. intros [|] _; simpl;
    [|apply pass_step_fail_pass].
  eapply pass_step_bind; [apply pass_step_allocate|]. intros name_ok _.
  eapply pass_step_bind; [apply pass_step_allocate|]. intros descr_ok _.
  destruct (negb name_ok || negb descr_ok); [apply pass_step_fail_pass|].
  eapply pass_step_bind; [apply pass_step_probe|].
  intros device' (Hn & Hr & Hp).
  eapply pass_step_bind; [apply pass_step_allocate|]. intros [|] _; simpl;
    [|apply pass_step_fail_pass].
  cbn in Hn, Hr, Hp. apply pass_step_ret. now exists device'.
Qed.

Lemma publish_spec (info : SoundIoDevicesInfo) (w : World) :
  publish info w
  = Go tt
      {| ready_devices_info := Some info;
         have_devices_flag := true;
         abort_flag := abort_flag w;
         safe_devices_info := safe_devices_info w;
         cond_signals := S (cond_signals w);
         on_devices_change_calls := on_devices_change_calls w;
         live_devices_info :=
           match ready_devices_info w with
           | Some _ => Nat.pred (live_devices_info w)
           | None => live_devices_info w
           end;
         allocations := allocations w;
         refresh_devices_calls := refresh_devices_calls w |}.
Proof.
  unfold publish, bind. destruct (ready_devices_info w); reflexivity.
Qed.

Section PassInvariant.

(** A property of the snapshot under construction that survives
    every append the two scans can make. *)
Variable I : SoundIoDevicesInfo -> Prop.
Hypothesis I_hint : forall nm stream info device,
  I info -> excluded_name nm = false -> name device = nm ->
  is_raw device = false -> purpose device = stream_purpose stream ->
  I (append_device stream (mark_default nm stream info) device).
Hypothesis I_raw : forall card_index device_index stream info device,
  I info ->
  name device = ("hw:" ++ sprintf_d card_index ++ "," ++ sprintf_d device_index)%string ->
  is_raw device = true -> purpose device = stream_purpose stream ->
  I (append_device stream info device).

Lemma hint_stream_step (env : PassAnswers) (nm descr : string)
    (descr1 : option string) (is_playback is_capture : bool)
    (stream : snd_pcm_stream_t) (info : SoundIoDevicesInfo) :
  excluded_name nm = false -> I info ->
  pass_step I (hint_stream env nm descr descr1 is_playback is_capture stream info).
Proof using Type I_hint.
  intros Hnm Hinfo.
  eapply pass_step_weaken; [|apply hint_stream_result].
  intros info'. cbn beta.
  destruct (hint_stream_skips is_playback is_capture descr1 stream).
  - now intros ->.
  - intros (device & -> & Hn & Hr & Hp). now apply I_hint.
Qed.

Lemma hint_body_step (env : PassAnswers) (hint : Hint) (info : SoundIoDevicesInfo) :
  I info -> pass_step I (hint_body env hint info).
Proof using Type I_hint.
  intros Hinfo. unfold hint_body.
  destruct (excluded_name (hint_NAME hint)) eqn:Hnm; [now apply pass_step_ret|].
  destruct (hint_DESC hint) as [desc|]; [|apply pass_step_die].
  destruct (str_partition_on_char desc _) as [descr descr1].
  destruct (hint_IOID hint) as [io|].
  - destruct (strcmp_eq io "Input");
      [apply pass_step_for_each; [intros; now apply hint_stream_step|exact Hinfo]|].
    destruct (strcmp_eq io "Output");
      [apply pass_step_for_each; [intros; now apply hint_stream_step|exact Hinfo]|].
    apply pass_step_die.
  - apply pass_step_for_each; [intros; now apply hint_stream_step|exact Hinfo].
Qed.

Lemma hint_loop_step (env : PassAnswers) (hints : list Hint)
    (info : SoundIoDevicesInfo) :
  I info -> pass_step I (hint_loop env hints info).
Proof using Type I_hint.
  intros Hinfo. unfold hint_loop.
  apply pass_step_for_each; [intros; now apply hint_body_step|exact Hinfo].
Qed.

Lemma raw_stream_step (env : PassAnswers) (card_index : Z) (card_name : string)
    (device_index : Z) (streams : snd_pcm_stream_t -> PcmStreamAnswers)
    (stream : snd_pcm_stream_t) (info : SoundIoDevicesInfo) :
  I info ->
  pass_step I (raw_stream env card_index card_name device_index streams stream info).
Proof using Type I_raw.
  intros Hinfo. unfold raw_stream.
  destruct (pcm_info (streams stream)) as [device_name| |];
    [|now apply pass_step_ret|apply pass_step_fail_pass].
  eapply pass_step_bind; [apply pass_step_allocate|]. intros [|] _; simpl;
    [|apply pass_step_fail_pass].
  eapply pass_step_bind; [apply pass_step_allocate|]. intros name_ok _.
  eapply pass_step_bind; [apply pass_step_allocate|]. intros descr_ok _.
  destruct (negb name_ok || negb descr_ok); [apply pass_step_fail_pass|].
  eapply pass_step_bind; [apply pass_step_probe|].
  intros device' (Hn & Hr & Hp).
  eapply pass_step_bind; [apply pass_step_allocate|]. intros [|] _; simpl;
    [|apply pass_step_fail_pass].
  cbn in Hn, Hr, Hp. apply pass_step_ret.
  now apply (I_raw card_index device_index).
Qed.

Lemma pcm_loop_step (env : PassAnswers) (card_index : Z) (card_name : string)
    (script : PcmNext) :
  forall info, I info -> pass_step I (pcm_loop env card_index card_name script info).
Proof using Type I_raw.
  induction script as [| |device_index streams rest IH]; intros info Hinfo;
    cbn [pcm_loop].
  - apply pass_step_fail_pass.
  - now apply pass_step_ret.
  - destruct (device_index <? 0); [now apply pass_step_ret|].
    refine (pass_step_bind I I _ _ _ IH).
    apply (pass_step_for_each I); [intros; now apply raw_stream_step|exact Hinfo].
Qed.

Lemma card_loop_step (env : PassAnswers) (script : CardNext) :
  forall info, I info -> pass_step I (card_loop env script info).
Proof using Type I_raw.
  induction script as [| |card_index ctl_open card_info pcms rest IH];
    intros info Hinfo; cbn [card_loop].
  - apply pass_step_fail_pass.
  - now apply pass_step_ret.
  - destruct (card_index <? 0); [now apply pass_step_ret|].
    destruct ctl_open;
      [|now apply pass_step_ret|apply pass_step_fail_pass].
    destruct card_info as [card_name|]; [|apply pass_step_fail_pass].
    refine (pass_step_bind I I _ _ _ IH).
    now apply pcm_loop_step.
Qed.

(** The world right after the entry into [refresh_devices] has been
    counted. *)
Let counted (w : World) : World :=
  with_refresh_devices_calls w (S (refresh_devices_calls w)).

(** Every way [refresh_devices] can end.  Returning 0, it has put
    its snapshot into the slot, set the flag and signalled once.
    Returning an error code or dying, it has left the shared fields
    as they were; its own snapshot has been destroyed on every
    returning path but one: the first [snd_card_next] failing. *)
Lemma refresh_devices_outcome (env : PassAnswers) (w : World) :
  I created_devices_info ->
  match refresh_devices env w with
  | Go _ w' =>
      exists info,
        ready_devices_info w' = Some info /\ I info
        /\ have_devices_flag w' = true
        /\ cond_signals w' = S (cond_signals w)
        /\ abort_flag w' = abort_flag w
        /\ safe_devices_info w' = safe_devices_info w
        /\ on_devices_change_calls w' = on_devices_change_calls w
        /\ refresh_devices_calls w' = S (refresh_devices_calls w)
        /\ live_devices_info w'
           = match ready_devices_info w with
             | Some _ => live_devices_info w
             | None => S (live_devices_info w)
             end
  | Return code w' =>
      same_shared (counted w) w'
      /\ (live_devices_info w' = live_devices_info w
          \/ (cards env = CardNextFails
              /\ (exists hints, name_hints env = Some hints)
              /\ code = SoundIoErrorSystemResources
              /\ live_devices_info w' = S (live_devices_info w)))
  | Dead _ w' => same_shared (counted w) w'
  end.
Proof using Type I_hint I_raw.
  intros Hcreated. unfold refresh_devices, begin_pass, bind at 1 2 3 4.
  cbn [modify allocate].
  destruct (alloc_ok env _) eqn:Halloc; cbn [negb].
  2:{ cbn. split; [unfold same_shared; cbn; repeat split|now left]. }
  cbn [modify ret].
  destruct (name_hints env) as [hints|] eqn:Hhints.
  2:{ cbn. split; [unfold same_shared; cbn; repeat split|now left]. }
  unfold bind at 1.
  match goal with
  | |- context [hint_loop env hints created_devices_info ?w2] =>
      pose proof (hint_loop_step env hints created_devices_info Hcreated w2) as Hloop;
      destruct (hint_loop env hints created_devices_info w2) as [info w3|code w3|cause w3]
  end.
  - destruct Hloop as (Hs & Hl & Hinfo). cbn in Hl.
    assert (Hscan : match card_loop env (cards env) info w3 with
                    | Go info' w4 =>
                        same_shared w3 w4
                        /\ live_devices_info w4 = live_devices_info w3 /\ I info'
                    | Return _ w4 =>
                        same_shared w3 w4
                        /\ live_devices_info w4 = Nat.pred (live_devices_info w3)
                    | Dead _ w4 => same_shared w3 w4
                    end) by (apply card_loop_step; exact Hinfo).
    unfold same_shared in Hs; cbn in Hs.
    destruct Hs as (s1 & s2 & s3 & s4 & s5 & s6 & s7).
    destruct (cards env) as [| |card_index ctl_open card_info pcms rest] eqn:Hcards.
    + cbn. split; [unfold same_shared; cbn; repeat split; assumption|].
      right. split; [reflexivity|]. split; [now exists hints|]. split; [reflexivity|exact Hl].
    + unfold bind. destruct (card_loop env CardNextEnd info w3) as [info' w4|code w4|cause w4].
      * destruct Hscan as ((t1 & t2 & t3 & t4 & t5 & t6 & t7) & Hl4 & Hinfo').
        rewrite publish_spec. exists info'. cbn. rewrite t1, s1, Hl4, Hl.
        destruct (ready_devices_info w); cbn;
          repeat split; try congruence; exact Hinfo'.
      * destruct Hscan as ((t1 & t2 & t3 & t4 & t5 & t6 & t7) & Hl4).
        split; [unfold same_shared; cbn; repeat split; congruence|].
        left. rewrite Hl4, Hl. reflexivity.
      * destruct Hscan as (t1 & t2 & t3 & t4 & t5 & t6 & t7).
        unfold same_shared; cbn; repeat split; congruence.
    + unfold bind.
      destruct (card_loop env (CardNextCard _ _ _ _ _) info w3) as [info' w4|code w4|cause w4].
      * destruct Hscan as ((t1 & t2 & t3 & t4 & t5 & t6 & t7) & Hl4 & Hinfo').
        rewrite publish_spec. exists info'. cbn. rewrite t1, s1, Hl4, Hl.
        destruct (ready_devices_info w); cbn;
          repeat split; try congruence; exact Hinfo'.
      * destruct Hscan as ((t1 & t2 & t3 & t4 & t5 & t6 & t7) & Hl4).
        split; [unfold same_shared; cbn; repeat split; congruence|].
        left. rewrite Hl4, Hl. reflexivity.
      * destruct Hscan as (t1 & t2 & t3 & t4 & t5 & t6 & t7).
        unfold same_shared; cbn; repeat split; congruence.
  - destruct Hloop as (Hs & Hl). cbn in Hl.
    split; [exact Hs|now left].
  - exact Hloop.
Qed.

End PassInvariant.

(** ** The enumeration pass: failure *)

(** A pass that does not return 0 leaves the slot, the flag and the
    condition variable untouched. *)
Lemma refresh_devices_failure_publishes_nothing (env : PassAnswers) (w : World) :
  match refresh_devices env w with
  | Go _ _ => True
  | Return _ w' | Dead _ w' =>
      ready_devices_info w' = ready_devices_info w
      /\ have_devices_flag w' = have_devices_flag w
      /\ cond_signals w' = cond_signals w
  end.
Proof.
  pose proof (refresh_devices_outcome (fun _ => True)
                (fun _ _ _ _ _ _ _ _ _ => Logic.I) (fun _ _ _ _ _ _ _ _ _ => Logic.I)
                env w Logic.I) as H.
  destruct (refresh_devices env w) as [u w'|code w'|cause w']; [exact Logic.I| |].
  - destruct H as ((h1 & h2 & _ & _ & h5 & _) & _). now cbn in *.
  - destruct H as (h1 & h2 & _ & _ & h5 & _). now cbn in *.
Qed.

(** A pass that returns an error code has destroyed its own snapshot,
    unless the code comes from the first [snd_card_next]. *)
Lemma refresh_devices_failure_destroys_snapshot (env : PassAnswers) (w w' : World)
    (code : SoundIoError) :
  refresh_devices env w = Return code w' ->
  cards env <> CardNextFails ->
  live_devices_info w' = live_devices_info w.
Proof.
  intros Hret Hcards.
  pose proof (refresh_devices_outcome (fun _ => True)
                (fun _ _ _ _ _ _ _ _ _ => Logic.I) (fun _ _ _ _ _ _ _ _ _ => Logic.I)
                env w Logic.I) as H.
  rewrite Hret in H. destruct H as (_ & [H|(H & _)]); [exact H|contradiction].
Qed.

(** C2, at the input where it fails.  With an empty hint registry and
    a first [snd_card_next] that fails, the pass returns
    [SoundIoErrorSystemResources]; the slot and the flag are as before,
    but the snapshot the pass had created is still allocated. *)
Theorem refresh_devices_first_card_next_failure (w : World) :
  exists w',
    refresh_devices (sample_answers (Some []) CardNextFails) w
    = Return SoundIoErrorSystemResources w'
    /\ ready_devices_info w' = ready_devices_info w
    /\ have_devices_flag w' = have_devices_flag w
    /\ live_devices_info w' = S (live_devices_info w).
Proof.
  eexists. split; [reflexivity|]. cbn. repeat split.
Qed.

(** ** The enumeration pass: names in the published snapshot *)

Lemma excluded_name_false_admissible (nm : string) :
  excluded_name nm = false -> admissible_name nm.
Proof.
  unfold excluded_name, admissible_name. intros H.
  repeat (apply orb_false_iff in H; destruct H as [H ?]).
  split.
  - intros ->. discriminate.
  - intros alias rest Halias ->.
    assert (Hp : str_has_prefix (alias ++ rest) alias = true)
      by (apply str_has_prefix_iff; now exists rest).
    simpl in Halias.
    repeat (destruct Halias as [<-|Halias]; [congruence|]).
    contradiction.
Qed.

Lemma hw_name_not_excluded (card_index device_index : Z) :
  excluded_name ("hw:" ++ sprintf_d card_index ++ "," ++ sprintf_d device_index)%string
  = false.
Proof. reflexivity. Qed.

Lemma devices_all_append (D : SoundIoDevice -> Prop) (stream : snd_pcm_stream_t)
    (info : SoundIoDevicesInfo) (device : SoundIoDevice) :
  devices_all D info -> D device -> devices_all D (append_device stream info device).
Proof.
  intros [Hout Hin] Hd. unfold devices_all.
  destruct stream; cbn; split; try assumption;
    apply Forall_app; split; try assumption; now constructor.
Qed.

Lemma devices_all_mark_default (D : SoundIoDevice -> Prop) (nm : string)
    (stream : snd_pcm_stream_t) (info : SoundIoDevicesInfo) :
  devices_all D info -> devices_all D (mark_default nm stream info).
Proof.
  unfold mark_default, devices_all.
  destruct stream, (str_has_prefix nm "default:"); now cbn.
Qed.

(** C4.  When a pass completes, the snapshot it has published holds,
    in neither list, a descriptor named "null" or a descriptor whose
    name starts with "sysdefault:", "front:" or one of the "surroundNN:"
    aliases. *)
Theorem published_snapshot_has_no_excluded_name
    (env : PassAnswers) (w w' : World)
    (Hpass : refresh_devices env w = Go tt w') :
  exists info,
    ready_devices_info w' = Some info
    /\ devices_all (fun device => admissible_name (name device)) info.
Proof.
  pose proof (refresh_devices_outcome
                (devices_all (fun device => excluded_name (name device) = false)))
    as H.
  specialize (H (fun nm stream info device Hi Hnm Hn _ _ =>
                   devices_all_append _ stream _ device
                     (devices_all_mark_default _ nm stream info Hi)
                     (eq_ind_r (fun n => excluded_name n = false) Hnm Hn))).
  specialize (H (fun c d stream info device Hi Hn _ _ =>
                   devices_all_append _ stream info device Hi
                     (eq_ind_r (fun n => excluded_name n = false)
                        (hw_name_not_excluded c d) Hn))).
  specialize (H env w). rewrite Hpass in H.
  destruct H as (info & Hready & (Hout & Hin) & _).
  - split; constructor.
  - exists info. split; [exact Hready|].
    split; eapply Forall_impl; try eassumption;
      intros device; apply excluded_name_false_admissible.
Qed.

(** ** The enumeration pass: one hint *)

Lemma pass_step_Go {A : Type} (Q : A -> Prop) (m : M A) (w w' : World) (a : A) :
  pass_step Q m -> m w = Go a w' -> Q a.
Proof. forget_parameters. intros Hm Hgo. specialize (Hm w). rewrite Hgo in Hm. tauto. Qed.

Lemma for_each_app {A S : Type} (body : A -> S -> M S) (l1 l2 : list A) (s : S) :
  forall w, for_each body (l1 ++ l2) s w = bind (for_each body l1 s) (for_each body l2) w.
Proof.
  revert s. induction l1 as [|x l1 IH]; intros s w; simpl.
  - reflexivity.
  - unfold bind in *. destruct (body x s w) as [s' w1|code w1|cause w1];
      [apply IH|reflexivity|reflexivity].
Qed.

(** The two turns of the stream loop of a hint. *)
Lemma hint_streams_Go (env : PassAnswers) (nm descr : string)
    (descr1 : option string) (is_playback is_capture : bool)
    (info info' : SoundIoDevicesInfo) (w w' : World) :
  for_each (hint_stream env nm descr descr1 is_playback is_capture)
    stream_types info w = Go info' w' ->
  exists info1 w1,
    hint_stream env nm descr descr1 is_playback is_capture
      SND_PCM_STREAM_PLAYBACK info w = Go info1 w1
    /\ hint_stream env nm descr descr1 is_playback is_capture
         SND_PCM_STREAM_CAPTURE info1 w1 = Go info' w'.
Proof.
  unfold stream_types. cbn [for_each]. unfold bind at 1.
  destruct (hint_stream _ _ _ _ _ _ SND_PCM_STREAM_PLAYBACK info w)
    as [info1 w1|code w1|cause w1]; [|discriminate|discriminate].
  unfold bind. intros H. exists info1, w1. split; [reflexivity|].
  destruct (hint_stream _ _ _ _ _ _ SND_PCM_STREAM_CAPTURE info1 w1)
    as [info2 w2|code w2|cause w2]; [|discriminate|discriminate].
  exact H.
Qed.

Lemma mentions_output_iff (descr1 : option string) :
  mentions_output descr1 = true
  <-> exists detail, descr1 = Some detail /\ names_output detail.
Proof.
  unfold mentions_output, names_output. destruct descr1 as [d|].
  - rewrite orb_true_iff, !strstr_iff. split.
    + intros H. now exists d.
    + intros (detail & Hd & H). now inversion Hd; subst.
  - split; [discriminate|]. intros (detail & Hd & _). discriminate.
Qed.

Lemma excluded_name_false_iff (nm : string) :
  excluded_name nm = false <-> admissible_name nm.
Proof. forget_parameters.
  split; [apply excluded_name_false_admissible|].
  intros [Hnull Halias]. unfold excluded_name.
  assert (Hp : forall alias, In alias excluded_aliases ->
                 str_has_prefix nm alias = false).
  { intros alias Hin. destruct (str_has_prefix nm alias) eqn:E; [|reflexivity].
    apply str_has_prefix_iff in E. destruct E as [rest ->].
    now destruct (Halias alias rest Hin). }
  assert (Hn : strcmp_eq nm "null" = false).
  { unfold strcmp_eq. destruct (String.eqb_spec nm "null"); [contradiction|reflexivity]. }
  rewrite Hn. simpl in Hp. rewrite !Hp by tauto. reflexivity.
Qed.

(** What the body of the hint loop does for a hint it does not
    skip: the descriptors it appends, stream by stream. *)
Lemma hint_body_Go (env : PassAnswers) (hint : Hint)
    (info info' : SoundIoDevicesInfo) (w w' : World) :
  excluded_name (hint_NAME hint) = false ->
  hint_body env hint info w = Go info' w' ->
  exists is_playback is_capture info1,
    (is_playback = true /\ is_capture = true <-> hint_IOID hint = None)
    /\ (if hint_stream_skips is_playback is_capture (secondary_text hint)
             SND_PCM_STREAM_PLAYBACK
        then info1 = info
        else exists device,
               info1 = append_device SND_PCM_STREAM_PLAYBACK
                         (mark_default (hint_NAME hint) SND_PCM_STREAM_PLAYBACK info)
                         device
               /\ name device = hint_NAME hint /\ is_raw device = false
               /\ purpose device = SoundIoDevicePurposeOutput)
    /\ (if hint_stream_skips is_playback is_capture (secondary_text hint)
             SND_PCM_STREAM_CAPTURE
        then info' = info1
        else exists device,
               info' = append_device SND_PCM_STREAM_CAPTURE
                         (mark_default (hint_NAME hint) SND_PCM_STREAM_CAPTURE info1)
                         device
               /\ name device = hint_NAME hint /\ is_raw device = false
               /\ purpose device = SoundIoDevicePurposeInput).
Proof.
  intros Hnm. unfold hint_body, secondary_text. rewrite Hnm.
  destruct (hint_DESC hint) as [desc|]; [|discriminate].
  destruct (str_partition_on_char desc _) as [descr descr1]. cbn [snd].
  assert (Hboth : forall is_playback is_capture,
    for_each (hint_stream env (hint_NAME hint) descr descr1 is_playback is_capture)
      stream_types info w = Go info' w' ->
    exists info1,
      (if hint_stream_skips is_playback is_capture descr1 SND_PCM_STREAM_PLAYBACK
       then info1 = info
       else exists device,
              info1 = append_device SND_PCM_STREAM_PLAYBACK
                        (mark_default (hint_NAME hint) SND_PCM_STREAM_PLAYBACK info)
                        device
              /\ name device = hint_NAME hint /\ is_raw device = false
              /\ purpose device = SoundIoDevicePurposeOutput)
      /\ (if hint_stream_skips is_playback is_capture descr1 SND_PCM_STREAM_CAPTURE
          then info' = info1
          else exists device,
                 info' = append_device SND_PCM_STREAM_CAPTURE
                           (mark_default (hint_NAME hint) SND_PCM_STREAM_CAPTURE info1)
                           device
                 /\ name device = hint_NAME hint /\ is_raw device = false
                 /\ purpose device = SoundIoDevicePurposeInput)).
  { intros pb cap H. apply hint_streams_Go in H.
    destruct H as (info1 & w1 & H1 & H2). exists info1. split.
    - exact (pass_step_Go _ _ _ _ _ (hint_stream_result _ _ _ _ _ _ _ _) H1).
    - exact (pass_step_Go _ _ _ _ _ (hint_stream_result _ _ _ _ _ _ _ _) H2). }
  destruct (hint_IOID hint) as [io|].
  - destruct (strcmp_eq io "Input").
    + intros H. destruct (Hboth _ _ H) as (info1 & Ha & Hb).
      exists false, true, info1. split; [|now split].
      split; [intros [? _]; discriminate|discriminate].
    + destruct (strcmp_eq io "Output"); [|discriminate].
      intros H. destruct (Hboth _ _ H) as (info1 & Ha & Hb).
      exists true, false, info1. split; [|now split].
      split; [intros [_ ?]; discriminate|discriminate].
  - intros H. destruct (Hboth _ _ H) as (info1 & Ha & Hb).
    exists true, true, info1. split; [|now split]. now split.
Qed.

Lemma mark_default_input_devices (nm : string) (stream : snd_pcm_stream_t)
    (info : SoundIoDevicesInfo) :
  input_devices (mark_default nm stream info) = input_devices info
  /\ output_devices (mark_default nm stream info) = output_devices info.
Proof.
  unfold mark_default. destruct stream, (str_has_prefix nm "default:"); now cbn.
Qed.

(** C3, as the code has it.  When the secondary description text of a
    hint contains "Output" or "output", the body of the hint loop
    appends no descriptor to the input list for that hint. *)
Theorem no_capture_descriptor_when_detail_names_output
    (env : PassAnswers) (hint : Hint) (detail : string)
    (info info' : SoundIoDevicesInfo) (w w' : World)
    (Hdetail : secondary_text hint = Some detail)
    (Hnames : names_output detail)
    (Hbody : hint_body env hint info w = Go info' w') :
  input_devices info' = input_devices info.
Proof.
  destruct (excluded_name (hint_NAME hint)) eqn:Hnm.
  - unfold hint_body in Hbody. rewrite Hnm in Hbody. now inversion Hbody.
  - apply hint_body_Go in Hbody; [|exact Hnm].
    destruct Hbody as (pb & cap & info1 & _ & Hplay & Hcapt).
    assert (Hm : mentions_output (secondary_text hint) = true)
      by (apply mentions_output_iff; now exists detail).
    assert (Hskip : hint_stream_skips pb cap (secondary_text hint)
                      SND_PCM_STREAM_CAPTURE = true).
    { unfold hint_stream_skips. cbn. rewrite Hm. now destruct cap. }
    rewrite Hskip in Hcapt. subst info'.
    destruct (hint_stream_skips pb cap _ SND_PCM_STREAM_PLAYBACK).
    + now subst.
    + destruct Hplay as (device & -> & _). cbn [append_device append_output input_devices].
      apply mark_default_input_devices.
Qed.

(** ** The enumeration pass: the whole run *)

Lemma hint_body_excluded (env : PassAnswers) (hint : Hint)
    (info : SoundIoDevicesInfo) (w : World) :
  excluded_name (hint_NAME hint) = true -> hint_body env hint info w = Go info w.
Proof. intros H. unfold hint_body. now rewrite H. Qed.

(** The phases a pass that returns 0 has gone through. *)
Lemma refresh_devices_Go (env : PassAnswers) (w w' : World) :
  refresh_devices env w = Go tt w' ->
  exists hints w1 info1 w2 info2 w3,
    name_hints env = Some hints
    /\ begin_pass env w = Go created_devices_info w1
    /\ hint_loop env hints created_devices_info w1 = Go info1 w2
    /\ card_loop env (cards env) info1 w2 = Go info2 w3
    /\ ready_devices_info w' = Some info2.
Proof.
  unfold refresh_devices. unfold bind at 1.
  destruct (begin_pass env w) as [info0 w1|code w1|cause w1] eqn:Hbegin;
    [|discriminate|discriminate].
  assert (info0 = created_devices_info) as ->.
  { unfold begin_pass, bind in Hbegin. cbn in Hbegin.
    destruct (alloc_ok env _); cbn in Hbegin; now inversion Hbegin. }
  destruct (name_hints env) as [hints|]; [|discriminate].
  unfold bind at 1.
  destruct (hint_loop env hints created_devices_info w1) as [info1 w2|code w2|cause w2]
    eqn:Hloop; [|discriminate|discriminate].
  intros H.
  assert (Hscan : (bind (card_loop env (cards env) info1) publish) w2 = Go tt w').
  { destruct (cards env); [discriminate|exact H|exact H]. }
  unfold bind in Hscan.
  destruct (card_loop env (cards env) info1 w2) as [info2 w3|code w3|cause w3]
    eqn:Hcard; [|discriminate|discriminate].
  rewrite publish_spec in Hscan. inversion Hscan; subst w'.
  exists hints, w1, info1, w2, info2, w3. now repeat split.
Qed.

Lemma raw_extension_refl (info : SoundIoDevicesInfo) : raw_extension info info.
Proof.
  unfold raw_extension. repeat split; exists []; now rewrite app_nil_r.
Qed.

Lemma raw_extension_append (info0 info : SoundIoDevicesInfo)
    (stream : snd_pcm_stream_t) (device : SoundIoDevice) :
  raw_extension info0 info -> is_raw device = true ->
  raw_extension info0 (append_device stream info device).
Proof.
  intros (Ho & Hi & (outs & Houts & Hraw_o) & (ins & Hins & Hraw_i)) Hraw.
  unfold raw_extension.
  destruct stream; cbn; repeat split; try assumption.
  - exists (outs ++ [device]). rewrite Houts, app_assoc. split; [reflexivity|].
    apply Forall_app. split; [exact Hraw_o|now constructor].
  - now exists ins.
  - now exists outs.
  - exists (ins ++ [device]). rewrite Hins, app_assoc. split; [reflexivity|].
    apply Forall_app. split; [exact Hraw_i|now constructor].
Qed.

(** The raw scan appends raw descriptors and nothing else. *)
Lemma card_loop_raw_extension (env : PassAnswers) (script : CardNext)
    (info info' : SoundIoDevicesInfo) (w w' : World) :
  card_loop env script info w = Go info' w' -> raw_extension info info'.
Proof.
  intros H.
  refine (pass_step_Go (raw_extension info) _ w w' info' _ H).
  apply card_loop_step; [|apply raw_extension_refl].
  intros c d stream i device Hi _ Hraw _. now apply raw_extension_append.
Qed.

Lemma logical_raw_tail (devices raws : list SoundIoDevice) :
  Forall (fun d => is_raw d = true) raws ->
  logical (devices ++ raws) = logical devices.
Proof.
  intros Hraws. unfold logical. rewrite filter_app.
  replace (filter (fun d => negb (is_raw d)) raws) with (@nil SoundIoDevice);
    [apply app_nil_r|].
  induction Hraws as [|d raws Hd _ IH]; [reflexivity|].
  simpl. now rewrite Hd.
Qed.

(** *** Completion *)

Lemma runs_on_ret {A : Type} (a : A) : runs_on (ret a).
Proof using Type. intros w. now exists a, w. Qed.

Lemma runs_on_bind {A B : Type} (m : M A) (f : A -> M B) :
  runs_on m -> (forall a, runs_on (f a)) -> runs_on (bind m f).
Proof using Type.
  intros Hm Hf w. unfold bind. destruct (Hm w) as (a & w1 & ->). apply Hf.
Qed.

Lemma runs_on_for_each {A S : Type} (body : A -> S -> M S) (l : list A) :
  (forall x s, In x l -> runs_on (body x s)) -> forall s, runs_on (for_each body l s).
Proof using Type.
  induction l as [|x rest IH]; intros Hbody s; simpl.
  - apply runs_on_ret.
  - apply runs_on_bind; [apply Hbody; now left|].
    intros s'. apply IH. intros y t Hy. apply Hbody. now right.
Qed.

Lemma handle_channel_maps_some (device : SoundIoDevice)
    (maps : option (list snd_pcm_chmap_t)) :
  maps <> Some [] -> exists device', handle_channel_maps device maps = Some device'.
Proof.
  intros Hmaps. unfold handle_channel_maps, best_chmap.
  destruct maps as [[|v rest]|]; [contradiction| |now exists device].
  simpl. destruct (best_chmap_from_some rest v) as (best & -> & _).
  now eexists.
Qed.

Lemma probe_runs_on (env : PassAnswers) (device : SoundIoDevice)
    (maps : option (list snd_pcm_chmap_t)) :
  maps <> Some [] -> probe_safe env (name device) (purpose device) ->
  runs_on (probe env device maps).
Proof.
  intros Hmaps Hsafe. unfold probe_safe in Hsafe. unfold probe, probe_device.
  set (pcm := pcm_answers env (name device) (purpose device)) in *.
  destruct (pcm_open_ok pcm); cbn [negb].
  2:{ destruct (handle_channel_maps_some device maps Hmaps) as (d & ->).
      apply runs_on_ret. }
  destruct (hw_params_any_ok pcm); cbn [negb]; [|apply runs_on_ret].
  destruct (set_rate_resample_ok pcm); cbn [negb]; [|apply runs_on_ret].
  destruct (set_access_ok pcm); cbn [negb]; [|apply runs_on_ret].
  destruct (set_channels_last_ok pcm); cbn [negb]; [|apply runs_on_ret].
  destruct (get_rate_max pcm) as [[queried_max max_dir]|]; [|apply runs_on_ret].
  destruct (get_rate_min pcm) as [[queried_min min_dir]|]; [|apply runs_on_ret].
  match goal with
  | |- context [handle_channel_maps ?d ?m] =>
      destruct (handle_channel_maps_some d m) as (d' & ->)
  end.
  - destruct (get_chmap pcm), maps; assumption.
  - apply runs_on_ret.
Qed.

Lemma allocate_ok (env : PassAnswers) (w : World) :
  (forall n, alloc_ok env n = true) ->
  allocate env w = Go true (with_allocations w (S (allocations w))).
Proof using Type. intros H. unfold allocate. now rewrite H. Qed.

Lemma runs_on_allocate {A : Type} (env : PassAnswers) (f : bool -> M A) :
  (forall n, alloc_ok env n = true) -> runs_on (f true) ->
  runs_on (bind (allocate env) f).
Proof using Type.
  intros Halloc Hf w. unfold bind. rewrite allocate_ok by exact Halloc. apply Hf.
Qed.

Lemma hint_stream_runs_on (env : PassAnswers) (nm descr : string)
    (descr1 : option string) (is_playback is_capture : bool)
    (stream : snd_pcm_stream_t) (info : SoundIoDevicesInfo) :
  (forall n, alloc_ok env n = true) ->
  probe_safe env nm (stream_purpose stream) ->
  runs_on (hint_stream env nm descr descr1 is_playback is_capture stream info).
Proof.
  intros Halloc Hsafe. unfold hint_stream.
  destruct (negb (is_capture_stream stream) && negb is_playback); [apply runs_on_ret|].
  destruct (is_capture_stream stream && negb is_capture); [apply runs_on_ret|].
  destruct (is_capture_stream stream && mentions_output descr1); [apply runs_on_ret|].
  repeat (apply runs_on_allocate; [exact Halloc|]; cbn [negb orb]).
  apply runs_on_bind; [apply probe_runs_on; [discriminate|exact Hsafe]|].
  intros device'. apply runs_on_allocate; [exact Halloc|]. apply runs_on_ret.
Qed.

Lemma raw_stream_runs_on (env : PassAnswers) (card_index : Z) (card_name : string)
    (device_index : Z) (streams : snd_pcm_stream_t -> PcmStreamAnswers)
    (stream : snd_pcm_stream_t) (info : SoundIoDevicesInfo) :
  (forall n, alloc_ok env n = true) ->
  match pcm_info (streams stream) with
  | PcmInfoFails => False
  | PcmInfoENOENT => True
  | PcmInfoOk _ =>
      chmaps_from_hw (streams stream) <> Some []
      /\ probe_safe env (hw_name card_index device_index) (stream_purpose stream)
  end ->
  runs_on (raw_stream env card_index card_name device_index streams stream info).
Proof.
  intros Halloc Hclean. unfold raw_stream.
  destruct (pcm_info (streams stream)) as [device_name| |];
    [|apply runs_on_ret|contradiction].
  destruct Hclean as [Hmaps Hsafe].
  repeat (apply runs_on_allocate; [exact Halloc|]; cbn [negb orb]).
  apply runs_on_bind; [apply probe_runs_on; [exact Hmaps|exact Hsafe]|].
  intros device'. apply runs_on_allocate; [exact Halloc|]. apply runs_on_ret.
Qed.

Lemma pcm_loop_runs_on (env : PassAnswers) (card_index : Z) (card_name : string)
    (script : PcmNext) :
  (forall n, alloc_ok env n = true) -> pcms_clean env card_index script ->
  forall info, runs_on (pcm_loop env card_index card_name script info).
Proof.
  intros Halloc. induction script as [| |device_index streams rest IH];
    intros Hclean info; cbn [pcm_loop].
  - contradiction.
  - apply runs_on_ret.
  - destruct (Z.ltb_spec device_index 0) as [Hneg|Hpos]; [apply runs_on_ret|].
    cbn [pcms_clean] in Hclean. destruct Hclean as [Hneg|[Hstreams Hrest]]; [lia|].
    apply runs_on_bind; [|now apply IH].
    apply runs_on_for_each. intros stream s _.
    apply raw_stream_runs_on; [exact Halloc|apply Hstreams].
Qed.

Lemma card_loop_runs_on (env : PassAnswers) (script : CardNext) :
  (forall n, alloc_ok env n = true) -> cards_clean env script ->
  forall info, runs_on (card_loop env script info).
Proof.
  intros Halloc. induction script as [| |card_index ctl_open card_info pcms rest IH];
    intros Hclean info; cbn [card_loop].
  - contradiction.
  - apply runs_on_ret.
  - destruct (Z.ltb_spec card_index 0) as [Hneg|Hpos]; [apply runs_on_ret|].
    cbn [cards_clean] in Hclean.
    destruct Hclean as [Hneg|[->|(-> & Hinfo & Hpcms & Hrest)]];
      [lia|apply runs_on_ret|].
    destruct card_info as [card_name|]; [|contradiction].
    apply runs_on_bind; [now apply pcm_loop_runs_on|now apply IH].
Qed.

(** With no allocation failing, every hint either skipped or given a
    DESC, a valid IOID and a safe probe, and a clean raw scan, the pass
    returns 0. *)
Lemma refresh_devices_completes (env : PassAnswers) (hints : list Hint) (w : World) :
  (forall n, alloc_ok env n = true) ->
  name_hints env = Some hints ->
  (forall hint, In hint hints ->
     excluded_name (hint_NAME hint) = true
     \/ (hint_DESC hint <> None
         /\ (hint_IOID hint = None \/ hint_IOID hint = Some "Input"
             \/ hint_IOID hint = Some "Output")
         /\ forall p, probe_safe env (hint_NAME hint) p)) ->
  cards_clean env (cards env) ->
  exists w', refresh_devices env w = Go tt w'.
Proof.
  intros Halloc Hhints Hhint Hcards.
  unfold refresh_devices, begin_pass. unfold bind at 1 2 3 4.
  cbn [modify]. rewrite allocate_ok by exact Halloc. cbn [negb modify ret].
  rewrite Hhints. unfold bind at 1.
  match goal with
  | |- context [hint_loop env hints ?i ?w1] =>
      destruct (runs_on_for_each (hint_body env) hints) with (s := i) (w := w1)
        as (info1 & w2 & Hloop)
  end.
  { intros hint info Hin. unfold hint_body.
    destruct (Hhint hint Hin) as [Hex | (Hdesc & Hio & Hsafe)];
      [rewrite Hex; apply runs_on_ret|].
    destruct (excluded_name (hint_NAME hint)); [apply runs_on_ret|].
    destruct (hint_DESC hint) as [desc|]; [|contradiction].
    destruct (str_partition_on_char desc _) as [descr descr1].
    destruct Hio as [Hio | [Hio | Hio]]; rewrite Hio.
    - apply runs_on_for_each; intros stream s _; now apply hint_stream_runs_on.
    - change (strcmp_eq "Input" "Input") with true. cbv iota.
      apply runs_on_for_each; intros stream s _; now apply hint_stream_runs_on.
    - change (strcmp_eq "Output" "Input") with false.
      change (strcmp_eq "Output" "Output") with true. cbv iota.
      apply runs_on_for_each; intros stream s _; now apply hint_stream_runs_on. }
  unfold hint_loop. rewrite Hloop.
  destruct (card_loop_runs_on env (cards env) Halloc Hcards info1 w2)
    as (info2 & w3 & Hscan).
  assert (Hrun : bind (card_loop env (cards env) info1) publish w2
                 = Go tt (world_of (publish info2 w3))).
  { unfold bind. rewrite Hscan. now rewrite publish_spec. }
  destruct (cards env); [contradiction| |]; eexists; exact Hrun.
Qed.

(** C5, as the code has it.  With the hints "default:CARD" (IOID
    absent, secondary description text without "Output" and "output"),
    "null" and "sysdefault:CARD", a pass that completes publishes
    exactly two logical descriptors: one in the output list and one in
    the input list, both named "default:CARD", each first in its list,
    with both default indices 0.  The pass does complete when the
    registry holds a DESC for "default:CARD", no allocation fails, the
    probes of "default:CARD" meet no empty channel-map array and the
    raw scan is clean.  In general, when the
    stream loop of a hint whose name starts with "default:" appends a
    descriptor, the default index of that list is the position of the
    descriptor. *)
Theorem default_card_scenario :
  (forall (env : PassAnswers) (w w' : World) (h1 h2 h3 : Hint),
      name_hints env = Some [h1; h2; h3] ->
      hint_NAME h1 = "default:CARD" -> hint_IOID h1 = None ->
      (forall detail, secondary_text h1 = Some detail -> ~ names_output detail) ->
      hint_NAME h2 = "null" -> hint_NAME h3 = "sysdefault:CARD" ->
      refresh_devices env w = Go tt w' ->
      exists info d_out d_in,
        ready_devices_info w' = Some info
        /\ logical (output_devices info) = [d_out]
        /\ logical (input_devices info) = [d_in]
        /\ nth_error (output_devices info) 0 = Some d_out
        /\ nth_error (input_devices info) 0 = Some d_in
        /\ name d_out = "default:CARD" /\ name d_in = "default:CARD"
        /\ purpose d_out = SoundIoDevicePurposeOutput
        /\ purpose d_in = SoundIoDevicePurposeInput
        /\ is_raw d_out = false /\ is_raw d_in = false
        /\ default_output_index info = 0
        /\ default_input_index info = 0)
  /\ (forall (env : PassAnswers) (w : World) (h1 h2 h3 : Hint),
        name_hints env = Some [h1; h2; h3] ->
        hint_NAME h1 = "default:CARD" -> hint_IOID h1 = None ->
        hint_DESC h1 <> None ->
        hint_NAME h2 = "null" -> hint_NAME h3 = "sysdefault:CARD" ->
        (forall n, alloc_ok env n = true) ->
        (forall p, probe_safe env "default:CARD" p) ->
        cards_clean env (cards env) ->
        exists w', refresh_devices env w = Go tt w')
  /\ (forall (env : PassAnswers) (nm rest descr : string) (descr1 : option string)
        (is_playback is_capture : bool) (stream : snd_pcm_stream_t)
        (info info' : SoundIoDevicesInfo) (w w' : World),
        nm = ("default:" ++ rest)%string ->
        hint_stream_skips is_playback is_capture descr1 stream = false ->
        hint_stream env nm descr descr1 is_playback is_capture stream info w
        = Go info' w' ->
        exists device,
          device_list stream info' = device_list stream info ++ [device]
          /\ name device = nm
          /\ default_index stream info'
             = Z.of_nat (List.length (device_list stream info))
          /\ nth_error (device_list stream info')
               (List.length (device_list stream info)) = Some device).
Proof.
  split; [|split].
  - intros env w w' h1 h2 h3 Hhints Hn1 Hio Hdetail Hn2 Hn3 Hpass.
    apply refresh_devices_Go in Hpass.
    destruct Hpass as (hints & w1 & info1 & w2 & info2 & w3
                       & Hh & _ & Hloop & Hscan & Hready).
    rewrite Hhints in Hh. inversion Hh; subst hints. clear Hh.
    unfold hint_loop in Hloop. cbn [for_each] in Hloop. unfold bind in Hloop.
    destruct (hint_body env h1 created_devices_info w1) as [i1 u1|c u1|c u1] eqn:Hb1;
      [|discriminate|discriminate].
    rewrite (hint_body_excluded env h2) in Hloop by (now rewrite Hn2).
    rewrite (hint_body_excluded env h3) in Hloop by (now rewrite Hn3).
    cbn in Hloop. inversion Hloop; subst i1 u1. clear Hloop.
    apply hint_body_Go in Hb1; [|now rewrite Hn1].
    destruct Hb1 as (pb & cap & i1 & Hboth & Hplay & Hcapt).
    destruct (proj2 Hboth Hio) as [-> ->].
    assert (Hm : mentions_output (secondary_text h1) = false).
    { destruct (mentions_output (secondary_text h1)) eqn:E; [|reflexivity].
      apply mentions_output_iff in E. destruct E as (detail & Hd & Hno).
      now destruct (Hdetail detail Hd). }
    unfold hint_stream_skips in Hplay, Hcapt. rewrite Hm in Hplay, Hcapt.
    cbn [is_capture_stream negb andb orb] in Hplay, Hcapt.
    destruct Hplay as (d_out & -> & Hno & Hro & Hpo).
    destruct Hcapt as (d_in & -> & Hni & Hri & Hpi).
    rewrite Hn1 in *. cbn in Hscan.
    apply card_loop_raw_extension in Hscan.
    destruct Hscan as (Hdo & Hdi & (outs & Houts & Hraw_o) & (ins & Hins & Hraw_i)).
    cbn in Hdo, Hdi, Houts, Hins.
    exists info2, d_out, d_in. rewrite Houts, Hins.
    change (d_out :: outs) with ([d_out] ++ outs).
    change (d_in :: ins) with ([d_in] ++ ins).
    rewrite !logical_raw_tail by assumption.
    unfold logical. cbn. rewrite Hro, Hri. cbn.
    now repeat split.
  - intros env w h1 h2 h3 Hhints Hn1 Hio Hdesc Hn2 Hn3 Halloc Hsafe Hcards.
    apply (refresh_devices_completes env [h1; h2; h3]); try assumption.
    intros hint [<-|[<-|[<-|[]]]].
    + right. rewrite Hn1. split; [exact Hdesc|]. split; [now left|exact Hsafe].
    + left. now rewrite Hn2.
    + left. now rewrite Hn3.
  - intros env nm rest descr descr1 pb cap stream info info' w w' Hnm Hskip Hgo.
    pose proof (pass_step_Go _ _ _ _ _ (hint_stream_result _ _ _ _ _ _ _ _) Hgo) as H.
    cbn beta in H. rewrite Hskip in H. destruct H as (device & -> & Hn & _).
    assert (Hp : str_has_prefix nm "default:" = true)
      by (apply str_has_prefix_iff; now exists rest).
    exists device. unfold mark_default. rewrite Hp.
    destruct stream; cbn; repeat split; try assumption;
      rewrite nth_error_app2, Nat.sub_diag by lia; reflexivity.
Qed.

(** C10, as the code has it.  When the hint loop reaches a hint whose
    name is not on the exclusion list, for which the registry holds a
    DESC string and whose IOID is present and equal to neither "Input"
    nor "Output", the pass ends in [soundio_panic]: it returns no error
    code, appends nothing for the hint and publishes nothing.  Without
    a DESC string the process is gone before the IOID is read, by the
    null dereference in [str_partition_on_char]. *)
Theorem invalid_ioid_panics
    (env : PassAnswers) (w w1 w2 : World) (pre post : list Hint) (hint : Hint)
    (io : string) (info1 : SoundIoDevicesInfo)
    (Hhints : name_hints env = Some (pre ++ hint :: post))
    (Hbegin : begin_pass env w = Go created_devices_info w1)
    (Hpre : hint_loop env pre created_devices_info w1 = Go info1 w2)
    (Hname : admissible_name (hint_NAME hint))
    (Hio : hint_IOID hint = Some io)
    (Hin : io <> "Input") (Hout : io <> "Output") :
  refresh_devices env w
  = Dead (match hint_DESC hint with
          | Some _ => soundio_panic "invalid io hint value"
          | None => null_dereference
          end) w2
  /\ ready_devices_info w2 = ready_devices_info w
  /\ have_devices_flag w2 = have_devices_flag w.
Proof.
  set (cause := match hint_DESC hint with
                | Some _ => soundio_panic "invalid io hint value"
                | None => null_dereference
                end).
  assert (Hbody : hint_body env hint info1 w2 = Dead cause w2).
  { unfold hint_body, cause. rewrite (proj2 (excluded_name_false_iff _) Hname).
    destruct (hint_DESC hint) as [desc|]; [|reflexivity].
    destruct (str_partition_on_char desc _) as [descr descr1].
    rewrite Hio. unfold strcmp_eq.
    destruct (String.eqb_spec io "Input"); [contradiction|].
    destruct (String.eqb_spec io "Output"); [contradiction|].
    reflexivity. }
  assert (Hrun : refresh_devices env w = Dead cause w2).
  { unfold refresh_devices. unfold bind at 1. rewrite Hbegin, Hhints.
    unfold bind at 1. unfold hint_loop in *. rewrite for_each_app.
    unfold bind at 1. rewrite Hpre. cbn [for_each]. unfold bind at 1.
    now rewrite Hbody. }
  split; [exact Hrun|].
  pose proof (refresh_devices_failure_publishes_nothing env w) as H.
  rewrite Hrun in H. tauto.
Qed.

(** ** The capability probe at 44100 to 96000 *)

(** C1, at an input where it fails.  On a device that reports rates
    from 44100 to 96000 the probe returns 0; the default rate is the
    48000 the claim asks for, but the minimum field holds the
    maximum 96000 and the maximum field is as it was before the
    call. *)
Theorem probe_device_rates_44100_96000 (device : SoundIoDevice) :
  exists device',
    probe_device sample_pcm device None = ProbeRet SoundIoErrorNone device'
    /\ sample_rate_min device' = rate_field 96000
    /\ sample_rate_max device' = sample_rate_max device
    /\ sample_rate_default device' = rate_field 48000.
Proof.
  eexists. split; [reflexivity|]. cbn. repeat split.
Qed.

(** ** The watcher thread *)

Lemma land_pow2_testbit (a : Z) (n : Z) :
  0 <= n -> (Z.land a (2 ^ n) =? 0) = negb (Z.testbit a n).
Proof.
  intros Hn. destruct (Z.testbit a n) eqn:Hbit; cbn [negb].
  - apply Z.eqb_neq. intros H.
    assert (Hb : Z.testbit (Z.land a (2 ^ n)) n = true)
      by (rewrite Z.land_spec, Hbit, Z.pow2_bits_true; [reflexivity|exact Hn]).
    rewrite H, Z.bits_0 in Hb. discriminate.
  - apply Z.eqb_eq. apply Z.bits_inj'. intros m Hm.
    rewrite Z.land_spec, Z.bits_0.
    destruct (Z.eq_dec n m) as [<-|Hne].
    + now rewrite Hbit.
    + rewrite Z.pow2_bits_false by assumption. apply andb_false_r.
Qed.

Lemma name_at_pcm (event : inotify_event) :
  (Ascii.eqb (name_at event 0) "p" && Ascii.eqb (name_at event 1) "c"
   && Ascii.eqb (name_at event 2) "m") = true
  <-> exists rest, event_name event = ("pcm" ++ rest)%string.
Proof.
  unfold name_at. destruct (event_name event) as [|a [|b [|c rest]]]; cbn.
  - split; [discriminate|intros [r H]; discriminate].
  - split; [rewrite andb_false_r; discriminate|intros [r H]; discriminate].
  - split; [rewrite andb_false_r; discriminate|intros [r H]; discriminate].
  - rewrite !andb_true_iff, !Ascii.eqb_eq. split.
    + intros [[-> ->] ->]. now exists rest.
    + intros [r H]. now inversion H.
Qed.

Lemma scan_buffer_none (events : list inotify_event) (got : bool) :
  (forall event, In event events -> rescan_event event = false) ->
  scan_buffer events got = got.
Proof.
  induction events as [|event rest IH]; intros H; simpl; [reflexivity|].
  rewrite (H event) by now left. apply IH. intros e He. apply H. now right.
Qed.

Lemma drain_notify_none (reads : list (list inotify_event)) (got : bool) :
  (forall buf event, In buf reads -> In event buf -> rescan_event event = false) ->
  drain_notify reads got = got.
Proof.
  revert got. induction reads as [|buf rest IH]; intros got H; simpl; [reflexivity|].
  rewrite scan_buffer_none by (intros e He; apply (H buf); [now left|exact He]).
  apply IH. intros b e Hb He. apply (H b); [now right|exact He].
Qed.

Lemma scan_buffer_some (events : list inotify_event) (got : bool) (event : inotify_event) :
  In event events -> rescan_event event = true -> scan_buffer events got = true.
Proof.
  induction events as [|e rest IH]; intros Hin Hev; simpl; [contradiction|].
  destruct (rescan_event e) eqn:He; [reflexivity|].
  destruct Hin as [->|Hin]; [congruence|now apply IH].
Qed.

Lemma scan_buffer_true (events : list inotify_event) : scan_buffer events true = true.
Proof.
  induction events as [|e rest IH]; simpl; [reflexivity|].
  now destruct (rescan_event e).
Qed.

Lemma drain_notify_true (reads : list (list inotify_event)) :
  drain_notify reads true = true.
Proof.
  induction reads as [|buf rest IH]; simpl; [reflexivity|].
  now rewrite scan_buffer_true.
Qed.

Lemma drain_notify_some (reads : list (list inotify_event)) (got : bool)
    (buf : list inotify_event) (event : inotify_event) :
  In buf reads -> In event buf -> rescan_event event = true ->
  drain_notify reads got = true.
Proof.
  revert got. induction reads as [|b rest IH]; intros got Hb He Hq; simpl;
    [contradiction|].
  destruct Hb as [->|Hb].
  - rewrite (scan_buffer_some buf got event He Hq). apply drain_notify_true.
  - now apply IH.
Qed.

(** Entering [refresh_devices] is counted once, however it ends. *)
Lemma refresh_devices_counts_once (env : PassAnswers) (w : World) :
  refresh_devices_calls (world_of (refresh_devices env w))
  = S (refresh_devices_calls w).
Proof.
  pose proof (refresh_devices_outcome (fun _ => True)
                (fun _ _ _ _ _ _ _ _ _ => Logic.I) (fun _ _ _ _ _ _ _ _ _ => Logic.I)
                env w Logic.I) as H.
  destruct (refresh_devices env w) as [u w'|code w'|cause w']; cbn.
  - destruct H as (info & H). tauto.
  - destruct H as ((_ & _ & _ & _ & _ & _ & H) & _). exact H.
  - destruct H as (_ & _ & _ & _ & _ & _ & H). exact H.
Qed.

(** The number of passes one iteration runs: one if the flag says
    rescan after a successful [poll] with the abort flag still set,
    none otherwise. *)
Lemma device_thread_iteration_calls (wake : Wake) (w : World) :
  refresh_devices_calls (loop_world (device_thread_iteration wake w))
  = if abort_flag w && negb (poll_num wake <=? 0) && got_rescan_event wake
    then S (refresh_devices_calls w)
    else refresh_devices_calls w.
Proof.
  unfold device_thread_iteration.
  destruct (abort_flag w); cbn [negb andb]; [|reflexivity].
  destruct (Z.eqb_spec (poll_num wake) (-1)) as [Hm|Hm].
  - rewrite Hm. cbn. now destruct (poll_errno wake).
  - destruct (poll_num wake <=? 0); cbn [negb andb]; [reflexivity|].
    destruct (got_rescan_event wake); [|reflexivity].
    pose proof (refresh_devices_counts_once (pass_answers wake) (with_abort_flag w true)) as H.
    destruct (refresh_devices _ _); exact H.
Qed.


Lemma rescan_event_iff (event : inotify_event) :
  rescan_event event = true <-> qualifying_change event.
Proof. forget_parameters.
  unfold rescan_event, qualifying_change, creation_or_deletion, directory_entry.
  unfold IN_CREATE, IN_DELETE, IN_ISDIR.
  change 256 with (2 ^ 8). change 512 with (2 ^ 9). change 1073741824 with (2 ^ 30).
  rewrite !land_pow2_testbit by lia. rewrite !negb_involutive.
  rewrite <- name_at_pcm.
  destruct (Z.testbit (mask event) 8), (Z.testbit (mask event) 9),
    (Z.testbit (mask event) 30); cbn [orb negb];
    try (split; [discriminate|intros (H1 & H2 & _); tauto]);
    try (split; [discriminate|intros ([H|H] & _); discriminate]).
  all: destruct (Z.eqb_spec (len event) 0) as [H0|H0]; cbn [orb];
    [split; [discriminate|intros (_ & _ & H & _); lia]|].
  all: destruct (Z.ltb_spec (len event) 8) as [H8|H8];
    [split; [discriminate|intros (_ & _ & H & _); lia]|].
  all: destruct (Ascii.eqb (name_at event 0) "p"), (Ascii.eqb (name_at event 1) "c"),
    (Ascii.eqb (name_at event 2) "m"); cbn;
    try (split; [discriminate|intros (_ & _ & _ & H); discriminate]).
  all: split; [intros _|reflexivity]; repeat split; auto; discriminate.
Qed.

Lemma land_POLLIN (revents : Z) :
  (Z.land revents POLLIN =? 0) = negb (Z.testbit revents 0).
Proof. unfold POLLIN. change 1 with (2 ^ 0). apply land_pow2_testbit. lia. Qed.

(** C6.  The filter of the watcher loop accepts a record exactly when it
    records a creation or a deletion, its is-directory flag is unset, its
    name buffer has at least 8 bytes and its name starts with "pcm"; an
    iteration in which the wake pipe is silent and every record read is
    rejected runs no pass. *)
Theorem qualifying_change_filter :
  (forall event, rescan_event event = true <-> qualifying_change event)
  /\ (forall wake w,
        Z.testbit (pipe_revents wake) 0 = false ->
        (forall buf event, In buf (notify_reads wake) -> In event buf ->
           ~ qualifying_change event) ->
        refresh_devices_calls (loop_world (device_thread_iteration wake w))
        = refresh_devices_calls w).
Proof.
  split; [exact rescan_event_iff|].
  intros wake w Hpipe Hnone.
  rewrite device_thread_iteration_calls.
  assert (Hgot : got_rescan_event wake = false).
  { unfold got_rescan_event. rewrite !land_POLLIN, Hpipe. cbn [negb].
    destruct (negb (negb (Z.testbit (notify_revents wake) 0))); [|reflexivity].
    apply drain_notify_none. intros buf event Hb He.
    destruct (rescan_event event) eqn:E; [|reflexivity].
    apply rescan_event_iff in E. now destruct (Hnone buf event Hb He). }
  rewrite Hgot. now rewrite andb_false_r.
Qed.

(** C7.  One iteration of the watcher loop enters [refresh_devices] at
    most once, so the thread has entered it at most as often as [poll]
    has returned; with the abort flag still set, a successful [poll]
    that reports the notification descriptor readable and two or more
    pending records that pass the filter, an iteration enters it exactly
    once. *)
Theorem one_pass_per_wake_cycle :
  (forall wake w,
      (refresh_devices_calls (loop_world (device_thread_iteration wake w))
       <= S (refresh_devices_calls w))%nat)
  /\ (forall wakes w,
        (refresh_devices_calls (loop_world (device_thread_run wakes w))
         <= refresh_devices_calls w + List.length wakes)%nat)
  /\ (forall wake w,
        abort_flag w = true ->
        0 < poll_num wake ->
        Z.testbit (notify_revents wake) 0 = true ->
        (2 <= List.length (pending_rescan_events wake))%nat ->
        refresh_devices_calls (loop_world (device_thread_iteration wake w))
        = S (refresh_devices_calls w)).
Proof.
  assert (Honce : forall wake w,
            (refresh_devices_calls (loop_world (device_thread_iteration wake w))
             <= S (refresh_devices_calls w))%nat).
  { intros wake w. rewrite device_thread_iteration_calls.
    destruct (_ && _ && _); lia. }
  split; [exact Honce|]. split.
  - intros wakes. induction wakes as [|wake rest IH]; intros w; cbn [device_thread_run].
    + cbn. lia.
    + specialize (Honce wake w).
      destruct (device_thread_iteration wake w) as [w1|w1|cause w1];
        cbn [loop_world List.length] in *.
      * specialize (IH w1). lia.
      * lia.
      * lia.
  - intros wake w Habort Hpoll Hnotify Htwo.
    rewrite device_thread_iteration_calls, Habort.
    destruct (Z.leb_spec (poll_num wake) 0) as [H|H]; [lia|]. cbn [andb negb].
    assert (Hgot : got_rescan_event wake = true).
    { unfold got_rescan_event. rewrite !land_POLLIN, Hnotify. cbn [negb].
      assert (Hdrain : drain_notify (notify_reads wake) false = true).
      { unfold pending_rescan_events in Htwo.
        destruct (filter rescan_event (List.concat (notify_reads wake))) as [|event rest] eqn:E;
          [cbn in Htwo; lia|].
        assert (Hin : In event (filter rescan_event (List.concat (notify_reads wake))))
          by (rewrite E; now left).
        apply filter_In in Hin. destruct Hin as [Hin Hq].
        apply in_concat in Hin. destruct Hin as (buf & Hbuf & Hev).
        now apply (drain_notify_some _ _ buf event). }
      rewrite Hdrain. now destruct (negb (Z.testbit (pipe_revents wake) 0)). }
    now rewrite Hgot.
Qed.

(** ** The consumer side *)

(** C8.  Two calls of [flush_events] with nothing published in between
    invoke the device-change callback at most once in total, and the
    second of them changes nothing; a call that finds the slot empty
    leaves the whole state, the current inventory included, as it was
    and invokes no callback. *)
Theorem flush_events_twice_one_callback (w : World) :
  (on_devices_change_calls (call_world (flush_events_twice w))
   <= S (on_devices_change_calls w))%nat
  /\ (forall w1, flush_events w = Returns w1 -> flush_events w1 = Returns w1)
  /\ (have_devices_flag w = true -> exists w1, flush_events w = Returns w1)
  /\ (ready_devices_info w = None -> call_world (flush_events w) = w).
Proof.
  assert (Hsecond : forall w1, flush_events w = Returns w1 ->
                      flush_events w1 = Returns w1
                      /\ (on_devices_change_calls w1
                          <= S (on_devices_change_calls w))%nat).
  { intros w1. unfold flush_events, block_until_have_devices.
    destruct (have_devices_flag w) eqn:Hflag; [|discriminate].
    destruct (ready_devices_info w) as [ready|] eqn:Hready.
    - destruct (safe_devices_info w); cbn; intros H; inversion H; subst w1; cbn;
        rewrite Hflag; split; (reflexivity || lia).
    - cbn. intros H; inversion H; subst w1. rewrite Hflag, Hready. cbn.
      split; [reflexivity|lia]. }
  split; [|split; [|split]].
  - unfold flush_events_twice.
    destruct (flush_events w) as [w1|w1] eqn:Hfirst.
    + destruct (Hsecond w1 eq_refl) as [-> Hle]. exact Hle.
    + unfold flush_events, block_until_have_devices in Hfirst.
      destruct (have_devices_flag w).
      * destruct (ready_devices_info w); discriminate.
      * inversion Hfirst; subst w1. cbn. lia.
  - intros w1 H. now apply Hsecond.
  - intros Hflag. unfold flush_events, block_until_have_devices. rewrite Hflag.
    destruct (ready_devices_info w); eexists; reflexivity.
  - intros Hready. unfold flush_events, block_until_have_devices.
    destruct (have_devices_flag w); [|reflexivity]. now rewrite Hready.
Qed.


(** ** Further properties: helpers *)

(** Where [str_partition_on_char] cuts. *)
Lemma str_partition_on_char_cut (str : string) (c : ascii) :
  match str_partition_on_char str c with
  | (head, Some tail) =>
      str = (head ++ String c tail)%string
      /\ ~ In c (list_ascii_of_string head)
  | (head, None) =>
      head = str /\ ~ In c (list_ascii_of_string str)
  end.
Proof.
  forget_parameters.
  induction str as [|x rest IH]; simpl.
  - split; [reflexivity|intros []].
  - destruct (Ascii.eqb_spec x c) as [->|Hne].
    + split; [reflexivity|intros []].
    + destruct (str_partition_on_char rest c) as [head [tail|]].
      * destruct IH as [-> Hno]. split; [reflexivity|].
        simpl. intros [H|H]; [contradiction|now apply Hno].
      * destruct IH as [-> Hno]. split; [reflexivity|].
        simpl. intros [H|H]; [contradiction|now apply Hno].
Qed.

(** X1.  [str_partition_on_char] cuts at the first occurrence of the
    character: the part kept, the character and the returned rest make
    up the string again, and the part kept does not contain the
    character; without an occurrence the string is kept whole and
    nothing is returned. *)
Theorem str_partition_on_char_splits_at_first (str : string) (c : ascii) :
  match str_partition_on_char str c with
  | (head, Some tail) =>
      str = (head ++ String c tail)%string
      /\ ~ In c (list_ascii_of_string head)
  | (head, None) =>
      head = str /\ ~ In c (list_ascii_of_string str)
  end.
Proof. exact (str_partition_on_char_cut str c). Qed.

(** X2.  [str_has_prefix] answers true exactly when the string is the
    prefix followed by something; in particular every string has the
    empty prefix and itself as prefix, and no string shorter than the
    prefix has it. *)
Theorem str_has_prefix_exactly_prefixes (big_str prefix : string) :
  (str_has_prefix big_str prefix = true
   <-> exists rest, big_str = (prefix ++ rest)%string)
  /\ str_has_prefix big_str "" = true
  /\ str_has_prefix big_str big_str = true
  /\ ((String.length big_str < String.length prefix)%nat ->
      str_has_prefix big_str prefix = false).
Proof.
  forget_parameters.
  split; [apply str_has_prefix_iff|]. split; [reflexivity|]. split.
  - apply str_has_prefix_iff. exists "". clear. induction big_str; simpl; congruence.
  - intros Hlen. destruct (str_has_prefix big_str prefix) eqn:E; [|reflexivity].
    apply str_has_prefix_iff in E. destruct E as [rest ->]. exfalso.
    clear -Hlen. revert Hlen. induction prefix; simpl; intros H; [lia|].
    apply IHprefix. lia.
Qed.

Lemma chmap_pos_cases (pos : Z) :
  2 <= pos <= 36 -> pos = 2 \/ pos = 3 \/ pos = 4 \/ pos = 5 \/ pos = 6 \/ pos = 7 \/ pos = 8 \/ pos = 9 \/ pos = 10 \/ pos = 11 \/ pos = 12 \/ pos = 13 \/ pos = 14 \/ pos = 15 \/ pos = 16 \/ pos = 17 \/ pos = 18 \/ pos = 19 \/ pos = 20 \/ pos = 21 \/ pos = 22 \/ pos = 23 \/ pos = 24 \/ pos = 25 \/ pos = 26 \/ pos = 27 \/ pos = 28 \/ pos = 29 \/ pos = 30 \/ pos = 31 \/ pos = 32 \/ pos = 33 \/ pos = 34 \/ pos = 35 \/ pos = 36.
Proof. forget_parameters. lia. Qed.

(** X3.  [from_alsa_chmap_pos] gives a valid channel id exactly for the
    positions from [SND_CHMAP_MONO] (2) to [SND_CHMAP_BRC] (36); two
    such positions get the same id only if they are [SND_CHMAP_MONO]
    and [SND_CHMAP_FC] (7), which both become front center. *)
Theorem from_alsa_chmap_pos_valid_range :
  (forall pos,
      from_alsa_chmap_pos pos <> SoundIoChannelIdInvalid <-> 2 <= pos <= 36)
  /\ (forall p q,
        2 <= p <= 36 -> 2 <= q <= 36 ->
        from_alsa_chmap_pos p = from_alsa_chmap_pos q ->
        p = q \/ (p = 2 /\ q = 7) \/ (p = 7 /\ q = 2)).
Proof.
  forget_parameters. split.
  - intros pos. split.
    + intros H. destruct (Z_le_gt_dec 2 pos) as [Hlo|Hlo].
      * destruct (Z_le_gt_dec pos 36) as [Hhi|Hhi]; [lia|].
        exfalso. apply H. destruct pos as [|p|p]; try lia.
        do 6 (destruct p as [p|p|]; try reflexivity; try lia).
      * exfalso. apply H. destruct pos as [|p|p]; try reflexivity.
        destruct p; try reflexivity; lia.
    + intros Hr. apply chmap_pos_cases in Hr.
      repeat (destruct Hr as [->|Hr]; [discriminate|]). subst. discriminate.
  - intros p q Hp Hq. apply chmap_pos_cases in Hp. apply chmap_pos_cases in Hq.
    repeat (destruct Hp as [->|Hp]);
      try subst p;
      repeat (destruct Hq as [->|Hq]);
      try subst q;
      intros H;
      first [left; reflexivity
            | right; left; split; reflexivity
            | right; right; split; reflexivity
            | discriminate H].
Qed.


Lemma array_set_length {A : Type} (i : nat) (v : A) (array : list A) :
  List.length (array_set i v array) = List.length array.
Proof using Type.
  revert i. induction array as [|x rest IH]; intros [|i]; simpl; congruence.
Qed.

Lemma array_set_nth_error {A : Type} (i j : nat) (v : A) (array : list A) :
  (j < List.length array)%nat ->
  nth_error (array_set i v array) j
  = if Nat.eqb j i then Some v else nth_error array j.
Proof using Type.
  revert i j. induction array as [|x rest IH]; intros i j Hj; simpl in Hj; [lia|].
  destruct i as [|i], j as [|j]; simpl; try reflexivity.
  apply IH. lia.
Qed.

Lemma fill_channels_length (pos : list Z) (todo : nat) :
  forall i chans, List.length (fill_channels pos i todo chans) = List.length chans.
Proof using Type.
  induction todo as [|todo IH]; intros i chans; simpl; [reflexivity|].
  now rewrite IH, array_set_length.
Qed.

Lemma fill_channels_nth_error (pos : list Z) (todo : nat) :
  forall i chans j,
    (j < List.length chans)%nat ->
    nth_error (fill_channels pos i todo chans) j
    = if (Nat.leb i j && Nat.ltb j (i + todo))%bool
      then Some (from_alsa_chmap_pos (nth j pos 0))
      else nth_error chans j.
Proof using Type.
  induction todo as [|todo IH]; intros i chans j Hj; simpl.
  - replace (Nat.ltb j (i + 0)) with (Nat.ltb j i) by (f_equal; lia).
    destruct (Nat.leb_spec i j), (Nat.ltb_spec j i); simpl; try reflexivity; lia.
  - rewrite IH by (now rewrite array_set_length).
    rewrite array_set_nth_error by exact Hj.
    destruct (Nat.leb_spec (S i) j), (Nat.ltb_spec j (S i + todo)),
      (Nat.leb_spec i j), (Nat.ltb_spec j (i + S todo)), (Nat.eqb_spec j i);
      simpl; try reflexivity; try lia.
    now subst.
Qed.

(** X4.  [get_channel_layout] hands to the builtin detector a layout
    without a name whose channel count is the smaller of
    [SOUNDIO_MAX_CHANNELS] and the channel count of the map, so never
    more than [SOUNDIO_MAX_CHANNELS]; the entries of the channel array
    below that count are the translated positions of the map, the
    entries from that count on are as they were, and no other field of
    the device changes. *)
Theorem get_channel_layout_fills_prefix
    (device : SoundIoDevice) (chmap : snd_pcm_chmap_t) :
  exists layout,
    channel_layout (get_channel_layout device chmap)
    = soundio_channel_layout_detect_builtin layout
    /\ layout_name layout = None
    /\ channel_count layout
       = Z.min (uint SOUNDIO_MAX_CHANNELS) (chmap_channels chmap)
    /\ channel_count layout <= uint SOUNDIO_MAX_CHANNELS
    /\ List.length (channels layout)
       = List.length (channels (channel_layout device))
    /\ (forall i, (i < List.length (channels layout))%nat ->
          nth_error (channels layout) i
          = if Z.of_nat i <? channel_count layout
            then Some (from_alsa_chmap_pos (nth i (chmap_pos chmap) 0))
            else nth_error (channels (channel_layout device)) i)
    /\ name (get_channel_layout device chmap) = name device
    /\ description (get_channel_layout device chmap) = description device
    /\ purpose (get_channel_layout device chmap) = purpose device
    /\ is_raw (get_channel_layout device chmap) = is_raw device
    /\ ref_count (get_channel_layout device chmap) = ref_count device
    /\ sample_rate_min (get_channel_layout device chmap) = sample_rate_min device
    /\ sample_rate_max (get_channel_layout device chmap) = sample_rate_max device
    /\ sample_rate_default (get_channel_layout device chmap)
       = sample_rate_default device.
Proof.
  unfold get_channel_layout.
  set (count := Z.min (uint SOUNDIO_MAX_CHANNELS) (chmap_channels chmap)).
  eexists. split; [reflexivity|]. cbn.
  split; [reflexivity|]. split; [reflexivity|]. split; [subst count; lia|].
  split; [apply fill_channels_length|]. split; [|repeat split].
  intros i Hi. rewrite fill_channels_length in Hi.
  rewrite fill_channels_nth_error by exact Hi. cbn [Nat.leb andb Nat.add].
  clearbody count.
  destruct (Z.ltb_spec (Z.of_nat i) count), (Nat.ltb_spec i (Z.to_nat count));
    try reflexivity; lia.
Qed.


(** ** Further properties: the capability probe *)

Lemma handle_channel_maps_same_identity (device device' : SoundIoDevice)
    (maps : option (list snd_pcm_chmap_t))
    (H : handle_channel_maps device maps = Some device') :
  same_identity device device'
  /\ sample_rate_min device' = sample_rate_min device
  /\ sample_rate_max device' = sample_rate_max device
  /\ sample_rate_default device' = sample_rate_default device.
Proof.
  unfold handle_channel_maps in H. destruct maps as [candidates|].
  - destruct (best_chmap candidates); inversion H; subst.
    unfold same_identity. now cbn.
  - inversion H; subst. unfold same_identity. now repeat split.
Qed.

(** X5.  [probe_device] returns 0 exactly when every PCM call succeeds
    and [SoundIoErrorOpeningDevice] whenever one fails, never another
    code.  A failure after a successful open leaves the device as it
    was; a failed open still lets the given channel maps set the
    layout.  In every case name, description, purpose, rawness and
    reference count are kept.  The only way not to return is a
    channel-map array that holds nothing but its terminator. *)
Theorem probe_device_return_code
    (pcm : PcmAnswers) (device : SoundIoDevice)
    (maps : option (list snd_pcm_chmap_t)) :
  match probe_device pcm device maps with
  | ProbeRet err device' =>
      same_identity device device'
      /\ ((err = SoundIoErrorNone /\ all_pcm_calls_succeed pcm)
          \/ (err = SoundIoErrorOpeningDevice
              /\ ~ all_pcm_calls_succeed pcm
              /\ (pcm_open_ok pcm = true -> device' = device)
              /\ (pcm_open_ok pcm = false ->
                  handle_channel_maps device maps = Some device')))
  | ProbeNullDeref =>
      maps = Some []
      \/ (maps = None /\ get_chmap pcm = None /\ query_chmaps pcm = Some []
          /\ all_pcm_calls_succeed pcm)
  end.
Proof.
  assert (Hrefl : same_identity device device) by (unfold same_identity; tauto).
  assert (Hempty : forall d m, handle_channel_maps d m = None -> m = Some []).
  { intros d m H. destruct m as [[|v rest]|]; [reflexivity| |discriminate].
    exfalso. destruct (handle_channel_maps_some d (Some (v :: rest))) as (d' & Hd');
      [discriminate|congruence]. }
  unfold probe_device, all_pcm_calls_succeed.
  destruct (pcm_open_ok pcm); cbn [negb].
  2:{ destruct (handle_channel_maps device maps) as [device'|] eqn:Hm.
      - split; [apply (handle_channel_maps_same_identity _ _ _ Hm)|].
        right. split; [reflexivity|]. split; [intros (H & _); discriminate|].
        split; [discriminate|reflexivity].
      - left. eapply Hempty; eassumption. }
  assert (Hfail : forall P : Prop, ~ P ->
            same_identity device device
            /\ ((SoundIoErrorOpeningDevice = SoundIoErrorNone /\ P)
                \/ (SoundIoErrorOpeningDevice = SoundIoErrorOpeningDevice
                    /\ ~ P
                    /\ (true = true -> device = device)
                    /\ (true = false ->
                        handle_channel_maps device maps = Some device)))).
  { intros P HP. split; [exact Hrefl|]. right.
    split; [reflexivity|]. split; [exact HP|]. split; [reflexivity|discriminate]. }
  destruct (hw_params_any_ok pcm); cbn [negb];
    [|apply Hfail; intros Hall; decompose [and] Hall; congruence].
  destruct (set_rate_resample_ok pcm); cbn [negb];
    [|apply Hfail; intros Hall; decompose [and] Hall; congruence].
  destruct (set_access_ok pcm); cbn [negb];
    [|apply Hfail; intros Hall; decompose [and] Hall; congruence].
  destruct (set_channels_last_ok pcm); cbn [negb];
    [|apply Hfail; intros Hall; decompose [and] Hall; congruence].
  destruct (get_rate_max pcm) as [[queried_max max_dir]|];
    [|apply Hfail; intros Hall; decompose [and] Hall; congruence].
  destruct (get_rate_min pcm) as [[queried_min min_dir]|];
    [|apply Hfail; intros Hall; decompose [and] Hall; congruence].
  cbv zeta.
  match goal with
  | |- context [match handle_channel_maps ?d ?m with
                | Some _ => ProbeRet SoundIoErrorNone _
                | None => _
                end] =>
      destruct (handle_channel_maps d m) as [device2|] eqn:Hm
  end.
  - split.
    + apply handle_channel_maps_same_identity in Hm.
      destruct Hm as ((h1 & h2 & h3 & h4 & h5) & _).
      unfold same_identity. cbn. rewrite h1, h2, h3, h4, h5.
      destruct (get_chmap pcm); now cbn.
    + left. repeat split; discriminate.
  - apply Hempty in Hm. destruct (get_chmap pcm), maps; try discriminate Hm.
    + now left.
    + now left.
    + right. repeat split; try assumption; discriminate.
Qed.

(** X6.  After a probe that returned 0 the default sample rate is 48000
    if 48000 lies between the adjusted minimum and the adjusted maximum
    and that maximum otherwise; it never exceeds the maximum and, when
    the range is not empty, is not below the minimum.  The maximum is
    lowered by one (modulo 2^32) for a negative direction, the minimum
    raised by one for a positive one. *)
Theorem probe_device_default_rate_in_range
    (pcm : PcmAnswers) (device device' : SoundIoDevice)
    (maps : option (list snd_pcm_chmap_t))
    (Hok : probe_device pcm device maps = ProbeRet SoundIoErrorNone device') :
  exists queried_max max_dir queried_min min_dir min_rate max_rate default_rate,
    get_rate_max pcm = Some (queried_max, max_dir)
    /\ get_rate_min pcm = Some (queried_min, min_dir)
    /\ max_rate = (if max_dir <? 0 then uint (uint queried_max - 1)
                   else uint queried_max)
    /\ min_rate = (if 0 <? min_dir then uint (uint queried_min + 1)
                   else uint queried_min)
    /\ sample_rate_default device' = rate_field default_rate
    /\ (min_rate <= 48000 <= max_rate -> default_rate = 48000)
    /\ (~ min_rate <= 48000 <= max_rate -> default_rate = max_rate)
    /\ default_rate <= max_rate
    /\ (min_rate <= max_rate -> min_rate <= default_rate).
Proof.
  destruct (probe_device_success_rates pcm device device' maps Hok)
    as (queried_max & max_dir & queried_min & min_dir & Hmax & Hmin & H).
  cbv zeta in H. destruct H as (_ & _ & Hdefault).
  exists queried_max, max_dir, queried_min, min_dir.
  eexists. eexists. eexists.
  split; [exact Hmax|]. split; [exact Hmin|].
  split; [reflexivity|]. split; [reflexivity|]. split; [exact Hdefault|].
  unfold MAX_SAMPLE_RATE.
  set (max_rate := if max_dir <? 0 then _ else _).
  set (min_rate := if 0 <? min_dir then _ else _).
  clearbody max_rate min_rate.
  destruct (Z.leb_spec min_rate 48000), (Z.leb_spec 48000 max_rate);
    cbn [andb]; repeat split; intros; lia.
Qed.


(** ** Further properties: the enumeration pass *)

(** An invariant of the snapshot under construction that each append
    for a hint of the list preserves holds after the hint loop. *)
Lemma hint_loop_Go_invariant (I : SoundIoDevicesInfo -> Prop)
    (env : PassAnswers) (all_hints : list Hint) :
  (forall hint stream info device,
      In hint all_hints -> excluded_name (hint_NAME hint) = false ->
      I info -> name device = hint_NAME hint -> is_raw device = false ->
      purpose device = stream_purpose stream ->
      I (append_device stream (mark_default (hint_NAME hint) stream info) device)) ->
  forall hints, incl hints all_hints ->
  forall info w info' w',
    I info -> hint_loop env hints info w = Go info' w' -> I info'.
Proof.
  intros Happ. unfold hint_loop.
  induction hints as [|hint rest IH]; intros Hincl info w info' w' Hinfo Hgo.
  - cbn in Hgo. now inversion Hgo; subst.
  - cbn [for_each] in Hgo. unfold bind in Hgo.
    destruct (hint_body env hint info w) as [info1 w1|c w1|c w1] eqn:Hbody;
      [|discriminate|discriminate].
    apply (IH (fun h Hh => Hincl h (or_intror Hh)) info1 w1 info' w'); [|exact Hgo].
    assert (Hin : In hint all_hints) by (apply Hincl; now left).
    destruct (excluded_name (hint_NAME hint)) eqn:Hex.
    + rewrite hint_body_excluded in Hbody by exact Hex. now inversion Hbody; subst.
    + apply hint_body_Go in Hbody; [|exact Hex].
      destruct Hbody as (pb & cap & i1 & _ & Hplay & Hcapt).
      assert (Hi1 : I i1).
      { destruct (hint_stream_skips pb cap _ SND_PCM_STREAM_PLAYBACK).
        - now subst.
        - destruct Hplay as (d & -> & Hn & Hr & Hp). now apply Happ. }
      destruct (hint_stream_skips pb cap _ SND_PCM_STREAM_CAPTURE).
      * now subst.
      * destruct Hcapt as (d & -> & Hn & Hr & Hp). now apply Happ.
Qed.

Lemma lists_match_purpose_append (stream : snd_pcm_stream_t)
    (info : SoundIoDevicesInfo) (device : SoundIoDevice) :
  lists_match_purpose info -> purpose device = stream_purpose stream ->
  raw_named device -> lists_match_purpose (append_device stream info device).
Proof.
  forget_parameters. intros [Ho Hi] Hp Hn. unfold lists_match_purpose.
  destruct stream; cbn; split; try assumption;
    apply Forall_app; split; try assumption; now repeat constructor.
Qed.

Lemma lists_match_purpose_mark_default (nm : string) (stream : snd_pcm_stream_t)
    (info : SoundIoDevicesInfo) :
  lists_match_purpose info -> lists_match_purpose (mark_default nm stream info).
Proof.
  forget_parameters. unfold lists_match_purpose, mark_default.
  destruct stream, (str_has_prefix nm "default:"); now cbn.
Qed.

(** X7.  In the snapshot a completed pass has published, every
    descriptor of the output list has purpose Output and every
    descriptor of the input list has purpose Input, and every raw
    descriptor bears a name of the form "hw:<card>,<device>". *)
Theorem published_lists_match_purpose
    (env : PassAnswers) (w w' : World)
    (Hpass : refresh_devices env w = Go tt w') :
  exists info,
    ready_devices_info w' = Some info /\ lists_match_purpose info.
Proof.
  pose proof (refresh_devices_outcome lists_match_purpose) as H.
  assert (Hhint : forall nm stream info device,
            lists_match_purpose info -> excluded_name nm = false ->
            name device = nm -> is_raw device = false ->
            purpose device = stream_purpose stream ->
            lists_match_purpose
              (append_device stream (mark_default nm stream info) device)).
  { intros nm stream info device Hi _ _ Hraw Hp.
    apply lists_match_purpose_append;
      [now apply lists_match_purpose_mark_default|exact Hp|].
    intros Hr. congruence. }
  assert (Hraw : forall card_index device_index stream info device,
            lists_match_purpose info ->
            name device
            = ("hw:" ++ sprintf_d card_index ++ "," ++ sprintf_d device_index)%string ->
            is_raw device = true -> purpose device = stream_purpose stream ->
            lists_match_purpose (append_device stream info device)).
  { intros c d stream info device Hi Hn _ Hp.
    apply lists_match_purpose_append; [exact Hi|exact Hp|].
    intros _. now exists c, d. }
  specialize (H Hhint Hraw env w). rewrite Hpass in H.
  destruct H as (info & Hready & Hinv & _); [split; constructor|].
  now exists info.
Qed.


Lemma devices_all_created (D : SoundIoDevice -> Prop) :
  devices_all D created_devices_info.
Proof. split; constructor. Qed.

(** X8.  Each list of a published snapshot is the logical descriptors
    followed by the raw descriptors: the two scans are concatenated.
    Every logical descriptor bears the NAME of a hint of the registry
    that the hint loop does not skip. *)
Theorem published_lists_logical_then_raw
    (env : PassAnswers) (w w' : World)
    (Hpass : refresh_devices env w = Go tt w') :
  exists hints info logical_out raw_out logical_in raw_in,
    name_hints env = Some hints
    /\ ready_devices_info w' = Some info
    /\ output_devices info = logical_out ++ raw_out
    /\ input_devices info = logical_in ++ raw_in
    /\ Forall (from_hint hints) logical_out
    /\ Forall (from_hint hints) logical_in
    /\ Forall (fun device => is_raw device = true) raw_out
    /\ Forall (fun device => is_raw device = true) raw_in.
Proof.
  apply refresh_devices_Go in Hpass.
  destruct Hpass as (hints & w1 & info1 & w2 & info2 & w3
                     & Hh & _ & Hloop & Hscan & Hready).
  assert (Hlog : devices_all (from_hint hints) info1).
  { refine (hint_loop_Go_invariant (devices_all (from_hint hints)) env hints _
              hints (incl_refl _) _ _ _ _ (devices_all_created _) Hloop).
    intros hint stream info device Hin Hex Hi Hn Hr _.
    apply devices_all_append; [now apply devices_all_mark_default|].
    split; [exact Hr|]. now exists hint. }
  apply card_loop_raw_extension in Hscan.
  destruct Hscan as (_ & _ & (outs & Houts & Hraw_o) & (ins & Hins & Hraw_i)).
  destruct Hlog as [Hlo Hli].
  exists hints, info2, (output_devices info1), outs, (input_devices info1), ins.
  now repeat split.
Qed.

Lemma default_index_sound_append (initial index : Z)
    (devices : list SoundIoDevice) (device : SoundIoDevice) :
  default_index_sound initial index devices ->
  default_index_sound initial index (devices ++ [device]).
Proof.
  forget_parameters.
  intros [->|(Hpos & d & rest & Hnth & Hn)]; [now left|].
  right. split; [exact Hpos|]. exists d, rest. split; [|exact Hn].
  rewrite nth_error_app1; [exact Hnth|].
  apply nth_error_Some. congruence.
Qed.

Lemma default_index_sound_here (initial : Z) (devices : list SoundIoDevice)
    (device : SoundIoDevice) (rest : string) :
  name device = ("default:" ++ rest)%string ->
  default_index_sound initial (Z.of_nat (List.length devices)) (devices ++ [device]).
Proof.
  forget_parameters.
  intros Hn. right. split; [lia|]. exists device, rest. split; [|exact Hn].
  rewrite Nat2Z.id, nth_error_app2, Nat.sub_diag by lia. reflexivity.
Qed.

(** X9.  In a published snapshot the default index of a list is either
    what it was in the freshly created snapshot, or the position of a
    descriptor of that list whose name starts with "default:"; the
    pass never leaves it pointing elsewhere. *)
Theorem published_default_index_sound
    (env : PassAnswers) (w w' : World)
    (Hpass : refresh_devices env w = Go tt w') :
  exists info,
    ready_devices_info w' = Some info
    /\ default_index_sound created_default_output_index
         (default_output_index info) (output_devices info)
    /\ default_index_sound created_default_input_index
         (default_input_index info) (input_devices info).
Proof.
  pose proof (refresh_devices_outcome
                (fun info =>
                   default_index_sound created_default_output_index
                     (default_output_index info) (output_devices info)
                   /\ default_index_sound created_default_input_index
                        (default_input_index info) (input_devices info))) as H.
  assert (Hhint : forall nm stream info device,
            (default_index_sound created_default_output_index
               (default_output_index info) (output_devices info)
             /\ default_index_sound created_default_input_index
                  (default_input_index info) (input_devices info)) ->
            excluded_name nm = false ->
            name device = nm -> is_raw device = false ->
            purpose device = stream_purpose stream ->
            default_index_sound created_default_output_index
              (default_output_index
                 (append_device stream (mark_default nm stream info) device))
              (output_devices
                 (append_device stream (mark_default nm stream info) device))
            /\ default_index_sound created_default_input_index
                 (default_input_index
                    (append_device stream (mark_default nm stream info) device))
                 (input_devices
                    (append_device stream (mark_default nm stream info) device))).
  { intros nm stream info device [Ho Hi] _ Hn _ _. unfold mark_default.
    destruct (str_has_prefix nm "default:") eqn:Hp.
    - apply str_has_prefix_iff in Hp. destruct Hp as [rest Hrest].
      rewrite <- Hn in Hrest.
      destruct stream; cbn; split; try assumption;
        now apply default_index_sound_here with (rest := rest).
    - destruct stream; cbn; split; try assumption;
        now apply default_index_sound_append. }
  assert (Hraw : forall card_index device_index stream info device,
            (default_index_sound created_default_output_index
               (default_output_index info) (output_devices info)
             /\ default_index_sound created_default_input_index
                  (default_input_index info) (input_devices info)) ->
            name device
            = ("hw:" ++ sprintf_d card_index ++ "," ++ sprintf_d device_index)%string ->
            is_raw device = true -> purpose device = stream_purpose stream ->
            default_index_sound created_default_output_index
              (default_output_index (append_device stream info device))
              (output_devices (append_device stream info device))
            /\ default_index_sound created_default_input_index
                 (default_input_index (append_device stream info device))
                 (input_devices (append_device stream info device))).
  { intros c d stream info device [Ho Hi] _ _ _.
    destruct stream; cbn; split; try assumption;
      now apply default_index_sound_append. }
  specialize (H Hhint Hraw env w). rewrite Hpass in H.
  destruct H as (info & Hready & Hinv & _); [split; now left|].
  now exists info.
Qed.



Lemma returns_only_ret {A : Type} (P : SoundIoError -> Prop) (a : A) :
  returns_only P (ret a).
Proof using Type. intros w. exact Logic.I. Qed.

Lemma returns_only_die {A : Type} (P : SoundIoError -> Prop) (cause : Death) :
  returns_only P (@die A cause).
Proof using Type. intros w. exact Logic.I. Qed.

Lemma returns_only_fail_pass {A : Type} (P : SoundIoError -> Prop)
    (code : SoundIoError) :
  P code -> returns_only P (@fail_pass A code).
Proof using Type. intros H w. exact H. Qed.

Lemma returns_only_bind {A B : Type} (P : SoundIoError -> Prop)
    (m : M A) (f : A -> M B) :
  returns_only P m -> (forall a, returns_only P (f a)) -> returns_only P (bind m f).
Proof using Type.
  intros Hm Hf w. unfold bind. specialize (Hm w).
  destruct (m w) as [a w1|code w1|cause w1]; [apply Hf|exact Hm|exact Logic.I].
Qed.

Lemma returns_only_allocate {A : Type} (P : SoundIoError -> Prop)
    (env : PassAnswers) (f : bool -> M A) :
  (forall b, (b = false -> exists n, alloc_ok env n = false) -> returns_only P (f b)) ->
  returns_only P (bind (allocate env) f).
Proof using Type.
  intros Hf w. unfold bind, allocate.
  apply (Hf (alloc_ok env (allocations w))). intros Hb.
  now exists (allocations w).
Qed.

Lemma returns_only_weaken {A : Type} (P Q : SoundIoError -> Prop) (m : M A) :
  (forall code, P code -> Q code) -> returns_only P m -> returns_only Q m.
Proof using Type.
  intros HPQ Hm w. specialize (Hm w). destruct (m w); try exact Logic.I. now apply HPQ.
Qed.

Lemma returns_only_for_each {A S : Type} (P : SoundIoError -> Prop)
    (body : A -> S -> M S) (l : list A) :
  (forall x s, returns_only P (body x s)) ->
  forall s, returns_only P (for_each body l s).
Proof using Type.
  intros Hbody. induction l as [|x rest IH]; intros s; simpl.
  - apply returns_only_ret.
  - apply returns_only_bind; [apply Hbody|exact IH].
Qed.

Lemma returns_only_probe (P : SoundIoError -> Prop) (env : PassAnswers)
    (device : SoundIoDevice) (maps : option (list snd_pcm_chmap_t)) :
  returns_only P (probe env device maps).
Proof.
  unfold probe. destruct (probe_device _ device maps);
    [apply returns_only_ret|apply returns_only_die].
Qed.

(** The part of the stream loops behind the first allocation: only an
    allocation that fails makes it return, with [SoundIoErrorNoMem]. *)
Lemma returns_only_device_tail (P : SoundIoError -> Prop) (env : PassAnswers)
    (device : SoundIoDevice) (maps : option (list snd_pcm_chmap_t))
    (finish : SoundIoDevice -> SoundIoDevicesInfo) :
  ((exists n, alloc_ok env n = false) -> P SoundIoErrorNoMem) ->
  returns_only P
    (bind (allocate env) (fun device_ok =>
       if negb device_ok then fail_pass SoundIoErrorNoMem
       else
         bind (allocate env) (fun name_ok =>
           bind (allocate env) (fun descr_ok =>
             if negb name_ok || negb descr_ok then fail_pass SoundIoErrorNoMem
             else
               bind (probe env device maps) (fun device' =>
                 bind (allocate env) (fun append_ok =>
                   if negb append_ok then fail_pass SoundIoErrorNoMem
                   else ret (finish device'))))))).
Proof.
  intros HP.
  apply returns_only_allocate. intros [|] H1; cbn [negb];
    [|apply returns_only_fail_pass; auto].
  apply returns_only_allocate. intros name_ok H2.
  apply returns_only_allocate. intros descr_ok H3.
  destruct name_ok, descr_ok; cbn [negb orb];
    try (apply returns_only_fail_pass; auto; fail).
  apply returns_only_bind; [apply returns_only_probe|]. intros device'.
  apply returns_only_allocate. intros [|] H4; cbn [negb];
    [apply returns_only_ret|apply returns_only_fail_pass; auto].
Qed.

(** X11.  When a pass returns an error code, the code is never 0, and
    it tells what happened: [SoundIoErrorNoMem] only if an allocation
    failed or the hint registry could not be read,
    [SoundIoErrorOpeningDevice] only if [snd_ctl_open] failed on a card
    with an error other than [ENOENT], and [SoundIoErrorSystemResources]
    only if [snd_card_next], [snd_ctl_card_info],
    [snd_ctl_pcm_next_device] or [snd_ctl_pcm_info] failed in the raw
    scan.  A probe that fails never makes the pass return: with every
    allocation, the registry and every call of the raw scan succeeding
    the pass returns no error code, whatever the probes answer. *)
Theorem refresh_devices_error_codes
    (env : PassAnswers) (w w' : World) (code : SoundIoError)
    (Hret : refresh_devices env w = Return code w') :
  code <> SoundIoErrorNone
  /\ pass_error_cause env code
  /\ ~ ((forall n, alloc_ok env n = true)
        /\ name_hints env <> None
        /\ ~ some_card_call_fails (cards env)
        /\ ~ some_ctl_open_fails (cards env)).
Proof.
  assert (Hnone : pass_error_cause env code -> code <> SoundIoErrorNone).
  { intros [[-> _]|[[-> _]|[-> _]]]; discriminate. }
  assert (Hclean : pass_error_cause env code ->
                   ~ ((forall n, alloc_ok env n = true)
                      /\ name_hints env <> None
                      /\ ~ some_card_call_fails (cards env)
                      /\ ~ some_ctl_open_fails (cards env))).
  { intros [[_ [[n Hn]|Hh]]|[[_ Hs]|[_ Ho]]] (Ha & Hr & Hc & Hco).
    - rewrite Ha in Hn. discriminate.
    - contradiction.
    - contradiction.
    - contradiction. }
  enough (H : pass_error_cause env code)
    by (split; [now apply Hnone|]; split; [exact H|now apply Hclean]).
  clear Hnone Hclean.
  set (Pmem := fun c => c = SoundIoErrorNoMem /\ exists n, alloc_ok env n = false).
  set (Praw := fun (cause : Prop) c =>
                 Pmem c \/ (c = SoundIoErrorSystemResources /\ cause)).
  assert (Hhint : forall hint info, returns_only Pmem (hint_body env hint info)).
  { intros hint info. unfold hint_body.
    destruct (excluded_name (hint_NAME hint)); [apply returns_only_ret|].
    destruct (hint_DESC hint) as [desc|]; [|apply returns_only_die].
    destruct (str_partition_on_char desc _) as [descr descr1].
    assert (Hs : forall pb cap stream i,
              returns_only Pmem
                (hint_stream env (hint_NAME hint) descr descr1 pb cap stream i)).
    { intros pb cap stream i. unfold hint_stream.
      destruct (negb (is_capture_stream stream) && negb pb); [apply returns_only_ret|].
      destruct (is_capture_stream stream && negb cap); [apply returns_only_ret|].
      destruct (is_capture_stream stream && mentions_output descr1);
        [apply returns_only_ret|].
      apply (returns_only_device_tail Pmem env _ None
               (append_device stream (mark_default (hint_NAME hint) stream i))).
      intros H. now split. }
    destruct (hint_IOID hint) as [io|].
    - destruct (strcmp_eq io "Input"); [apply returns_only_for_each; intros; apply Hs|].
      destruct (strcmp_eq io "Output"); [apply returns_only_for_each; intros; apply Hs|].
      apply returns_only_die.
    - apply returns_only_for_each; intros; apply Hs. }
  assert (Hstream : forall c nm d streams stream i,
            returns_only (Praw (pcm_info (streams stream) = PcmInfoFails))
              (raw_stream env c nm d streams stream i)).
  { intros c nm d streams stream i. unfold raw_stream.
    destruct (pcm_info (streams stream)) as [device_name| |];
      [|apply returns_only_ret|apply returns_only_fail_pass; right; now split].
    apply (returns_only_device_tail _ env _ _ (append_device stream i)).
    intros H. left. now split. }
  assert (Hpcm : forall c nm script i,
            returns_only (Praw (some_pcm_call_fails script))
              (pcm_loop env c nm script i)).
  { intros c nm script. induction script as [| |d streams rest IH]; intros i;
      cbn [pcm_loop].
    - apply returns_only_fail_pass. right. now split.
    - apply returns_only_ret.
    - destruct (Z.ltb_spec d 0) as [Hd|Hd]; [apply returns_only_ret|].
      apply returns_only_bind.
      + apply returns_only_for_each. intros stream i'.
        eapply returns_only_weaken; [|apply Hstream].
        intros code0 [H|[H1 H2]]; [now left|]. right. split; [exact H1|].
        cbn. split; [exact Hd|]. left. now exists stream.
      + intros i'. eapply returns_only_weaken; [|apply IH].
        intros code0 [H|[H1 H2]]; [now left|]. right. split; [exact H1|].
        cbn. split; [exact Hd|]. now right. }
  assert (Hcard : forall script i,
            returns_only (fun c => Praw (some_card_call_fails script) c
                                   \/ (c = SoundIoErrorOpeningDevice
                                       /\ some_ctl_open_fails script))
              (card_loop env script i)).
  { intros script. induction script as [| |c ctl_open card_info pcms rest IH];
      intros i; cbn [card_loop].
    - apply returns_only_fail_pass. left. right. now split.
    - apply returns_only_ret.
    - destruct (Z.ltb_spec c 0) as [Hc|Hc]; [apply returns_only_ret|].
      destruct ctl_open.
      + destruct card_info as [card_name|].
        2:{ apply returns_only_fail_pass. left. right. split; [reflexivity|].
            cbn. split; [exact Hc|]. split; [reflexivity|]. now left. }
        apply returns_only_bind.
        * eapply returns_only_weaken; [|apply Hpcm].
          intros code0 [H|[H1 H2]]; [left; now left|]. left. right.
          split; [exact H1|]. cbn. split; [exact Hc|]. split; [reflexivity|].
          right. now left.
        * intros i'. eapply returns_only_weaken; [|apply IH].
          intros code0 [[H|[H1 H2]]|[H1 H2]].
          -- left. now left.
          -- left. right. split; [exact H1|]. cbn. split; [exact Hc|].
             split; [reflexivity|]. right. now right.
          -- right. split; [exact H1|]. cbn. now right.
      + apply returns_only_ret.
      + apply returns_only_fail_pass. right. split; [reflexivity|]. cbn. now left. }
  revert Hret. unfold refresh_devices, begin_pass. unfold bind at 1 2 3 4.
  cbn [modify allocate].
  destruct (alloc_ok env _) eqn:Halloc; cbn [negb].
  2:{ cbn. intros H; inversion H; subst. left. split; [reflexivity|]. left.
      eexists. exact Halloc. }
  cbn [modify ret].
  destruct (name_hints env) as [hints|] eqn:Hhints.
  2:{ cbn. intros H; inversion H; subst. left. split; [reflexivity|]. now right. }
  unfold bind at 1.
  match goal with
  | |- context [hint_loop env hints ?i ?w1] =>
      pose proof (returns_only_for_each Pmem (hint_body env) hints Hhint i w1) as Hloop;
      unfold hint_loop;
      destruct (for_each (hint_body env) hints i w1) as [info1 w2|c2 w2|c2 w2]
  end.
  - specialize (Hcard (cards env) info1 w2).
    assert (Hfinal : bind (card_loop env (cards env) info1) publish w2
                     = Return code w' -> pass_error_cause env code).
    { unfold bind. destruct (card_loop env (cards env) info1 w2) as [i3 w3|c3 w3|c3 w3].
      - rewrite publish_spec. discriminate.
      - intros H; inversion H; subst.
        destruct Hcard as [[[-> Hn]|[-> Hs]]|[-> Hs]].
        + left. split; [reflexivity|now left].
        + right. left. now split.
        + right. right. now split.
      - discriminate. }
    destruct (cards env) eqn:Hcards; [|exact Hfinal|exact Hfinal].
    intros H; inversion H; subst. right. left. split; [reflexivity|].
    rewrite Hcards. exact Logic.I.
  - intros H; inversion H; subst. destruct Hloop as [-> Hn].
    left. split; [reflexivity|now left].
  - discriminate.
Qed.


Lemma probe_device_same_identity (pcm : PcmAnswers) (device device' : SoundIoDevice)
    (maps : option (list snd_pcm_chmap_t)) (err : SoundIoError)
    (H : probe_device pcm device maps = ProbeRet err device') :
  same_identity device device'.
Proof.
  assert (Hrefl : same_identity device device) by (unfold same_identity; tauto).
  unfold probe_device in H.
  destruct (pcm_open_ok pcm); simpl in H.
  2:{ destruct (handle_channel_maps device maps) eqn:Hm; inversion H; subst.
      now apply handle_channel_maps_same_identity in Hm. }
  destruct (hw_params_any_ok pcm); simpl in H; [|now inversion H; subst].
  destruct (set_rate_resample_ok pcm); simpl in H; [|now inversion H; subst].
  destruct (set_access_ok pcm); simpl in H; [|now inversion H; subst].
  destruct (set_channels_last_ok pcm); simpl in H; [|now inversion H; subst].
  destruct (get_rate_max pcm) as [[queried_max max_dir]|]; [|now inversion H; subst].
  destruct (get_rate_min pcm) as [[queried_min min_dir]|]; [|now inversion H; subst].
  destruct (handle_channel_maps _ _) as [device2|] eqn:Hm; [|discriminate].
  inversion H; subst device'.
  apply handle_channel_maps_same_identity in Hm.
  destruct Hm as ((h1 & h2 & h3 & h4 & h5) & _).
  unfold same_identity. cbn. rewrite h1, h2, h3, h4, h5.
  destruct (get_chmap pcm); now cbn.
Qed.

Lemma pass_step_probe_identity (env : PassAnswers) (device : SoundIoDevice)
    (maps : option (list snd_pcm_chmap_t)) :
  pass_step (same_identity device) (probe env device maps).
Proof.
  unfold probe.
  destruct (probe_device _ device maps) as [err device'|] eqn:H.
  - apply pass_step_ret. eapply probe_device_same_identity; eassumption.
  - apply pass_step_die.
Qed.

(** What one turn of the stream loop of a raw device does to the
    snapshot when it runs on. *)
Lemma raw_stream_result (env : PassAnswers) (card_index : Z) (card_name : string)
    (device_index : Z) (streams : snd_pcm_stream_t -> PcmStreamAnswers)
    (stream : snd_pcm_stream_t) (info : SoundIoDevicesInfo) :
  pass_step
    (fun info' =>
       match pcm_info (streams stream) with
       | PcmInfoOk device_name =>
           exists device,
             info' = append_device stream info device
             /\ same_identity
                  (new_device (hw_name card_index device_index)
                     (card_name ++ " " ++ device_name)%string true
                     (stream_purpose stream))
                  device
       | PcmInfoENOENT => info' = info
       | PcmInfoFails => False
       end)
    (raw_stream env card_index card_name device_index streams stream info).
Proof.
  unfold raw_stream.
  destruct (pcm_info (streams stream)) as [device_name| |];
    [|now apply pass_step_ret|apply pass_step_fail_pass].
  eapply pass_step_bind; [apply pass_step_allocate|]. intros [|] _; simpl;
    [|apply pass_step_fail_pass].
  eapply pass_step_bind; [apply pass_step_allocate|]. intros name_ok _.
  eapply pass_step_bind; [apply pass_step_allocate|]. intros descr_ok _.
  destruct (negb name_ok || negb descr_ok); [apply pass_step_fail_pass|].
  eapply pass_step_bind; [apply pass_step_probe_identity|].
  intros device' Hid.
  eapply pass_step_bind; [apply pass_step_allocate|]. intros [|] _; simpl;
    [|apply pass_step_fail_pass].
  apply pass_step_ret. now exists device'.
Qed.

Lemma filter_raw_of_logical (devices : list SoundIoDevice) :
  Forall (fun device => is_raw device = false) devices ->
  filter is_raw devices = [].
Proof.
  forget_parameters.
  induction 1 as [|d rest Hd _ IH]; [reflexivity|]. simpl. now rewrite Hd.
Qed.

(** X12.  When the raw scan finds one card with one PCM device for
    which the playback direction exists and the capture direction does
    not ([ENOENT]), a completed pass publishes exactly one raw
    descriptor: it is in the output list, named "hw:<card>,<device>",
    described by "<card name> <device name>", with purpose Output and
    reference count 1; the input list has no raw descriptor. *)
Theorem playback_only_raw_device
    (env : PassAnswers) (w w' : World) (card_index device_index : Z)
    (card_name device_name : string)
    (streams : snd_pcm_stream_t -> PcmStreamAnswers)
    (Hcards : cards env
              = CardNextCard card_index CtlOpenOk (Some card_name)
                  (PcmNextDevice device_index streams PcmNextEnd) CardNextEnd)
    (Hcard : 0 <= card_index) (Hdevice : 0 <= device_index)
    (Hplay : pcm_info (streams SND_PCM_STREAM_PLAYBACK) = PcmInfoOk device_name)
    (Hcapt : pcm_info (streams SND_PCM_STREAM_CAPTURE) = PcmInfoENOENT)
    (Hpass : refresh_devices env w = Go tt w') :
  exists info device,
    ready_devices_info w' = Some info
    /\ filter is_raw (output_devices info) = [device]
    /\ filter is_raw (input_devices info) = []
    /\ name device = hw_name card_index device_index
    /\ description device = (card_name ++ " " ++ device_name)%string
    /\ purpose device = SoundIoDevicePurposeOutput
    /\ is_raw device = true
    /\ ref_count device = 1.
Proof.
  apply refresh_devices_Go in Hpass.
  destruct Hpass as (hints & w1 & info1 & w2 & info2 & w3
                     & Hh & _ & Hloop & Hscan & Hready).
  assert (Hlog : devices_all (fun device => is_raw device = false) info1).
  { refine (hint_loop_Go_invariant _ env hints _ hints (incl_refl _) _ _ _ _
              (devices_all_created _) Hloop).
    intros hint stream info device _ _ Hi _ Hr _.
    apply devices_all_append; [now apply devices_all_mark_default|exact Hr]. }
  destruct Hlog as [Hlo Hli].
  rewrite Hcards in Hscan. cbn [card_loop pcm_loop] in Hscan.
  destruct (Z.ltb_spec card_index 0) as [Hc|_]; [lia|].
  destruct (Z.ltb_spec device_index 0) as [Hd|_]; [lia|].
  unfold stream_types in Hscan. cbn [for_each] in Hscan. unfold bind in Hscan.
  destruct (raw_stream env card_index card_name device_index streams
              SND_PCM_STREAM_PLAYBACK info1 w2) as [i2 u2|c2 u2|c2 u2] eqn:Hp;
    [|discriminate|discriminate].
  pose proof (pass_step_Go _ _ _ _ _ (raw_stream_result _ _ _ _ _ _ _) Hp) as Hres.
  cbn beta in Hres. rewrite Hplay in Hres. destruct Hres as (device & -> & Hid).
  unfold raw_stream in Hscan. rewrite Hcapt in Hscan. cbn in Hscan.
  inversion Hscan; subst info2. clear Hscan.
  destruct Hid as (Hn & Hd & Hpu & Hr & Hrc). cbn in Hn, Hd, Hpu, Hr, Hrc.
  exists (append_device SND_PCM_STREAM_PLAYBACK info1 device), device.
  cbn [append_device append_output output_devices input_devices].
  rewrite filter_app, (filter_raw_of_logical (output_devices info1)),
    (filter_raw_of_logical (input_devices info1)) by assumption.
  cbn [filter app]. rewrite Hr.
  split; [exact Hready|]. split; [reflexivity|]. split; [reflexivity|].
  split; [exact Hn|]. split; [exact Hd|]. now repeat split.
Qed.


(** ** Further properties: the watcher thread and the consumer *)

Lemma drain_notify_false_iff (reads : list (list inotify_event)) :
  drain_notify reads false = true
  <-> exists buf event, In buf reads /\ In event buf /\ rescan_event event = true.
Proof.
  forget_parameters. split.
  - intros H. destruct (existsb (existsb rescan_event) reads) eqn:E.
    + apply existsb_exists in E. destruct E as (buf & Hb & E).
      apply existsb_exists in E. destruct E as (event & He & Hq).
      now exists buf, event.
    + rewrite drain_notify_none in H; [discriminate|].
      intros buf event Hb He.
      destruct (rescan_event event) eqn:Hq; [|reflexivity].
      assert (Hex : existsb (existsb rescan_event) reads = true).
      { apply existsb_exists. exists buf. split; [exact Hb|].
        apply existsb_exists. now exists event. }
      congruence.
  - intros (buf & event & Hb & He & Hq). now apply (drain_notify_some _ _ buf event).
Qed.

(** X13.  An iteration of the watcher loop runs a pass exactly when the
    abort flag is still set, [poll] reports at least one ready
    descriptor, and either the wake pipe is readable or the
    notification descriptor is readable and one of the records read
    from it is a qualifying change; otherwise it runs none.  So a
    cleared abort flag, a failing or empty [poll] and pure noise all
    leave the inventory alone, while a byte in the wake pipe forces a
    rescan whatever the notifications say. *)
Theorem watcher_runs_pass_iff (wake : Wake) (w : World) :
  (refresh_devices_calls (loop_world (device_thread_iteration wake w))
   = S (refresh_devices_calls w)
   <-> abort_flag w = true
       /\ 0 < poll_num wake
       /\ (Z.testbit (pipe_revents wake) 0 = true
           \/ (Z.testbit (notify_revents wake) 0 = true
               /\ exists buf event,
                    In buf (notify_reads wake) /\ In event buf
                    /\ qualifying_change event)))
  /\ (refresh_devices_calls (loop_world (device_thread_iteration wake w))
      = S (refresh_devices_calls w)
      \/ refresh_devices_calls (loop_world (device_thread_iteration wake w))
         = refresh_devices_calls w).
Proof.
  rewrite device_thread_iteration_calls.
  assert (Hgot : got_rescan_event wake = true
                 <-> Z.testbit (pipe_revents wake) 0 = true
                     \/ (Z.testbit (notify_revents wake) 0 = true
                         /\ exists buf event,
                              In buf (notify_reads wake) /\ In event buf
                              /\ qualifying_change event)).
  { unfold got_rescan_event. rewrite !land_POLLIN, !negb_involutive.
    destruct (Z.testbit (pipe_revents wake) 0); [split; [now left|reflexivity]|].
    destruct (Z.testbit (notify_revents wake) 0).
    - rewrite drain_notify_false_iff. split.
      + intros (buf & event & Hb & He & Hq). right. split; [reflexivity|].
        exists buf, event. split; [exact Hb|]. split; [exact He|].
        now apply rescan_event_iff.
      + intros [H|(_ & buf & event & Hb & He & Hq)]; [discriminate|].
        exists buf, event. split; [exact Hb|]. split; [exact He|].
        now apply rescan_event_iff.
    - split; [discriminate|]. intros [H|(H & _)]; discriminate. }
  split.
  - destruct (abort_flag w); cbn [andb].
    2:{ split; [intros H; exfalso; clear -H; lia|intros (H & _); discriminate]. }
    destruct (Z.leb_spec (poll_num wake) 0) as [Hp|Hp]; cbn [negb andb].
    { split; [intros H; exfalso; clear -H; lia|intros (_ & H & _); lia]. }
    destruct (got_rescan_event wake).
    + split; [intros _|reflexivity]. split; [reflexivity|]. split; [exact Hp|].
      now apply Hgot.
    + split; [intros H; exfalso; clear -H; lia|].
      intros (_ & _ & H). apply Hgot in H. discriminate.
  - destruct (_ && _ && _); [now left|now right].
Qed.

Lemma iteration_survives (wake : Wake) (w w' : World) :
  device_thread_iteration wake w = Continue w'
  \/ device_thread_iteration wake w = Break w' ->
  abort_flag w' = true
  /\ safe_devices_info w' = safe_devices_info w
  /\ on_devices_change_calls w' = on_devices_change_calls w
  /\ (cond_signals w' + refresh_devices_calls w
      = cond_signals w + refresh_devices_calls w')%nat
  /\ (refresh_devices_calls w <= refresh_devices_calls w')%nat
  /\ ((refresh_devices_calls w < refresh_devices_calls w')%nat ->
      ready_devices_info w' <> None /\ have_devices_flag w' = true)
  /\ (refresh_devices_calls w' = refresh_devices_calls w ->
      ready_devices_info w' = ready_devices_info w
      /\ have_devices_flag w' = have_devices_flag w).
Proof.
  unfold device_thread_iteration.
  assert (Hsame : abort_flag (with_abort_flag w true) = true
    /\ safe_devices_info (with_abort_flag w true) = safe_devices_info w
    /\ on_devices_change_calls (with_abort_flag w true) = on_devices_change_calls w
    /\ (cond_signals (with_abort_flag w true) + refresh_devices_calls w
        = cond_signals w + refresh_devices_calls (with_abort_flag w true))%nat
    /\ (refresh_devices_calls w <= refresh_devices_calls (with_abort_flag w true))%nat
    /\ ((refresh_devices_calls w < refresh_devices_calls (with_abort_flag w true))%nat ->
        ready_devices_info (with_abort_flag w true) <> None
        /\ have_devices_flag (with_abort_flag w true) = true)
    /\ (refresh_devices_calls (with_abort_flag w true) = refresh_devices_calls w ->
        ready_devices_info (with_abort_flag w true) = ready_devices_info w
        /\ have_devices_flag (with_abort_flag w true) = have_devices_flag w)).
  { cbn. repeat split; lia. }
  destruct (abort_flag w); cbn [negb].
  2:{ intros [H|H]; inversion H; subst; exact Hsame. }
  destruct (poll_num wake =? -1).
  { destruct (poll_errno wake); intros [H|H]; inversion H; subst; exact Hsame. }
  destruct (poll_num wake <=? 0).
  { intros [H|H]; inversion H; subst; exact Hsame. }
  destruct (got_rescan_event wake).
  2:{ intros [H|H]; inversion H; subst; exact Hsame. }
  pose proof (refresh_devices_outcome (fun _ => True)
                (fun _ _ _ _ _ _ _ _ _ => Logic.I) (fun _ _ _ _ _ _ _ _ _ => Logic.I)
                (pass_answers wake) (with_abort_flag w true) Logic.I) as Hout.
  destruct (refresh_devices (pass_answers wake) (with_abort_flag w true))
    as [u w2|c w2|c w2]; intros [H|H]; inversion H; subst.
  destruct Hout as (info & Hready & _ & Hflag & Hsig & Habort & Hsafe & Hcalls & Hn & _).
  cbn in Hsig, Habort, Hsafe, Hcalls, Hn. rewrite Hready.
  repeat split; try assumption; try lia; try discriminate;
    intros Heq; exfalso; lia.
Qed.

Lemma run_survives (wakes : list Wake) :
  forall w w',
    device_thread_run wakes w = Continue w'
    \/ device_thread_run wakes w = Break w' ->
    safe_devices_info w' = safe_devices_info w
    /\ on_devices_change_calls w' = on_devices_change_calls w
    /\ (cond_signals w' + refresh_devices_calls w
        = cond_signals w + refresh_devices_calls w')%nat
    /\ (refresh_devices_calls w <= refresh_devices_calls w')%nat
    /\ ((refresh_devices_calls w < refresh_devices_calls w')%nat ->
        ready_devices_info w' <> None /\ have_devices_flag w' = true)
    /\ (refresh_devices_calls w' = refresh_devices_calls w ->
        ready_devices_info w' = ready_devices_info w
        /\ have_devices_flag w' = have_devices_flag w).
Proof.
  induction wakes as [|wake rest IH]; intros w w' Hrun; cbn [device_thread_run] in Hrun.
  - destruct Hrun as [H|H]; [|discriminate]. inversion H; subst.
    repeat split; lia.
  - destruct (device_thread_iteration wake w) as [w1|w1|c w1] eqn:Hit.
    + pose proof (iteration_survives wake w w1 (or_introl Hit))
        as (_ & Hs & Hc & Hsig & Hle & Hpub & Hkeep).
      destruct (IH w1 w' Hrun) as (Hs2 & Hc2 & Hsig2 & Hle2 & Hpub2 & Hkeep2).
      split; [congruence|]. split; [congruence|]. split; [lia|]. split; [lia|].
      split.
      * intros Hlt.
        destruct (Nat.eq_dec (refresh_devices_calls w') (refresh_devices_calls w1))
          as [Heq|Hne].
        -- destruct (Hkeep2 Heq) as [Hr Hf]. rewrite Hr, Hf. apply Hpub. lia.
        -- apply Hpub2. lia.
      * intros Heq.
        destruct (Hkeep2 ltac:(lia)) as [Hr Hf].
        destruct (Hkeep ltac:(lia)) as [Hr1 Hf1]. split; congruence.
    + destruct Hrun as [H|H]; [discriminate|]. inversion H; subst.
      pose proof (iteration_survives wake w w' (or_intror Hit))
        as (_ & Hs & Hc & Hsig & Hle & Hpub & Hkeep).
      split; [exact Hs|]. split; [exact Hc|]. split; [exact Hsig|].
      split; [exact Hle|]. split; [exact Hpub|exact Hkeep].
    + destruct Hrun as [H|H]; discriminate.
Qed.

(** X14.  As long as the watcher thread has not died, every pass it has
    run has published: the condition variable was signalled once per
    pass, the slot is filled and the have-devices flag set as soon as
    one pass has run, and the thread has neither touched the consumer's
    current inventory nor called the device-change callback. *)
Theorem watcher_alive_has_published (wakes : list Wake) :
  forall w w',
    device_thread_run wakes w = Continue w'
    \/ device_thread_run wakes w = Break w' ->
    safe_devices_info w' = safe_devices_info w
    /\ on_devices_change_calls w' = on_devices_change_calls w
    /\ (cond_signals w' + refresh_devices_calls w
        = cond_signals w + refresh_devices_calls w')%nat
    /\ ((refresh_devices_calls w < refresh_devices_calls w')%nat ->
        ready_devices_info w' <> None /\ have_devices_flag w' = true).
Proof.
  intros w w' Hrun.
  destruct (run_survives wakes w w' Hrun) as (Hs & Hc & Hsig & _ & Hpub & _).
  split; [exact Hs|]. split; [exact Hc|]. split; [exact Hsig|exact Hpub].
Qed.


(** What a call of [flush_events] that finds a snapshot does. *)
Lemma flush_events_claims (w : World) (info : SoundIoDevicesInfo) :
  have_devices_flag w = true -> ready_devices_info w = Some info ->
  exists w',
    flush_events w = Returns w'
    /\ ready_devices_info w' = None
    /\ safe_devices_info w' = Some info
    /\ have_devices_flag w' = true
    /\ on_devices_change_calls w' = S (on_devices_change_calls w)
    /\ cond_signals w' = cond_signals w
    /\ live_devices_info w'
       = match safe_devices_info w with
         | Some _ => Nat.pred (live_devices_info w)
         | None => live_devices_info w
         end.
Proof.
  forget_parameters.
  intros Hflag Hready. unfold flush_events, block_until_have_devices.
  rewrite Hflag, Hready.
  destruct (safe_devices_info w); eexists; (split; [reflexivity|]); cbn;
    now repeat split.
Qed.

(** X15.  After a pass that returned 0, the next [flush_events] returns
    without waiting, makes the published snapshot the current inventory,
    empties the slot and calls the device-change callback exactly once;
    a further [flush_events] changes nothing.  When the slot was empty
    before the pass and the consumer had an inventory, the cycle of
    pass and flush leaves the number of live snapshots as it was. *)
Theorem publish_then_flush_delivers
    (env : PassAnswers) (w w1 : World)
    (Hpass : refresh_devices env w = Go tt w1) :
  exists info w2,
    ready_devices_info w1 = Some info
    /\ flush_events w1 = Returns w2
    /\ safe_devices_info w2 = Some info
    /\ ready_devices_info w2 = None
    /\ on_devices_change_calls w2 = S (on_devices_change_calls w)
    /\ flush_events w2 = Returns w2
    /\ (ready_devices_info w = None -> safe_devices_info w <> None ->
        live_devices_info w2 = live_devices_info w).
Proof.
  pose proof (refresh_devices_outcome (fun _ => True)
                (fun _ _ _ _ _ _ _ _ _ => Logic.I) (fun _ _ _ _ _ _ _ _ _ => Logic.I)
                env w Logic.I) as H.
  rewrite Hpass in H.
  destruct H as (info & Hready & _ & Hflag & _ & _ & Hsafe & Hcalls & _ & Hlive).
  destruct (flush_events_claims w1 info Hflag Hready)
    as (w2 & Hflush & Hr2 & Hs2 & Hf2 & Hc2 & _ & Hl2).
  exists info, w2. split; [exact Hready|]. split; [exact Hflush|].
  split; [exact Hs2|]. split; [exact Hr2|]. split; [congruence|]. split.
  - unfold flush_events, block_until_have_devices. now rewrite Hf2, Hr2.
  - intros Hempty Hcur. rewrite Hl2, Hsafe, Hlive, Hempty.
    destruct (safe_devices_info w); [reflexivity|contradiction].
Qed.


(** X17.  The have-devices flag is never cleared and the slot is filled
    only while the flag is set: both hold after [refresh_devices]
    however it ends, after [flush_events] and after any run of the
    watcher thread, if they held before.  So [flush_events] never waits
    while a snapshot is in the slot. *)
Theorem flag_is_monotone :
  (forall env w,
      (have_devices_flag w = true ->
       have_devices_flag (world_of (refresh_devices env w)) = true)
      /\ (slot_implies_flag w ->
          slot_implies_flag (world_of (refresh_devices env w))))
  /\ (forall w,
        (have_devices_flag w = true ->
         have_devices_flag (call_world (flush_events w)) = true)
        /\ (slot_implies_flag w ->
            slot_implies_flag (call_world (flush_events w))))
  /\ (forall wakes w,
        (have_devices_flag w = true ->
         have_devices_flag (loop_world (device_thread_run wakes w)) = true)
        /\ (slot_implies_flag w ->
            slot_implies_flag (loop_world (device_thread_run wakes w))))
  /\ (forall w,
        slot_implies_flag w -> ready_devices_info w <> None ->
        exists w', flush_events w = Returns w').
Proof.
  assert (Hpass : forall env w,
    (have_devices_flag w = true ->
     have_devices_flag (world_of (refresh_devices env w)) = true)
    /\ (slot_implies_flag w ->
        slot_implies_flag (world_of (refresh_devices env w)))).
  { intros env w.
    pose proof (refresh_devices_outcome (fun _ => True)
                  (fun _ _ _ _ _ _ _ _ _ => Logic.I) (fun _ _ _ _ _ _ _ _ _ => Logic.I)
                  env w Logic.I) as H.
    unfold slot_implies_flag.
    destruct (refresh_devices env w) as [u w'|c w'|c w']; cbn [world_of].
    - destruct H as (info & _ & _ & Hflag & _). now split.
    - destruct H as ((Hr & Hf & _) & _). cbn in Hr, Hf. rewrite Hr, Hf. now split.
    - destruct H as (Hr & Hf & _). cbn in Hr, Hf. rewrite Hr, Hf. now split. }
  assert (Hflush : forall w,
    (have_devices_flag w = true ->
     have_devices_flag (call_world (flush_events w)) = true)
    /\ (slot_implies_flag w -> slot_implies_flag (call_world (flush_events w)))).
  { intros w. unfold slot_implies_flag, flush_events, block_until_have_devices.
    destruct (have_devices_flag w) eqn:Hf; [|cbn; rewrite Hf; now split].
    destruct (ready_devices_info w) eqn:Hr; [|cbn; rewrite Hf, Hr; now split].
    destruct (safe_devices_info w); cbn; rewrite ?Hf; now split. }
  assert (Hiter : forall wake w,
    (have_devices_flag w = true ->
     have_devices_flag (loop_world (device_thread_iteration wake w)) = true)
    /\ (slot_implies_flag w ->
        slot_implies_flag (loop_world (device_thread_iteration wake w)))).
  { intros wake w. unfold device_thread_iteration.
    assert (Hsame : (have_devices_flag w = true ->
                     have_devices_flag (with_abort_flag w true) = true)
                    /\ (slot_implies_flag w ->
                        slot_implies_flag (with_abort_flag w true)))
      by (unfold slot_implies_flag; now cbn).
    destruct (abort_flag w); cbn [negb]; [|exact Hsame].
    destruct (poll_num wake =? -1); [destruct (poll_errno wake); exact Hsame|].
    destruct (poll_num wake <=? 0); [exact Hsame|].
    destruct (got_rescan_event wake); [|exact Hsame].
    destruct (Hpass (pass_answers wake) (with_abort_flag w true)) as [H1 H2].
    destruct Hsame as [S1 S2].
    destruct (refresh_devices _ _); cbn [world_of loop_world] in *; split; auto. }
  split; [exact Hpass|]. split; [exact Hflush|]. split.
  - intros wakes. induction wakes as [|wake rest IH]; intros w;
      cbn [device_thread_run]; [now split|].
    destruct (Hiter wake w) as [H1 H2].
    destruct (device_thread_iteration wake w) as [w1|w1|c w1];
      cbn [loop_world] in *; [|now split|now split].
    destruct (IH w1) as [I1 I2]. split; auto.
  - intros w Hinv Hready. unfold flush_events, block_until_have_devices.
    rewrite (Hinv Hready). destruct (ready_devices_info w); eexists; reflexivity.
Qed.


(** ** Further properties: set-up and tear-down *)

Lemma wakeup_device_poll_spec (result : WriteResult) (b : Backend) :
  (write_accepted result ->
   exists b', wakeup_device_poll result b = Some b'
              /\ backend_data b' = backend_data b
              /\ dispatch_installed b' = dispatch_installed b
              /\ world b' = world b
              /\ os_mutexes b' = os_mutexes b /\ os_conds b' = os_conds b
              /\ os_threads b' = os_threads b /\ closed_fds b' = closed_fds b
              /\ pipe_written b' = pipe_written b + bytes_written result)
  /\ (~ write_accepted result -> wakeup_device_poll result b = None).
Proof.
  forget_parameters. clear.
  destruct result as [amt|[]]; cbn; split; intros H;
    try contradiction; try (exfalso; now apply H); try reflexivity;
    eexists; (split; [reflexivity|]); cbn; repeat split; lia.
Qed.

Lemma write_accepted_dec (result : WriteResult) :
  write_accepted result \/ ~ write_accepted result.
Proof.
  forget_parameters. clear.
  destruct result as [amt|[]]; cbn; tauto.
Qed.

(** When the set-up returns 0 and what it has built then. *)
Lemma soundio_alsa_init_zero
    (answers : InitAnswers) (b : Backend)
    (Hfresh : backend_data b = None) :
  ((exists b', soundio_alsa_init answers b = InitRet SoundIoErrorNone b')
   <-> all_init_calls_succeed answers /\ write_accepted (wakeup_write answers))
  /\ (forall b',
        soundio_alsa_init answers b = InitRet SoundIoErrorNone b' ->
        backend_data b'
        = Some {| mutex := true; cond := true; thread := true;
                  notify_fd := inotify_init1_fd answers;
                  notify_wd := inotify_add_watch_wd answers;
                  notify_pipe_fd := pipe2_fds answers |}
        /\ dispatch_installed b' = true
        /\ have_devices_flag (world b') = false
        /\ abort_flag (world b') = true
        /\ ready_devices_info (world b') = ready_devices_info (world b)
        /\ os_mutexes b' = S (os_mutexes b)
        /\ os_conds b' = S (os_conds b)
        /\ os_threads b' = S (os_threads b)
        /\ closed_fds b' = closed_fds b
        /\ pipe_written b' = pipe_written b + bytes_written (wakeup_write answers)).
Proof.
  assert (Hret : forall e bb bb',
            teardown_and_return answers e bb = InitRet SoundIoErrorNone bb' ->
            e = SoundIoErrorNone).
  { intros e bb bb'. unfold teardown_and_return.
    destruct (destroy_alsa _ bb); intros H; now inversion H. }
  unfold soundio_alsa_init, all_init_calls_succeed. rewrite Hfresh.
  destruct (create_ok answers); cbn [negb].
  2:{ split; [split|].
      - intros (b' & H). apply Hret in H. discriminate.
      - intros ((H & _) & _). discriminate.
      - intros b' H. apply Hret in H. discriminate. }
  destruct (mutex_ok answers); cbn [negb].
  2:{ split; [split|].
      - intros (b' & H). apply Hret in H. discriminate.
      - intros ((_ & H & _) & _). discriminate.
      - intros b' H. apply Hret in H. discriminate. }
  destruct (cond_ok answers); cbn [negb].
  2:{ split; [split|].
      - intros (b' & H). apply Hret in H. discriminate.
      - intros ((_ & _ & H & _) & _). discriminate.
      - intros b' H. apply Hret in H. discriminate. }
  cbv zeta.
  destruct (Z.eqb_spec (inotify_init1_fd answers) (-1)) as [Hfd|Hfd].
  { split; [split|].
    - intros (b' & H).
      destruct (inotify_init1_errno answers);
        try discriminate H; try (apply Hret in H; discriminate H);
        destruct (destroy_alsa _ _); discriminate H.
    - intros ((_ & _ & _ & H & _) & _). contradiction.
    - intros b' H.
      destruct (inotify_init1_errno answers);
        try discriminate H; try (apply Hret in H; discriminate H);
        destruct (destroy_alsa _ _); discriminate H. }
  destruct (Z.eqb_spec (inotify_add_watch_wd answers) (-1)) as [Hwd|Hwd].
  { split; [split|].
    - intros (b' & H).
      destruct (inotify_add_watch_errno answers);
        try discriminate H; try (apply Hret in H; discriminate H);
        destruct (destroy_alsa _ _); discriminate H.
    - intros ((_ & _ & _ & _ & H & _) & _). contradiction.
    - intros b' H.
      destruct (inotify_add_watch_errno answers);
        try discriminate H; try (apply Hret in H; discriminate H);
        destruct (destroy_alsa _ _); discriminate H. }
  destruct (Z.eqb_spec (pipe2_result answers) 0) as [Hpipe|Hpipe]; cbn [negb].
  2:{ split; [split|].
      - intros (b' & H). destruct (pipe2_errno answers); discriminate H.
      - intros ((_ & _ & _ & _ & _ & H & _) & _). contradiction.
      - intros b' H. destruct (pipe2_errno answers); discriminate H. }
  match goal with
  | |- context [wakeup_device_poll ?r ?bb] =>
      destruct (wakeup_device_poll_spec r bb) as [Hacc Hrej]
  end.
  destruct (write_accepted_dec (wakeup_write answers)) as [Hw|Hw].
  - destruct (Hacc Hw) as (b4 & -> & _ & Hd & Hwo & Hm & Hc & Ht & Hcl & Hp).
    cbn in Hd, Hwo, Hm, Hc, Ht, Hcl, Hp.
    destruct (thread_create_err answers) eqn:Herr.
    + split; [split|].
      * intros _. now repeat split.
      * intros _. eexists. reflexivity.
      * intros b' H. inversion H; subst b'. cbn.
        rewrite Hwo, Hm, Hc, Ht, Hcl, Hp. cbn. now repeat split.
    + split; [split|].
      * intros (b' & H). apply Hret in H. discriminate.
      * intros ((_ & _ & _ & _ & _ & _ & H) & _). discriminate.
      * intros b' H. apply Hret in H. discriminate.
    + split; [split|].
      * intros (b' & H). apply Hret in H. discriminate.
      * intros ((_ & _ & _ & _ & _ & _ & H) & _). discriminate.
      * intros b' H. apply Hret in H. discriminate.
    + split; [split|].
      * intros (b' & H). apply Hret in H. discriminate.
      * intros ((_ & _ & _ & _ & _ & _ & H) & _). discriminate.
      * intros b' H. apply Hret in H. discriminate.
  - rewrite (Hrej Hw). split; [split|].
    + intros (b' & H). discriminate.
    + intros (_ & H). contradiction.
    + intros b' H. discriminate.
Qed.

Lemma destroy_alsa_without_thread (write : WriteResult) (b : Backend)
    (sia : SoundIoAlsa) :
  backend_data b = Some sia -> thread sia = false ->
  exists b',
    destroy_alsa write b = Some b'
    /\ backend_data b' = None
    /\ dispatch_installed b' = dispatch_installed b
    /\ os_mutexes b' = (if mutex sia then Nat.pred (os_mutexes b) else os_mutexes b)
    /\ os_conds b' = (if cond sia then Nat.pred (os_conds b) else os_conds b)
    /\ os_threads b' = os_threads b
    /\ pipe_written b' = pipe_written b
    /\ closed_fds b'
       = closed_fds b ++ [fst (notify_pipe_fd sia); snd (notify_pipe_fd sia);
                          notify_fd sia].
Proof.
  intros Hdata Hthread. unfold destroy_alsa. rewrite Hdata, Hthread.
  eexists. split; [reflexivity|]. cbn. now repeat split.
Qed.

(** X18.  [soundio_alsa_init] on a context without backend returns 0
    exactly when [create], both OS object creations, [inotify_init1],
    [inotify_add_watch], [pipe2] and the thread creation all succeed and
    the wake-up write trips no assertion.  The backend then holds the
    mutex, the condition variable, the thread and the descriptors as
    answered, the dispatch table is installed and nothing was closed.
    Of the shared state the set-up itself has cleared the have-devices
    flag and set the abort flag and left the slot alone; what the
    thread it has started does from there is [device_thread_run]'s.
    The byte of the wake-up is written before the thread is created:
    when the write trips an assertion the process stops with no thread
    created, whatever the thread creation would answer, and when the
    thread creation fails the byte is in the pipe already. *)
Theorem soundio_alsa_init_success
    (answers : InitAnswers) (b : Backend)
    (Hfresh : backend_data b = None) :
  ((exists b', soundio_alsa_init answers b = InitRet SoundIoErrorNone b')
   <-> all_init_calls_succeed answers /\ write_accepted (wakeup_write answers))
  /\ (forall b',
        soundio_alsa_init answers b = InitRet SoundIoErrorNone b' ->
        backend_data b'
        = Some {| mutex := true; cond := true; thread := true;
                  notify_fd := inotify_init1_fd answers;
                  notify_wd := inotify_add_watch_wd answers;
                  notify_pipe_fd := pipe2_fds answers |}
        /\ dispatch_installed b' = true
        /\ have_devices_flag (world b') = false
        /\ abort_flag (world b') = true
        /\ ready_devices_info (world b') = ready_devices_info (world b)
        /\ os_mutexes b' = S (os_mutexes b)
        /\ os_conds b' = S (os_conds b)
        /\ os_threads b' = S (os_threads b)
        /\ closed_fds b' = closed_fds b
        /\ pipe_written b' = pipe_written b + bytes_written (wakeup_write answers))
  /\ (calls_before_wakeup_succeed answers ->
      ~ write_accepted (wakeup_write answers) ->
      exists b',
        soundio_alsa_init answers b = InitDead assertion_failed b'
        /\ os_threads b' = os_threads b
        /\ dispatch_installed b' = dispatch_installed b)
  /\ (calls_before_wakeup_succeed answers ->
      write_accepted (wakeup_write answers) ->
      thread_create_err answers <> SoundIoErrorNone ->
      thread created_alsa = false ->
      exists b',
        soundio_alsa_init answers b = InitRet (thread_create_err answers) b'
        /\ pipe_written b'
           = pipe_written b + bytes_written (wakeup_write answers)
        /\ os_threads b' = os_threads b
        /\ dispatch_installed b' = dispatch_installed b).
Proof.
  destruct (soundio_alsa_init_zero answers b Hfresh) as [Hzero Hstate].
  split; [exact Hzero|]. split; [exact Hstate|]. clear Hzero Hstate.
  assert (Hupto : calls_before_wakeup_succeed answers ->
            exists b3,
              backend_data b3
              = Some {| mutex := true; cond := true; thread := thread created_alsa;
                        notify_fd := inotify_init1_fd answers;
                        notify_wd := inotify_add_watch_wd answers;
                        notify_pipe_fd := pipe2_fds answers |}
              /\ os_threads b3 = os_threads b
              /\ dispatch_installed b3 = dispatch_installed b
              /\ pipe_written b3 = pipe_written b
              /\ soundio_alsa_init answers b
                 = match wakeup_device_poll (wakeup_write answers) b3 with
                   | None => InitDead assertion_failed b3
                   | Some b4 =>
                       match thread_create_err answers with
                       | SoundIoErrorNone =>
                           InitRet SoundIoErrorNone
                             {| backend_data :=
                                  Some {| mutex := true; cond := true; thread := true;
                                          notify_fd := inotify_init1_fd answers;
                                          notify_wd := inotify_add_watch_wd answers;
                                          notify_pipe_fd := pipe2_fds answers |};
                                dispatch_installed := true;
                                world := world b4; os_mutexes := os_mutexes b4;
                                os_conds := os_conds b4;
                                os_threads := S (os_threads b4);
                                closed_fds := closed_fds b4;
                                pipe_written := pipe_written b4 |}
                       | err => teardown_and_return answers err b4
                       end
                   end).
  { intros (Hcreate & Hmutex & Hcond & Hfd & Hwd & Hpipe).
    unfold soundio_alsa_init.
    rewrite Hfresh, Hcreate, Hmutex, Hcond, Hpipe. cbn [negb]. cbv zeta.
    destruct (Z.eqb_spec (inotify_init1_fd answers) (-1)); [contradiction|].
    destruct (Z.eqb_spec (inotify_add_watch_wd answers) (-1)); [contradiction|].
    cbn [Z.eqb negb].
    eexists. split; [|split; [|split; [|split; [|reflexivity]]]]; reflexivity. }
  split.
  - intros Hcalls Hw.
    destruct (Hupto Hcalls) as (b3 & _ & Ht & Hd & _ & ->).
    rewrite (proj2 (wakeup_device_poll_spec (wakeup_write answers) b3) Hw).
    exists b3. split; [reflexivity|]. split; [exact Ht|exact Hd].
  - intros Hcalls Hw Herr Hthread.
    destruct (Hupto Hcalls) as (b3 & Hdata & Ht & Hd & Hp & ->).
    destruct (proj1 (wakeup_device_poll_spec (wakeup_write answers) b3) Hw)
      as (b4 & -> & Hdata4 & Hd4 & _ & _ & _ & Ht4 & _ & Hp4).
    rewrite Hdata in Hdata4.
    destruct (destroy_alsa_without_thread (teardown_write answers) b4 _ Hdata4 Hthread)
      as (b5 & Hdestroy & _ & Hd5 & _ & _ & Ht5 & Hp5 & _).
    exists b5.
    assert (Hrun : teardown_and_return answers (thread_create_err answers) b4
                   = InitRet (thread_create_err answers) b5)
      by (unfold teardown_and_return; now rewrite Hdestroy).
    split; [destruct (thread_create_err answers); [contradiction|exact Hrun..]|].
    split; [congruence|]. split; congruence.
Qed.


(** X19.  When [soundio_alsa_init] returns an error code, the code is
    [SoundIoErrorNoMem], [SoundIoErrorSystemResources] or the code of
    the failed thread creation, the dispatch table is not installed and
    no thread is left behind.  If a step other than [pipe2] failed,
    [destroy_alsa] has run: the context has no backend and every mutex
    and condition variable created on the way is destroyed.  If [pipe2]
    failed, the function has returned [SoundIoErrorSystemResources]
    without tearing down: the backend with its mutex, condition variable
    and notification descriptor is still attached. *)
Theorem soundio_alsa_init_failure
    (answers : InitAnswers) (b b' : Backend) (err : SoundIoError)
    (Hfresh : backend_data b = None)
    (Hblank : created_alsa_is_blank)
    (Hret : soundio_alsa_init answers b = InitRet err b')
    (Herr : err <> SoundIoErrorNone) :
  dispatch_installed b' = dispatch_installed b
  /\ os_threads b' = os_threads b
  /\ (err = SoundIoErrorNoMem \/ err = SoundIoErrorSystemResources
      \/ err = thread_create_err answers)
  /\ ((backend_data b' = None
       /\ os_mutexes b' = os_mutexes b /\ os_conds b' = os_conds b)
      \/ (pipe2_result answers <> 0
          /\ err = SoundIoErrorSystemResources
          /\ backend_data b'
             = Some {| mutex := true; cond := true; thread := false;
                       notify_fd := inotify_init1_fd answers;
                       notify_wd := inotify_add_watch_wd answers;
                       notify_pipe_fd := notify_pipe_fd created_alsa |}
          /\ os_mutexes b' = S (os_mutexes b) /\ os_conds b' = S (os_conds b)
          /\ closed_fds b' = closed_fds b)).
Proof.
  destruct Hblank as (Hm0 & Hc0 & Ht0).
  assert (Htear : forall e bb sia,
            backend_data bb = Some sia -> thread sia = false ->
            teardown_and_return answers e bb = InitRet err b' ->
            e = err /\ backend_data b' = None
            /\ dispatch_installed b' = dispatch_installed bb
            /\ os_mutexes b'
               = (if mutex sia then Nat.pred (os_mutexes bb) else os_mutexes bb)
            /\ os_conds b'
               = (if cond sia then Nat.pred (os_conds bb) else os_conds bb)
            /\ os_threads b' = os_threads bb).
  { intros e bb sia Hd Ht. unfold teardown_and_return.
    destruct (destroy_alsa_without_thread (teardown_write answers) bb sia Hd Ht)
      as (b2 & -> & H1 & H2 & H3 & H4 & H5 & _).
    intros H; inversion H; subst. now repeat split. }
  revert Hret. unfold soundio_alsa_init. rewrite Hfresh.
  destruct (create_ok answers); cbn [negb].
  2:{ unfold teardown_and_return, destroy_alsa. rewrite Hfresh.
      intros H; inversion H; subst. repeat split; auto. }
  destruct (mutex_ok answers); cbn [negb].
  2:{ intros H. eapply Htear in H; [|reflexivity|exact Ht0].
      destruct H as (<- & Hd & Hdi & Hmu & Hco & Hth). cbn in Hdi, Hmu, Hco, Hth.
      rewrite Hc0 in Hco. repeat split; auto. }
  destruct (cond_ok answers); cbn [negb].
  2:{ intros H. eapply Htear in H; [|reflexivity|exact Ht0].
      destruct H as (<- & Hd & Hdi & Hmu & Hco & Hth). cbn in Hdi, Hmu, Hco, Hth.
      repeat split; auto. }
  cbv zeta.
  destruct (Z.eqb_spec (inotify_init1_fd answers) (-1)) as [Hfd|Hfd].
  { destruct (inotify_init1_errno answers); intros H;
      try discriminate H;
      try (destruct (destroy_alsa _ _); discriminate H);
      (eapply Htear in H; [|reflexivity|exact Ht0]);
      destruct H as (<- & Hd & Hdi & Hmu & Hco & Hth); cbn in Hdi, Hmu, Hco, Hth;
      repeat split; auto. }
  destruct (Z.eqb_spec (inotify_add_watch_wd answers) (-1)) as [Hwd|Hwd].
  { destruct (inotify_add_watch_errno answers); intros H;
      try discriminate H;
      try (destruct (destroy_alsa _ _); discriminate H);
      (eapply Htear in H; [|reflexivity|exact Ht0]);
      destruct H as (<- & Hd & Hdi & Hmu & Hco & Hth); cbn in Hdi, Hmu, Hco, Hth;
      repeat split; auto. }
  destruct (Z.eqb_spec (pipe2_result answers) 0) as [Hpipe|Hpipe]; cbn [negb].
  2:{ destruct (pipe2_errno answers); intros H; try discriminate H;
        inversion H; subst; cbn; rewrite Ht0;
        (split; [reflexivity|]); (split; [reflexivity|]); (split; [now right; left|]);
        right; now repeat split. }
  match goal with
  | |- context [wakeup_device_poll ?r ?bb] =>
      destruct (wakeup_device_poll_spec r bb) as [Hacc Hrej]
  end.
  destruct (write_accepted_dec (wakeup_write answers)) as [Hw|Hw];
    [|rewrite (Hrej Hw); discriminate].
  destruct (Hacc Hw) as (b4 & -> & Hbd & Hd & Hwo & Hm & Hc & Ht & Hcl & Hp).
  cbn in Hbd, Hd, Hwo, Hm, Hc, Ht, Hcl, Hp.
  destruct (thread_create_err answers) eqn:Hthr; intros H;
    try (inversion H; subst; contradiction);
    (eapply Htear in H; [|exact Hbd|exact Ht0]);
    destruct H as (<- & Hd2 & Hdi & Hmu & Hco & Hth); cbn in Hmu, Hco;
    rewrite Hdi, Hmu, Hco, Hth, Hd, Hm, Hc, Ht;
    repeat split; auto.
Qed.

(** X20.  Tear-down after a successful set-up gives back everything
    the set-up took from the operating system: [destroy_alsa] clears
    the abort flag and writes a wake-up byte, and the watcher iteration
    that finds the flag clear leaves its loop without running a pass,
    whatever [poll] reports; afterwards the context has no backend,
    mutex, condition variable and thread are gone, and exactly the two
    wake-pipe descriptors and the notification descriptor have been
    closed, in that order. *)
Theorem init_then_destroy_releases_all
    (answers : InitAnswers) (b b' : Backend) (write : WriteResult)
    (Hfresh : backend_data b = None)
    (Hinit : soundio_alsa_init answers b = InitRet SoundIoErrorNone b')
    (Hwrite : write_accepted write) :
  (forall wake,
      device_thread_iteration wake (with_abort_flag (world b') false)
      = Break (with_abort_flag (world b') true))
  /\ exists b'',
       destroy_alsa write b' = Some b''
       /\ backend_data b'' = None
       /\ os_mutexes b'' = os_mutexes b
       /\ os_conds b'' = os_conds b
       /\ os_threads b'' = os_threads b
       /\ closed_fds b''
          = closed_fds b ++ [fst (pipe2_fds answers); snd (pipe2_fds answers);
                             inotify_init1_fd answers]
       /\ pipe_written b''
          = pipe_written b + bytes_written (wakeup_write answers)
            + bytes_written write.
Proof.
  split; [intros wake; reflexivity|].
  destruct (soundio_alsa_init_zero answers b Hfresh) as [_ Hstate].
  destruct (Hstate b' Hinit)
    as (Hdata & Hdisp & Hflag & Habort & Hready & Hmu & Hco & Hth & Hcl & Hp).
  unfold destroy_alsa. rewrite Hdata. cbn [thread mutex cond notify_pipe_fd notify_fd].
  match goal with
  | |- context [wakeup_device_poll write ?bb] =>
      destruct (proj1 (wakeup_device_poll_spec write bb) Hwrite)
        as (b1 & -> & _ & _ & Hw1 & Hm1 & Hc1 & Ht1 & Hcl1 & Hp1)
  end.
  cbn in Hw1, Hm1, Hc1, Ht1, Hcl1, Hp1.
  eexists. split; [reflexivity|]. cbn.
  rewrite Hm1, Hc1, Ht1, Hcl1, Hp1, Hmu, Hco, Hth, Hcl, Hp. cbn.
  now repeat split.
Qed.



(** ** Further properties: the descriptors of the hints *)

(** The description the hint loop composes is the joined DESC. *)
Lemma joined_description_of_partition (hint : Hint) (desc : string) :
  hint_DESC hint = Some desc ->
  joined_description hint
    (match snd (str_partition_on_char desc "010"%char) with
     | Some d => (fst (str_partition_on_char desc "010"%char) ++ ": " ++ d)%string
     | None => fst (str_partition_on_char desc "010"%char)
     end).
Proof.
  forget_parameters. intros Hdesc. exists desc. split; [exact Hdesc|].
  pose proof (str_partition_on_char_cut desc "010"%char) as H.
  destruct (str_partition_on_char desc "010"%char) as [head [tail|]];
    cbn [fst snd].
  - destruct H as [Heq Hno]. right. now exists head, tail.
  - destruct H as [-> Hno]. now left.
Qed.

(** One turn of the stream loop of a hint, with everything the turn
    writes into the descriptor. *)
Lemma hint_stream_described (env : PassAnswers) (nm descr : string)
    (descr1 : option string) (is_playback is_capture : bool)
    (stream : snd_pcm_stream_t) (info : SoundIoDevicesInfo) :
  pass_step
    (fun info' =>
       if hint_stream_skips is_playback is_capture descr1 stream
       then info' = info
       else exists device,
              info' = append_device stream (mark_default nm stream info) device
              /\ name device = nm /\ is_raw device = false
              /\ ref_count device = 1
              /\ purpose device = stream_purpose stream
              /\ description device
                 = match descr1 with
                   | Some d => (descr ++ ": " ++ d)%string
                   | None => descr
                   end)
    (hint_stream env nm descr descr1 is_playback is_capture stream info).
Proof.
  unfold hint_stream, hint_stream_skips.
  destruct (negb (is_capture_stream stream) && negb is_playback);
    [now apply pass_step_ret|].
  destruct (is_capture_stream stream && negb is_capture);
    [now apply pass_step_ret|].
  destruct (is_capture_stream stream && mentions_output descr1);
    [now apply pass_step_ret|].
  cbn [orb].
  eapply pass_step_bind; [apply pass_step_allocate|]. intros [|] _; simpl;
    [|apply pass_step_fail_pass].
  eapply pass_step_bind; [apply pass_step_allocate|]. intros name_ok _.
  eapply pass_step_bind; [apply pass_step_allocate|]. intros descr_ok _.
  destruct (negb name_ok || negb descr_ok); [apply pass_step_fail_pass|].
  eapply pass_step_bind; [apply pass_step_probe_identity|].
  intros device' (Hn & Hd & Hp & Hr & Hc).
  eapply pass_step_bind; [apply pass_step_allocate|]. intros [|] _; simpl;
    [|apply pass_step_fail_pass].
  cbn in Hn, Hd, Hp, Hr, Hc. apply pass_step_ret. exists device'.
  split; [reflexivity|]. split; [exact Hn|]. split; [exact Hr|].
  split; [exact Hc|]. split; [exact Hp|exact Hd].
Qed.

(** What the stream loop says about the direction flags. *)
Lemma hint_stream_skips_false (is_playback is_capture : bool)
    (descr1 : option string) (stream : snd_pcm_stream_t) :
  hint_stream_skips is_playback is_capture descr1 stream = false ->
  match stream with
  | SND_PCM_STREAM_PLAYBACK => is_playback = true
  | SND_PCM_STREAM_CAPTURE =>
      is_capture = true /\ mentions_output descr1 = false
  end.
Proof.
  forget_parameters. unfold hint_stream_skips.
  destruct stream, is_playback, is_capture, (mentions_output descr1);
    cbn; intros H; try discriminate; auto.
Qed.

(** The descriptors the body of the hint loop appends for a hint it
    does not skip are written for that hint. *)
Lemma hint_body_described (I : SoundIoDevicesInfo -> Prop)
    (env : PassAnswers) (hint : Hint)
    (info info' : SoundIoDevicesInfo) (w w' : World) :
  (forall stream info device,
      I info -> written_for_hint hint device ->
      I (append_device stream (mark_default (hint_NAME hint) stream info) device)) ->
  excluded_name (hint_NAME hint) = false ->
  I info -> hint_body env hint info w = Go info' w' -> I info'.
Proof.
  intros Happ Hnm Hinfo. unfold hint_body. rewrite Hnm.
  destruct (hint_DESC hint) as [desc|] eqn:Hdesc; [|discriminate].
  pose proof (joined_description_of_partition hint desc Hdesc) as Hjoin.
  assert (Hsec : secondary_text hint
                 = snd (str_partition_on_char desc "010"%char))
    by (unfold secondary_text; now rewrite Hdesc).
  destruct (str_partition_on_char desc _) as [descr descr1].
  cbn [fst snd] in Hjoin, Hsec.
  assert (Hboth : forall is_playback is_capture,
    (is_playback = true ->
     hint_IOID hint = None \/ hint_IOID hint = Some "Output") ->
    (is_capture = true ->
     hint_IOID hint = None \/ hint_IOID hint = Some "Input") ->
    for_each (hint_stream env (hint_NAME hint) descr descr1 is_playback is_capture)
      stream_types info w = Go info' w' -> I info').
  { intros pb cap Hpb Hcap H. apply hint_streams_Go in H.
    destruct H as (info1 & w1 & H1 & H2).
    pose proof (pass_step_Go _ _ _ _ _ (hint_stream_described _ _ _ _ _ _ _ _) H1)
      as R1.
    pose proof (pass_step_Go _ _ _ _ _ (hint_stream_described _ _ _ _ _ _ _ _) H2)
      as R2.
    cbv beta in R1, R2.
    assert (Hi1 : I info1).
    { destruct (hint_stream_skips pb cap descr1 SND_PCM_STREAM_PLAYBACK) eqn:Hs.
      - now subst.
      - apply hint_stream_skips_false in Hs.
        destruct R1 as (d & -> & Hn & Hr & Hc & Hp & Hd).
        apply Happ; [exact Hinfo|].
        split; [exact Hn|]. split; [exact Hr|]. split; [exact Hc|].
        split; [now rewrite Hd|]. rewrite Hp. cbn. now apply Hpb. }
    destruct (hint_stream_skips pb cap descr1 SND_PCM_STREAM_CAPTURE) eqn:Hs.
    - now subst.
    - apply hint_stream_skips_false in Hs. destruct Hs as [Hc1 Hm].
      destruct R2 as (d & -> & Hn & Hr & Hc & Hp & Hd).
      apply Happ; [exact Hi1|].
      split; [exact Hn|]. split; [exact Hr|]. split; [exact Hc|].
      split; [now rewrite Hd|]. rewrite Hp. cbn. rewrite Hsec. split; [now apply Hcap|exact Hm]. }
  destruct (hint_IOID hint) as [io|].
  - unfold strcmp_eq. destruct (String.eqb_spec io "Input") as [->|_].
    + apply Hboth; [discriminate|now right].
    + destruct (String.eqb_spec io "Output") as [->|_]; [|discriminate].
      apply Hboth; [now right|discriminate].
  - apply Hboth; now left.
Qed.

Lemma hint_loop_described (env : PassAnswers) (all_hints : list Hint) :
  forall hints, incl hints all_hints ->
  forall info w info' w',
    devices_all (described_by_hint all_hints) info ->
    hint_loop env hints info w = Go info' w' ->
    devices_all (described_by_hint all_hints) info'.
Proof.
  unfold hint_loop.
  induction hints as [|hint rest IH]; intros Hincl info w info' w' Hinfo Hgo.
  - cbn in Hgo. now inversion Hgo; subst.
  - cbn [for_each] in Hgo. unfold bind in Hgo.
    destruct (hint_body env hint info w) as [info1 w1|c w1|c w1] eqn:Hbody;
      [|discriminate|discriminate].
    apply (IH (fun h Hh => Hincl h (or_intror Hh)) info1 w1 info' w'); [|exact Hgo].
    assert (Hin : In hint all_hints) by (apply Hincl; now left).
    destruct (excluded_name (hint_NAME hint)) eqn:Hex.
    + rewrite hint_body_excluded in Hbody by exact Hex. now inversion Hbody; subst.
    + refine (hint_body_described _ env hint info info1 w w1 _ Hex Hinfo Hbody).
      intros stream i device Hi Hw.
      apply devices_all_append; [now apply devices_all_mark_default|].
      now exists hint.
Qed.

(** X22.  Every logical descriptor of a published snapshot was written
    for a hint of the registry that the hint loop does not skip: it
    bears the hint's NAME, its description is the hint's DESC with the
    first newline replaced by ": " (the DESC itself without a newline),
    its reference count is 1, and its purpose is one the hint's IOID
    allows - an Output descriptor only for an absent IOID or "Output",
    an Input descriptor only for an absent IOID or "Input" and a
    secondary description that mentions no output. *)
Theorem published_logical_described_by_hint
    (env : PassAnswers) (w w' : World)
    (Hpass : refresh_devices env w = Go tt w') :
  exists hints info,
    name_hints env = Some hints
    /\ ready_devices_info w' = Some info
    /\ forall device,
         In device (output_devices info) \/ In device (input_devices info) ->
         is_raw device = false ->
         described_by_hint hints device.
Proof.
  apply refresh_devices_Go in Hpass.
  destruct Hpass as (hints & w1 & info1 & w2 & info2 & w3
                     & Hh & _ & Hloop & Hscan & Hready).
  assert (Hlog : devices_all (described_by_hint hints) info1).
  { exact (hint_loop_described env hints hints (incl_refl _) _ _ _ _
             (devices_all_created _) Hloop). }
  apply card_loop_raw_extension in Hscan.
  destruct Hscan as (_ & _ & (outs & Houts & Hraw_o) & (ins & Hins & Hraw_i)).
  destruct Hlog as [Hlo Hli].
  exists hints, info2. split; [exact Hh|]. split; [exact Hready|].
  intros device Hin Hraw.
  rewrite Houts, Hins, !in_app_iff in Hin.
  rewrite Forall_forall in Hlo, Hli, Hraw_o, Hraw_i.
  destruct Hin as [[Hin|Hin]|[Hin|Hin]].
  - now apply Hlo.
  - apply Hraw_o in Hin. congruence.
  - now apply Hli.
  - apply Hraw_i in Hin. congruence.
Qed.

End Alsa.

(** ** The statements at sample inputs

    The parameters of the section are instantiated with 24 channels, a
    detector that leaves the layout alone, rate fields that hold every
    [unsigned int], and fresh objects filled with zeros. *)

Local Abbreviation no_detect := (fun layout : SoundIoChannelLayout => layout).
Local Abbreviation wide := (fun rate : Z => rate).
Local Abbreviation sample_refresh_devices :=
  (refresh_devices 24 no_detect wide sample_blank_device 0 0).
Local Abbreviation sample_hint_body :=
  (hint_body 24 no_detect wide sample_blank_device).
Local Abbreviation sample_iteration :=
  (device_thread_iteration 24 no_detect wide sample_blank_device 0 0).

Lemma handle_channel_maps_richest_first_seen_witness :
  exists i best,
    nth_error sample_maps i = Some best
    /\ handle_channel_maps 24 no_detect sample_blank_device (Some sample_maps)
       = Some (get_channel_layout 24 no_detect sample_blank_device best)
    /\ (forall v, In v sample_maps -> chmap_channels v <= chmap_channels best)
    /\ (forall j v, (j < i)%nat -> nth_error sample_maps j = Some v ->
          chmap_channels v < chmap_channels best).
Proof.
  apply handle_channel_maps_richest_first_seen. discriminate.
Defined.

Lemma published_snapshot_has_no_excluded_name_witness :
  exists info,
    ready_devices_info
      (world_of (sample_refresh_devices
                   (sample_answers
                      (Some [default_card_hint; null_hint; sysdefault_card_hint])
                      playback_only_card)
                   sample_world))
    = Some info
    /\ devices_all (fun device => admissible_name (name device)) info.
Proof.
  apply (published_snapshot_has_no_excluded_name 24 no_detect wide
           sample_blank_device 0 0
           (sample_answers
              (Some [default_card_hint; null_hint; sysdefault_card_hint])
              playback_only_card)
           sample_world).
  vm_compute. reflexivity.
Defined.

Lemma no_capture_descriptor_when_detail_names_output_witness :
  exists info' w',
    sample_hint_body (sample_answers None CardNextEnd) digital_output_hint
      (created_devices_info 0 0) sample_world = Go info' w'
    /\ input_devices info' = input_devices (created_devices_info 0 0).
Proof.
  eexists. eexists. split; [vm_compute; reflexivity|].
  apply (no_capture_descriptor_when_detail_names_output 24 no_detect wide
           sample_blank_device (sample_answers None CardNextEnd)
           digital_output_hint "Digital Output"
           (created_devices_info 0 0) _ sample_world
           (world_of (sample_hint_body (sample_answers None CardNextEnd)
                        digital_output_hint (created_devices_info 0 0)
                        sample_world))).
  - reflexivity.
  - left. exists "Digital ", "". reflexivity.
  - vm_compute. reflexivity.
Defined.

(** In capitals the word is not seen: the hint gets its capture
    descriptor although its secondary description text contains
    "output" when letter case is ignored, and a pass over this hint
    publishes that descriptor. *)
Lemma capture_descriptor_for_capitals_output :
  secondary_text capitals_output_hint = Some "DIGITAL OUTPUT"
  /\ spec_contains_any_case "DIGITAL OUTPUT" "output" = true
  /\ (exists info' w' device,
        sample_hint_body (sample_answers None CardNextEnd) capitals_output_hint
          (created_devices_info 0 0) sample_world = Go info' w'
        /\ input_devices info' = [device]
        /\ name device = "iec958:CARD"
        /\ purpose device = SoundIoDevicePurposeInput)
  /\ (exists info w' device,
        sample_refresh_devices
          (sample_answers (Some [capitals_output_hint]) CardNextEnd) sample_world
        = Go tt w'
        /\ ready_devices_info w' = Some info
        /\ input_devices info = [device]
        /\ name device = "iec958:CARD"
        /\ purpose device = SoundIoDevicePurposeInput).
Proof.
  split; [reflexivity|]. split; [reflexivity|]. split.
  - eexists. eexists. eexists. split; [vm_compute; reflexivity|].
    repeat split.
  - eexists. eexists. eexists. split; [vm_compute; reflexivity|].
    repeat split.
Qed.

Lemma default_card_scenario_witness :
  exists info d_out d_in,
    ready_devices_info
      (world_of (sample_refresh_devices
                   (sample_answers
                      (Some [default_card_hint; null_hint; sysdefault_card_hint])
                      playback_only_card)
                   sample_world))
    = Some info
    /\ logical (output_devices info) = [d_out]
    /\ logical (input_devices info) = [d_in]
    /\ nth_error (output_devices info) 0 = Some d_out
    /\ nth_error (input_devices info) 0 = Some d_in
    /\ name d_out = "default:CARD" /\ name d_in = "default:CARD"
    /\ purpose d_out = SoundIoDevicePurposeOutput
    /\ purpose d_in = SoundIoDevicePurposeInput
    /\ is_raw d_out = false /\ is_raw d_in = false
    /\ default_output_index info = 0
    /\ default_input_index info = 0.
Proof.
  apply (proj1 (default_card_scenario 24 no_detect wide sample_blank_device 0 0)
           (sample_answers
              (Some [default_card_hint; null_hint; sysdefault_card_hint])
              playback_only_card)
           sample_world _ default_card_hint null_hint sysdefault_card_hint).
  - reflexivity.
  - reflexivity.
  - reflexivity.
  - intros detail H. vm_compute in H. discriminate.
  - reflexivity.
  - reflexivity.
  - vm_compute. reflexivity.
Defined.

(** With a secondary description line that names an output, the
    scenario's hint list yields the output descriptor only. *)
Lemma default_card_with_output_detail_has_no_input :
  name_hints (sample_answers
                (Some [default_card_output_hint; null_hint; sysdefault_card_hint])
                CardNextEnd)
  = Some [default_card_output_hint; null_hint; sysdefault_card_hint]
  /\ hint_NAME default_card_output_hint = "default:CARD"
  /\ hint_IOID default_card_output_hint = None
  /\ exists info w' d_out,
       sample_refresh_devices
         (sample_answers
            (Some [default_card_output_hint; null_hint; sysdefault_card_hint])
            CardNextEnd)
         sample_world = Go tt w'
       /\ ready_devices_info w' = Some info
       /\ output_devices info = [d_out]
       /\ name d_out = "default:CARD"
       /\ input_devices info = [].
Proof.
  repeat (split; [reflexivity|]).
  eexists. eexists. eexists. split; [vm_compute; reflexivity|].
  repeat split.
Qed.

Local Abbreviation duplex_answers :=
  (sample_answers (Some [null_hint; duplex_hint; default_card_hint]) CardNextEnd).
Local Abbreviation duplex_entered := (world_of (begin_pass 0 0 duplex_answers sample_world)).

Lemma invalid_ioid_panics_witness :
  sample_refresh_devices duplex_answers sample_world
  = Dead (soundio_panic "invalid io hint value") duplex_entered
  /\ ready_devices_info duplex_entered = ready_devices_info sample_world
  /\ have_devices_flag duplex_entered = have_devices_flag sample_world.
Proof.
  apply (invalid_ioid_panics 24 no_detect wide sample_blank_device 0 0
           duplex_answers sample_world duplex_entered duplex_entered
           [null_hint] [default_card_hint] duplex_hint "Duplex"
           (created_devices_info 0 0)).
  - reflexivity.
  - vm_compute. reflexivity.
  - vm_compute. reflexivity.
  - apply (proj1 (excluded_name_false_iff (hint_NAME duplex_hint))). reflexivity.
  - reflexivity.
  - discriminate.
  - discriminate.
Defined.

(** Two hints with an IOID that is neither "Input" nor "Output" and
    no panic.  A hint on the exclusion list is skipped before its IOID
    is read: the pass still returns 0.  A hint that is not skipped and
    has no DESC string ends the process in [str_partition_on_char],
    before its IOID is read. *)
Lemma invalid_ioid_without_panic :
  hint_IOID duplex_null_hint = Some "Duplex"
  /\ hint_IOID duplex_bare_hint = Some "Duplex"
  /\ "Duplex" <> "Input" /\ "Duplex" <> "Output"
  /\ (exists w',
        sample_refresh_devices
          (sample_answers (Some [duplex_null_hint]) CardNextEnd) sample_world
        = Go tt w')
  /\ (exists w',
        sample_refresh_devices
          (sample_answers (Some [duplex_bare_hint]) CardNextEnd) sample_world
        = Dead null_dereference w')
  /\ (forall w',
        sample_refresh_devices
          (sample_answers (Some [duplex_bare_hint]) CardNextEnd) sample_world
        <> Dead (soundio_panic "invalid io hint value") w').
Proof.
  split; [reflexivity|]. split; [reflexivity|].
  split; [discriminate|]. split; [discriminate|].
  split; [eexists; vm_compute; reflexivity|].
  split; [eexists; vm_compute; reflexivity|].
  intros w'. vm_compute. discriminate.
Qed.

Lemma qualifying_change_filter_witness :
  refresh_devices_calls
    (loop_world (sample_iteration
                   (notify_wake [[control_created; directory_created]])
                   sample_world))
  = refresh_devices_calls sample_world.
Proof.
  apply (proj2 (qualifying_change_filter 24 no_detect wide sample_blank_device 0 0)).
  - reflexivity.
  - intros buf event [<-|[]] [<-|[<-|[]]] H;
      apply (proj1 (qualifying_change_filter 24 no_detect wide sample_blank_device 0 0))
        in H; vm_compute in H; discriminate.
Defined.

Lemma one_pass_per_wake_cycle_witness :
  refresh_devices_calls
    (loop_world (sample_iteration
                   (notify_wake [[pcm_created "pcmC1D0p"; pcm_created "pcmC1D0c"]])
                   sample_world))
  = S (refresh_devices_calls sample_world).
Proof.
  apply (proj2 (proj2 (one_pass_per_wake_cycle 24 no_detect wide
                         sample_blank_device 0 0))).
  - reflexivity.
  - reflexivity.
  - reflexivity.
  - vm_compute. lia.
Defined.

Lemma flush_events_twice_one_callback_witness :
  call_world (flush_events
                (world_of (sample_refresh_devices
                             (sample_answers (Some []) CardNextEnd) sample_world)))
  <> sample_world
  /\ (on_devices_change_calls
        (call_world
           (flush_events_twice
              (world_of (sample_refresh_devices
                           (sample_answers (Some []) CardNextEnd) sample_world))))
      <= 1)%nat.
Proof.
  split; [vm_compute; discriminate|].
  exact (proj1 (flush_events_twice_one_callback
                  (world_of (sample_refresh_devices
                               (sample_answers (Some []) CardNextEnd) sample_world)))).
Defined.

(** ** The further properties at sample inputs *)

Local Abbreviation scenario_answers :=
  (sample_answers (Some [default_card_hint; null_hint; sysdefault_card_hint])
     playback_only_card).
Local Abbreviation scenario_world :=
  (world_of (sample_refresh_devices scenario_answers sample_world)).
Local Abbreviation sample_init := (soundio_alsa_init blank_alsa).

Lemma str_has_prefix_exactly_prefixes_witness :
  str_has_prefix "hw:0" "sysdefault:" = false.
Proof.
  apply (proj2 (proj2 (proj2 (str_has_prefix_exactly_prefixes "hw:0" "sysdefault:")))).
  cbn. lia.
Defined.

Lemma from_alsa_chmap_pos_valid_range_witness :
  2 = 7 \/ (2 = 2 /\ 7 = 7) \/ (2 = 7 /\ 7 = 2).
Proof.
  apply (proj2 from_alsa_chmap_pos_valid_range 2 7); [lia|lia|reflexivity].
Defined.

Lemma get_channel_layout_fills_prefix_witness :
  exists layout,
    channel_layout
      (get_channel_layout 24 no_detect sample_array_device
         {| chmap_channels := 2; chmap_pos := [3; 4] |})
    = layout
    /\ channel_count layout = 2
    /\ nth_error (channels layout) 1 = Some SoundIoChannelIdFrontRight
    /\ nth_error (channels layout) 2 = Some SoundIoChannelIdInvalid.
Proof.
  destruct (get_channel_layout_fills_prefix 24 no_detect sample_array_device
              {| chmap_channels := 2; chmap_pos := [3; 4] |})
    as (layout & Hl & _ & Hcount & _ & Hlen & Hnth & _).
  exists layout. split; [exact Hl|]. split; [exact Hcount|].
  rewrite Hlen in Hnth. split.
  - rewrite (Hnth 1%nat) by (cbn; lia). rewrite Hcount. reflexivity.
  - rewrite (Hnth 2%nat) by (cbn; lia). rewrite Hcount. reflexivity.
Defined.

Lemma probe_device_return_code_witness :
  match probe_device 24 no_detect wide sample_pcm sample_blank_device (Some []) with
  | ProbeRet _ _ => False
  | ProbeNullDeref => True
  end
  /\ (Some (@nil snd_pcm_chmap_t) = Some []
      \/ (Some (@nil snd_pcm_chmap_t) = None /\ get_chmap sample_pcm = None
          /\ query_chmaps sample_pcm = Some [] /\ all_pcm_calls_succeed sample_pcm)).
Proof.
  split; [exact Logic.I|].
  exact (probe_device_return_code 24 no_detect wide sample_pcm sample_blank_device
           (Some [])).
Defined.

Lemma probe_device_default_rate_in_range_witness :
  exists queried_max max_dir queried_min min_dir min_rate max_rate default_rate,
    get_rate_max sample_pcm = Some (queried_max, max_dir)
    /\ get_rate_min sample_pcm = Some (queried_min, min_dir)
    /\ max_rate = (if max_dir <? 0 then uint (uint queried_max - 1)
                   else uint queried_max)
    /\ min_rate = (if 0 <? min_dir then uint (uint queried_min + 1)
                   else uint queried_min)
    /\ sample_rate_default
         (set_sample_rate_default
            (set_sample_rate_min (set_sample_rate_min sample_blank_device 44100) 96000)
            48000)
       = default_rate
    /\ (min_rate <= 48000 <= max_rate -> default_rate = 48000)
    /\ (~ min_rate <= 48000 <= max_rate -> default_rate = max_rate)
    /\ default_rate <= max_rate
    /\ (min_rate <= max_rate -> min_rate <= default_rate).
Proof.
  apply (probe_device_default_rate_in_range 24 no_detect wide sample_pcm
           sample_blank_device _ None).
  vm_compute. reflexivity.
Defined.

Lemma published_lists_match_purpose_witness :
  exists info,
    ready_devices_info scenario_world = Some info /\ lists_match_purpose info.
Proof.
  apply (published_lists_match_purpose 24 no_detect wide sample_blank_device 0 0
           scenario_answers sample_world).
  vm_compute. reflexivity.
Defined.

Lemma published_lists_logical_then_raw_witness :
  exists hints info logical_out raw_out logical_in raw_in,
    name_hints scenario_answers = Some hints
    /\ ready_devices_info scenario_world = Some info
    /\ output_devices info = logical_out ++ raw_out
    /\ input_devices info = logical_in ++ raw_in
    /\ Forall (from_hint hints) logical_out
    /\ Forall (from_hint hints) logical_in
    /\ Forall (fun device => is_raw device = true) raw_out
    /\ Forall (fun device => is_raw device = true) raw_in.
Proof.
  apply (published_lists_logical_then_raw 24 no_detect wide sample_blank_device 0 0
           scenario_answers sample_world).
  vm_compute. reflexivity.
Defined.

Lemma published_default_index_sound_witness :
  exists info,
    ready_devices_info scenario_world = Some info
    /\ default_index_sound 0 (default_output_index info) (output_devices info)
    /\ default_index_sound 0 (default_input_index info) (input_devices info).
Proof.
  apply (published_default_index_sound 24 no_detect wide sample_blank_device 0 0
           scenario_answers sample_world).
  vm_compute. reflexivity.
Defined.


Local Abbreviation nameless_card_answers :=
  (sample_answers (Some [default_card_hint])
     (CardNextCard 0 CtlOpenOk None PcmNextEnd CardNextEnd)).

Lemma refresh_devices_error_codes_witness :
  SoundIoErrorSystemResources <> SoundIoErrorNone
  /\ pass_error_cause nameless_card_answers SoundIoErrorSystemResources
  /\ ~ ((forall n, alloc_ok nameless_card_answers n = true)
        /\ name_hints nameless_card_answers <> None
        /\ ~ some_card_call_fails (cards nameless_card_answers)
        /\ ~ some_ctl_open_fails (cards nameless_card_answers)).
Proof.
  apply (refresh_devices_error_codes 24 no_detect wide sample_blank_device 0 0
           nameless_card_answers sample_world
           (world_of (sample_refresh_devices nameless_card_answers sample_world))).
  vm_compute. reflexivity.
Defined.

Lemma playback_only_raw_device_witness :
  exists info device,
    ready_devices_info scenario_world = Some info
    /\ filter is_raw (output_devices info) = [device]
    /\ filter is_raw (input_devices info) = []
    /\ name device = hw_name 0 0
    /\ description device = "HDA Intel PCH ALC892 Analog"
    /\ purpose device = SoundIoDevicePurposeOutput
    /\ is_raw device = true
    /\ ref_count device = 1.
Proof.
  apply (playback_only_raw_device 24 no_detect wide sample_blank_device 0 0
           scenario_answers sample_world scenario_world 0 0
           "HDA Intel PCH" "ALC892 Analog"
           (fun stream =>
              match stream with
              | SND_PCM_STREAM_PLAYBACK =>
                  {| pcm_info := PcmInfoOk "ALC892 Analog"; chmaps_from_hw := None |}
              | SND_PCM_STREAM_CAPTURE =>
                  {| pcm_info := PcmInfoENOENT; chmaps_from_hw := None |}
              end)).
  - reflexivity.
  - lia.
  - lia.
  - reflexivity.
  - reflexivity.
  - vm_compute. reflexivity.
Defined.

Lemma watcher_runs_pass_iff_witness :
  refresh_devices_calls
    (loop_world (sample_iteration (notify_wake [[control_created; pcm_created "pcmC1D0p"]])
                   sample_world))
  = S (refresh_devices_calls sample_world).
Proof.
  apply (proj1 (watcher_runs_pass_iff 24 no_detect wide sample_blank_device 0 0
                  (notify_wake [[control_created; pcm_created "pcmC1D0p"]])
                  sample_world)).
  split; [reflexivity|]. split; [reflexivity|]. right. split; [reflexivity|].
  exists [control_created; pcm_created "pcmC1D0p"], (pcm_created "pcmC1D0p").
  split; [now left|]. split; [right; now left|].
  apply (proj1 (rescan_event_iff (pcm_created "pcmC1D0p"))).
  reflexivity.
Defined.

Local Abbreviation sample_thread_run :=
  (device_thread_run 24 no_detect wide sample_blank_device 0 0).
Local Abbreviation sample_wakes :=
  [notify_wake [[control_created]]; notify_wake [[pcm_created "pcmC1D0p"]]].
Local Abbreviation empty_answers := (sample_answers (Some []) CardNextEnd).

Lemma watcher_alive_has_published_witness :
  safe_devices_info (loop_world (sample_thread_run sample_wakes sample_world))
  = safe_devices_info sample_world
  /\ on_devices_change_calls (loop_world (sample_thread_run sample_wakes sample_world))
     = on_devices_change_calls sample_world
  /\ (cond_signals (loop_world (sample_thread_run sample_wakes sample_world))
      + refresh_devices_calls sample_world
      = cond_signals sample_world
        + refresh_devices_calls
            (loop_world (sample_thread_run sample_wakes sample_world)))%nat
  /\ ((refresh_devices_calls sample_world
       < refresh_devices_calls
           (loop_world (sample_thread_run sample_wakes sample_world)))%nat ->
      ready_devices_info (loop_world (sample_thread_run sample_wakes sample_world))
      <> None
      /\ have_devices_flag (loop_world (sample_thread_run sample_wakes sample_world))
         = true).
Proof.
  apply (watcher_alive_has_published 24 no_detect wide sample_blank_device 0 0
           sample_wakes sample_world).
  left. vm_compute. reflexivity.
Defined.

Lemma publish_then_flush_delivers_witness :
  exists info w2,
    ready_devices_info scenario_world = Some info
    /\ flush_events scenario_world = Returns w2
    /\ safe_devices_info w2 = Some info
    /\ ready_devices_info w2 = None
    /\ on_devices_change_calls w2 = S (on_devices_change_calls sample_world)
    /\ flush_events w2 = Returns w2
    /\ (ready_devices_info sample_world = None ->
        safe_devices_info sample_world <> None ->
        live_devices_info w2 = live_devices_info sample_world).
Proof.
  apply (publish_then_flush_delivers 24 no_detect wide sample_blank_device 0 0
           scenario_answers sample_world).
  vm_compute. reflexivity.
Defined.


Lemma flag_is_monotone_witness :
  have_devices_flag (call_world (flush_events scenario_world)) = true
  /\ exists w', flush_events scenario_world = Returns w'.
Proof.
  split.
  - apply (proj1 (proj1 (proj2 (flag_is_monotone 24 no_detect wide
                                  sample_blank_device 0 0))
                    scenario_world)).
    vm_compute. reflexivity.
  - apply (proj2 (proj2 (proj2 (flag_is_monotone 24 no_detect wide
                                  sample_blank_device 0 0)))
             scenario_world).
    + vm_compute. intros _. reflexivity.
    + vm_compute. discriminate.
Defined.

Local Abbreviation thread_refused_answers :=
  {| create_ok := true; mutex_ok := true; cond_ok := true;
     inotify_init1_fd := 3; inotify_init1_errno := Errno_ENOMEM;
     inotify_add_watch_wd := 1; inotify_add_watch_errno := Errno_ENOMEM;
     pipe2_result := 0; pipe2_errno := Errno_EMFILE; pipe2_fds := (4, 5);
     wakeup_write := Written 1;
     thread_create_err := SoundIoErrorSystemResources;
     teardown_write := Written 1 |}.

Lemma soundio_alsa_init_success_witness :
  (exists b', sample_init (sample_init_answers true) sample_backend
              = InitRet SoundIoErrorNone b')
  /\ (exists b',
        sample_init thread_refused_answers sample_backend
        = InitRet SoundIoErrorSystemResources b'
        /\ pipe_written b' = 0 + 1
        /\ os_threads b' = 0%nat
        /\ dispatch_installed b' = false).
Proof.
  split.
  - apply (proj2 (proj1 (soundio_alsa_init_success blank_alsa
                           (sample_init_answers true) sample_backend eq_refl))).
    vm_compute. repeat split; discriminate.
  - apply (proj2 (proj2 (proj2 (soundio_alsa_init_success blank_alsa
                                  thread_refused_answers sample_backend eq_refl)))).
    + vm_compute. repeat split; discriminate.
    + exact Logic.I.
    + discriminate.
    + reflexivity.
Defined.

Lemma soundio_alsa_init_failure_witness :
  exists b',
    sample_init (sample_init_answers false) sample_backend
    = InitRet SoundIoErrorNoMem b'
    /\ dispatch_installed b' = false
    /\ os_threads b' = 0%nat
    /\ backend_data b' = None
    /\ os_mutexes b' = 0%nat /\ os_conds b' = 0%nat.
Proof.
  eexists. split; [vm_compute; reflexivity|].
  match goal with
  | |- dispatch_installed ?b' = _ /\ _ =>
      destruct (soundio_alsa_init_failure blank_alsa (sample_init_answers false)
                  sample_backend b' SoundIoErrorNoMem)
        as (Hd & Ht & _ & [(Hdata & Hm & Hc)|(Hp & _)])
  end.
  - reflexivity.
  - vm_compute. repeat split.
  - vm_compute. reflexivity.
  - discriminate.
  - repeat split; assumption.
  - exfalso. apply Hp. reflexivity.
Defined.

Lemma init_then_destroy_releases_all_witness :
  exists b' b'',
    sample_init (sample_init_answers true) sample_backend
    = InitRet SoundIoErrorNone b'
    /\ destroy_alsa (Written 1) b' = Some b''
    /\ backend_data b'' = None
    /\ os_mutexes b'' = 0%nat /\ os_conds b'' = 0%nat /\ os_threads b'' = 0%nat
    /\ closed_fds b'' = [4; 5; 3]
    /\ pipe_written b'' = 2.
Proof.
  eexists.
  match goal with
  | |- exists b'', ?init = InitRet _ ?b' /\ _ =>
      assert (Hinit : init = InitRet SoundIoErrorNone b') by (vm_compute; reflexivity);
      destruct (init_then_destroy_releases_all 24 no_detect wide sample_blank_device
                  0 0 blank_alsa (sample_init_answers true) sample_backend b'
                  (Written 1) eq_refl Hinit)
        as (_ & b'' & Hd & Hdata & Hm & Hc & Ht & Hfds & Hw)
  end.
  - vm_compute. repeat split; discriminate.
  - exists b''. split; [exact Hinit|]. split; [exact Hd|]. split; [exact Hdata|].
    split; [exact Hm|]. split; [exact Hc|]. split; [exact Ht|].
    split; [exact Hfds|exact Hw].
Defined.


Lemma published_logical_described_by_hint_witness :
  exists hints info,
    name_hints scenario_answers = Some hints
    /\ ready_devices_info scenario_world = Some info
    /\ forall device,
         In device (output_devices info) \/ In device (input_devices info) ->
         is_raw device = false ->
         described_by_hint hints device.
Proof.
  apply (published_logical_described_by_hint 24 no_detect wide sample_blank_device
           0 0 scenario_answers sample_world).
  vm_compute. reflexivity.
Defined.
